(** * playerzero-server: the session coordinator of [server.js]

    A shallow embedding of the in-memory game sessions kept by
    [server.js] and of the [games] table behind [GameDatabase]
    ([services/database.js]), with the properties of the specification
    settled against it.

    Conventions of the embedding.
    - JavaScript numbers that hold token balances, asset quantities,
      prices, rounds and seconds are integers ([Z]): sums, differences
      and products of integers are exact in binary64 as long as the
      operands and the result are safe integers, at most [2^53 - 1] in
      absolute value.  The one non-integer constant, the sell multiplier
      [0.8], only occurs under [Math.floor]; the product [price * 0.8]
      is rounded as binary64 rounds it, to 53 significant bits with ties
      to even, before the floor is taken.
    - [Math.random()] is a rational in the half-open interval from 0 to 1,
      handed to the code by an oracle; its products by 40 and by 10 are
      taken exactly before the floor.  The binary64 product can differ
      from the exact one in the last place, which moves the draws at
      which one outcome gives way to the next and leaves the set of
      outcomes as it is.
    - Objects mutated through a reference ([player], [target],
      [marketChange]) are updated at the index at which [Array.find]
      found them, so two references to one object stay one object.
    - [undefined] and [null] are [None]; a property read on a key that
      the object lacks is [None].
    - The fields [nextRoundStartTime] (always [null]) and [createdAt]
      (a timestamp that nothing reads) are left out, as are the room
      broadcasts, which send snapshots and change no state; what a
      handler sends on its own socket is kept. *)

From Stdlib Require Import Ascii String ZArith QArith Qround Sorted Permutation.
From stdpp Require Import gmap strings list fin_maps pretty.

Local Open Scope Z_scope.

(** ** JavaScript strings *)

Definition toLowerAscii (c : ascii) : ascii :=
  let n := nat_of_ascii c in
  if ((65 <=? n) && (n <=? 90))%nat then ascii_of_nat (n + 32) else c.

Definition toUpperAscii (c : ascii) : ascii :=
  let n := nat_of_ascii c in
  if ((97 <=? n) && (n <=? 122))%nat then ascii_of_nat (n - 32) else c.

Fixpoint toLowerCase (s : string) : string :=
  match s with
  | EmptyString => EmptyString
  | String c s' => String (toLowerAscii c) (toLowerCase s')
  end.

(** [s.charAt(0).toUpperCase() + s.slice(1)] *)
Definition capitalize (s : string) : string :=
  match s with
  | EmptyString => EmptyString
  | String c s' => String (toUpperAscii c) s'
  end.

(** Truthiness of a string: [""] is falsy. *)
Definition truthy_string (s : string) : bool := negb (String.eqb s "").

(** Truthiness of a value that is a string, [null] or [undefined]. *)
Definition truthy_ostring (o : option string) : bool :=
  match o with
  | Some s => truthy_string s
  | None => false
  end.

(** Truthiness of a value that is a number or absent: [0] is falsy. *)
Definition truthy_number (o : option Z) : bool :=
  match o with
  | Some n => negb (n =? 0)
  | None => false
  end.

(** The text of an integer in a template literal. *)
Definition numberText (n : Z) : string := pretty n.

(** ** Data model *)

Inductive Status := waiting | playing | finished | closed.

Global Instance Status_eq_dec : EqDecision Status.
Proof. solve_decision. Defined.

Inductive Resource := Gold | Water | Oil.

(** An object with the keys [gold], [water] and [oil]: a player's
    [assets], and the [marketPrices] of a game. *)
Record Resources := mkResources { gold : Z; water : Z; oil : Z }.

Definition resourceOfKey (key : string) : option Resource :=
  if String.eqb key "gold" then Some Gold
  else if String.eqb key "water" then Some Water
  else if String.eqb key "oil" then Some Oil
  else None.

Definition getResource (o : Resources) (r : Resource) : Z :=
  match r with
  | Gold => gold o
  | Water => water o
  | Oil => oil o
  end.

Definition setResource (o : Resources) (r : Resource) (v : Z) : Resources :=
  match r with
  | Gold => mkResources v (water o) (oil o)
  | Water => mkResources (gold o) v (oil o)
  | Oil => mkResources (gold o) (water o) v
  end.

(** [o[key]]: [None] is [undefined]. *)
Definition getKey (o : Resources) (key : string) : option Z :=
  getResource o <$> resourceOfKey key.

(** [o.gold + o.water + o.oil] *)
Definition sumResources (o : Resources) : Z := gold o + water o + oil o.

Record Player := mkPlayer {
  pid : string;                  (* id *)
  pname : string;                (* name *)
  socketId : string;
  walletAddress : option string;
  tokens : Z;
  assets : Resources;
  totalAssets : Z;
  connected : bool
}.

Record MarketChange := mkMarketChange {
  resource : string;
  change : Z;
  percentage : string
}.

Record TimeRemaining := mkTime { hours : Z; minutes : Z; seconds : Z }.

Record RoundDelay := mkRoundDelay {
  active : bool;
  rd_timeRemaining : Z           (* roundDelay.timeRemaining *)
}.

(** [{ ...player, finalScore }] *)
Record ScoredPlayer := mkScored { sp_player : Player; finalScore : Z }.

Record Game := mkGame {
  currentRound : Z;
  maxRounds : Z;
  timeRemaining : TimeRemaining;
  g_players : list Player;       (* game.players, in join order *)
  marketChanges : list MarketChange;
  marketPrices : Resources;
  recentActions : list string;
  actionHistory : gmap Z (list string);
  status : Status;
  host : option string;
  timerActive : bool;
  roundInProgress : bool;
  gameName : option string;
  isPrivate : bool;
  exitedPlayers : option (gset string);
  roundDelay : option RoundDelay;
  winner : option ScoredPlayer;
  finalScores : option (list ScoredPlayer)
}.

(** ** Field updates *)

Definition set_tokens (v : Z) (p : Player) : Player :=
  mkPlayer (pid p) (pname p) (socketId p) (walletAddress p) v (assets p)
           (totalAssets p) (connected p).

Definition set_assets (v : Resources) (p : Player) : Player :=
  mkPlayer (pid p) (pname p) (socketId p) (walletAddress p) (tokens p) v
           (totalAssets p) (connected p).

Definition set_totalAssets (v : Z) (p : Player) : Player :=
  mkPlayer (pid p) (pname p) (socketId p) (walletAddress p) (tokens p)
           (assets p) v (connected p).

Definition set_connected (v : bool) (p : Player) : Player :=
  mkPlayer (pid p) (pname p) (socketId p) (walletAddress p) (tokens p)
           (assets p) (totalAssets p) v.

Definition set_currentRound (v : Z) (g : Game) : Game :=
  mkGame v (maxRounds g) (timeRemaining g) (g_players g) (marketChanges g)
         (marketPrices g) (recentActions g) (actionHistory g) (status g) (host g)
         (timerActive g) (roundInProgress g) (gameName g) (isPrivate g)
         (exitedPlayers g) (roundDelay g) (winner g) (finalScores g).

Definition set_timeRemaining (v : TimeRemaining) (g : Game) : Game :=
  mkGame (currentRound g) (maxRounds g) v (g_players g) (marketChanges g)
         (marketPrices g) (recentActions g) (actionHistory g) (status g) (host g)
         (timerActive g) (roundInProgress g) (gameName g) (isPrivate g)
         (exitedPlayers g) (roundDelay g) (winner g) (finalScores g).

Definition set_players (v : list Player) (g : Game) : Game :=
  mkGame (currentRound g) (maxRounds g) (timeRemaining g) v (marketChanges g)
         (marketPrices g) (recentActions g) (actionHistory g) (status g) (host g)
         (timerActive g) (roundInProgress g) (gameName g) (isPrivate g)
         (exitedPlayers g) (roundDelay g) (winner g) (finalScores g).

Definition set_marketChanges (v : list MarketChange) (g : Game) : Game :=
  mkGame (currentRound g) (maxRounds g) (timeRemaining g) (g_players g) v
         (marketPrices g) (recentActions g) (actionHistory g) (status g) (host g)
         (timerActive g) (roundInProgress g) (gameName g) (isPrivate g)
         (exitedPlayers g) (roundDelay g) (winner g) (finalScores g).

Definition set_marketPrices (v : Resources) (g : Game) : Game :=
  mkGame (currentRound g) (maxRounds g) (timeRemaining g) (g_players g)
         (marketChanges g) v (recentActions g) (actionHistory g) (status g)
         (host g) (timerActive g) (roundInProgress g) (gameName g) (isPrivate g)
         (exitedPlayers g) (roundDelay g) (winner g) (finalScores g).

Definition set_recentActions (v : list string) (g : Game) : Game :=
  mkGame (currentRound g) (maxRounds g) (timeRemaining g) (g_players g)
         (marketChanges g) (marketPrices g) v (actionHistory g) (status g)
         (host g) (timerActive g) (roundInProgress g) (gameName g) (isPrivate g)
         (exitedPlayers g) (roundDelay g) (winner g) (finalScores g).

Definition set_actionHistory (v : gmap Z (list string)) (g : Game) : Game :=
  mkGame (currentRound g) (maxRounds g) (timeRemaining g) (g_players g)
         (marketChanges g) (marketPrices g) (recentActions g) v (status g)
         (host g) (timerActive g) (roundInProgress g) (gameName g) (isPrivate g)
         (exitedPlayers g) (roundDelay g) (winner g) (finalScores g).

Definition set_status (v : Status) (g : Game) : Game :=
  mkGame (currentRound g) (maxRounds g) (timeRemaining g) (g_players g)
         (marketChanges g) (marketPrices g) (recentActions g) (actionHistory g) v
         (host g) (timerActive g) (roundInProgress g) (gameName g) (isPrivate g)
         (exitedPlayers g) (roundDelay g) (winner g) (finalScores g).

Definition set_host (v : option string) (g : Game) : Game :=
  mkGame (currentRound g) (maxRounds g) (timeRemaining g) (g_players g)
         (marketChanges g) (marketPrices g) (recentActions g) (actionHistory g)
         (status g) v (timerActive g) (roundInProgress g) (gameName g)
         (isPrivate g) (exitedPlayers g) (roundDelay g) (winner g)
         (finalScores g).

Definition set_timerActive (v : bool) (g : Game) : Game :=
  mkGame (currentRound g) (maxRounds g) (timeRemaining g) (g_players g)
         (marketChanges g) (marketPrices g) (recentActions g) (actionHistory g)
         (status g) (host g) v (roundInProgress g) (gameName g) (isPrivate g)
         (exitedPlayers g) (roundDelay g) (winner g) (finalScores g).

Definition set_gameName (v : option string) (g : Game) : Game :=
  mkGame (currentRound g) (maxRounds g) (timeRemaining g) (g_players g)
         (marketChanges g) (marketPrices g) (recentActions g) (actionHistory g)
         (status g) (host g) (timerActive g) (roundInProgress g) v (isPrivate g)
         (exitedPlayers g) (roundDelay g) (winner g) (finalScores g).

Definition set_isPrivate (v : bool) (g : Game) : Game :=
  mkGame (currentRound g) (maxRounds g) (timeRemaining g) (g_players g)
         (marketChanges g) (marketPrices g) (recentActions g) (actionHistory g)
         (status g) (host g) (timerActive g) (roundInProgress g) (gameName g) v
         (exitedPlayers g) (roundDelay g) (winner g) (finalScores g).

Definition set_exitedPlayers (v : option (gset string)) (g : Game) : Game :=
  mkGame (currentRound g) (maxRounds g) (timeRemaining g) (g_players g)
         (marketChanges g) (marketPrices g) (recentActions g) (actionHistory g)
         (status g) (host g) (timerActive g) (roundInProgress g) (gameName g)
         (isPrivate g) v (roundDelay g) (winner g) (finalScores g).

Definition set_roundDelay (v : option RoundDelay) (g : Game) : Game :=
  mkGame (currentRound g) (maxRounds g) (timeRemaining g) (g_players g)
         (marketChanges g) (marketPrices g) (recentActions g) (actionHistory g)
         (status g) (host g) (timerActive g) (roundInProgress g) (gameName g)
         (isPrivate g) (exitedPlayers g) v (winner g) (finalScores g).

Definition set_winner (v : option ScoredPlayer) (g : Game) : Game :=
  mkGame (currentRound g) (maxRounds g) (timeRemaining g) (g_players g)
         (marketChanges g) (marketPrices g) (recentActions g) (actionHistory g)
         (status g) (host g) (timerActive g) (roundInProgress g) (gameName g)
         (isPrivate g) (exitedPlayers g) (roundDelay g) v (finalScores g).

Definition set_finalScores (v : option (list ScoredPlayer)) (g : Game) : Game :=
  mkGame (currentRound g) (maxRounds g) (timeRemaining g) (g_players g)
         (marketChanges g) (marketPrices g) (recentActions g) (actionHistory g)
         (status g) (host g) (timerActive g) (roundInProgress g) (gameName g)
         (isPrivate g) (exitedPlayers g) (roundDelay g) (winner g) v.

(** ** Templates *)

(** [createInitialGameState()] *)
Definition createInitialGameState : Game :=
  {| currentRound := 1;
     maxRounds := 20;
     timeRemaining := mkTime 0 1 0;
     g_players := [];
     marketChanges := [ mkMarketChange "gold" 0 "+0%";
                        mkMarketChange "water" 0 "+0%";
                        mkMarketChange "oil" 0 "+0%" ];
     marketPrices := mkResources 100 50 150;
     recentActions := [];
     actionHistory := ∅;
     status := waiting;
     host := None;
     timerActive := false;
     roundInProgress := false;
     gameName := None;
     isPrivate := false;
     exitedPlayers := None;
     roundDelay := None;
     winner := None;
     finalScores := None |}.

(** [createPlayer(playerId, playerName, socketId, walletAddress)] *)
Definition createPlayer (playerId playerName socket : string)
    (wallet : option string) : Player :=
  {| pid := playerId;
     pname := playerName;
     socketId := socket;
     walletAddress := wallet;
     tokens := 1000;
     assets := mkResources 0 0 0;
     totalAssets := 0;
     connected := true |}.

(** [game.players.find((p) => p.id === playerId)], with the index of the
    object found. *)
Definition findPlayer (playerId : string) (ps : list Player)
    : option (nat * Player) :=
  list_find (λ p, pid p = playerId) ps.

Definition alterPlayer (i : nat) (f : Player → Player) (g : Game) : Game :=
  set_players (alter f i (g_players g)) g.

(** ** Action Resolver: the [player-action] handler on one game *)

Record ActionData := mkAction {
  action : string;
  a_resource : string;           (* data.resource *)
  amount : Z;
  targetPlayer : option string
}.

(** [`${c > 0 ? "+" : ""}${c}%`] *)
Definition percentText (c : Z) : string :=
  ((if (0 <? c)%Z then "+" else "") ++ numberText c ++ "%")%string.

(** [Number.MAX_SAFE_INTEGER], [2^53 - 1] *)
Definition MAX_SAFE_INTEGER : Z := 9007199254740991.

(** The natural number [n] rounded to 53 significant bits, ties to
    even: the [k] low bits that do not fit are dropped and the rest is
    rounded up when they are more than half a unit, or exactly half a
    unit below an odd significand. *)
Definition roundTo53 (n : Z) : Z :=
  let k := Z.max 0 (Z.log2 n - 52) in
  let q := n / 2 ^ k in
  let r := n mod 2 ^ k in
  (if (2 ^ k <? 2 * r) || ((2 * r =? 2 ^ k) && Z.odd q) then q + 1 else q)
  * 2 ^ k.

(** The literal [0.8] is the binary64 number
    [7205759403792794 / 2^53]. *)
Definition literal_0_8 : Z := 7205759403792794.

(** [x * 0.8] for an integer [x], in units of [2^-53]: the exact
    product rounded to 53 significant bits, with the sign of [x]. *)
Definition times_0_8 (x : Z) : Z :=
  Z.sgn x * roundTo53 (Z.abs x * literal_0_8).

(** [Math.floor(price * 0.8)] *)
Definition sellPriceOf (price : Z) : Z := times_0_8 price / 2 ^ 53.

Definition buyText (player : Player) (d : ActionData) (price : Z) : string :=
  (pname player ++ " bought " ++ numberText (amount d) ++ " "
     ++ capitalize (a_resource d) ++ " for " ++ numberText price
     ++ " tokens")%string.

Definition sellText (player : Player) (d : ActionData) (sellPrice : Z)
    : string :=
  (pname player ++ " sold " ++ numberText (amount d) ++ " "
     ++ capitalize (a_resource d) ++ " for " ++ numberText sellPrice
     ++ " tokens")%string.

Definition burnText (player : Player) (d : ActionData) : string :=
  (pname player ++ " burned " ++ numberText (amount d) ++ " "
     ++ capitalize (a_resource d) ++ " to boost market price")%string.

Definition sabotageText (player target : Player) (d : ActionData) : string :=
  (pname player ++ " sabotaged " ++ pname target ++ "'s "
     ++ capitalize (a_resource d) ++ " reserves")%string.

(** [player.assets[key] += delta] *)
Definition addAsset (r : Resource) (delta : Z) (p : Player) : Player :=
  set_assets (setResource (assets p) r (getResource (assets p) r + delta)) p.

(** The bump of a change indicator in the [Burn] case. *)
Definition bumpChange (delta : Z) (m : MarketChange) : MarketChange :=
  let c := change m + delta in
  mkMarketChange (resource m) c (percentText c).

(** The write to [target] in the [Sabotage] case: the asset is reduced
    and [target.totalAssets] recomputed. *)
Definition sabotageTarget (r : Resource) (amt : Z) (t : Player) : Player :=
  let a := setResource (assets t) r (Z.max 0 (getResource (assets t) r - amt)) in
  set_totalAssets (sumResources a) (set_assets a t).

(** [case "Buy"].  A key that is none of [gold], [water], [oil] makes
    [price] a [NaN], and [player.tokens >= NaN] is false. *)
Definition caseBuy (i : nat) (player : Player) (d : ActionData) (g : Game)
    : Game * string :=
  match resourceOfKey (toLowerCase (a_resource d)) with
  | Some r =>
      let price := getResource (marketPrices g) r * amount d in
      if tokens player >=? price then
        (alterPlayer i (λ p, addAsset r (amount d)
                               (set_tokens (tokens p - price) p)) g,
         buyText player d price)
      else (g, EmptyString)
  | None => (g, EmptyString)
  end.

(** [case "Sell"].  On an unknown key [player.assets[key]] is
    [undefined], and [undefined >= amount] is false. *)
Definition caseSell (i : nat) (player : Player) (d : ActionData) (g : Game)
    : Game * string :=
  match resourceOfKey (toLowerCase (a_resource d)) with
  | Some r =>
      let price := getResource (marketPrices g) r * amount d in
      if getResource (assets player) r >=? amount d then
        let sellPrice := sellPriceOf price in
        (alterPlayer i (λ p, addAsset r (- amount d)
                               (set_tokens (tokens p + sellPrice) p)) g,
         sellText player d sellPrice)
      else (g, EmptyString)
  | None => (g, EmptyString)
  end.

(** [case "Burn"] *)
Definition caseBurn (i : nat) (player : Player) (d : ActionData) (g : Game)
    : Game * string :=
  let key := toLowerCase (a_resource d) in
  match resourceOfKey key with
  | Some r =>
      if getResource (assets player) r >=? amount d then
        let g1 := alterPlayer i (addAsset r (- amount d)) g in
        let g2 :=
          match list_find (λ m, resource m = key) (marketChanges g1) with
          | Some (j, _) =>
              set_marketChanges
                (alter (bumpChange (amount d * 3)) j (marketChanges g1)) g1
          | None => g1
          end in
        (g2, burnText player d)
      else (g, EmptyString)
  | None => (g, EmptyString)
  end.

(** [case "Sabotage"]: the 100 tokens are taken before the target is
    looked up. *)
Definition caseSabotage (i : nat) (player : Player) (d : ActionData)
    (g : Game) : Game * string :=
  if (tokens player >=? 100) && truthy_ostring (targetPlayer d) then
    let g1 := alterPlayer i (λ p, set_tokens (tokens p - 100) p) g in
    match findPlayer (default EmptyString (targetPlayer d)) (g_players g1),
          resourceOfKey (toLowerCase (a_resource d)) with
    | Some (j, target), Some r =>
        if getResource (assets target) r >=? amount d then
          (alterPlayer j (sabotageTarget r (amount d)) g1,
           sabotageText player target d)
        else (g1, EmptyString)
    | _, _ => (g1, EmptyString)
    end
  else (g, EmptyString).

(** [switch (action)], with the [actionText] it leaves. *)
Definition actionSwitch (i : nat) (player : Player) (d : ActionData)
    (g : Game) : Game * string :=
  if String.eqb (action d) "Buy" then caseBuy i player d g
  else if String.eqb (action d) "Sell" then caseSell i player d g
  else if String.eqb (action d) "Burn" then caseBurn i player d g
  else if String.eqb (action d) "Sabotage" then caseSabotage i player d g
  else (g, EmptyString).

(** [game.recentActions.unshift(actionText)] and [slice(0, 10)], under
    [if (actionText)] *)
Definition logAction (actionText : string) (g : Game) : Game :=
  if truthy_string actionText
  then set_recentActions (take 10 (actionText :: recentActions g)) g
  else g.

(** The body of the [player-action] handler once the game is known to
    be playing. *)
Definition playerAction (playerId : string) (d : ActionData) (g : Game)
    : Game :=
  match findPlayer playerId (g_players g) with
  | None => g
  | Some (i, player) =>
      let '(g1, actionText) := actionSwitch i player d g in
      let g2 :=
        alterPlayer i (λ p, set_totalAssets (sumResources (assets p)) p) g1 in
      logAction actionText g2
  end.

(** ** Final scoring: [finishGame] *)

Definition scorePlayer (prices : Resources) (player : Player)
    : ScoredPlayer :=
  let goldValue := gold (assets player) * gold prices in
  let waterValue := water (assets player) * water prices in
  let oilValue := oil (assets player) * oil prices in
  mkScored player (tokens player + goldValue + waterValue + oilValue).

(** [finalPlayers.sort((a, b) => b.finalScore - a.finalScore)]:
    [Array.prototype.sort] is stable, and the comparator orders by
    descending [finalScore]; insertion from the right is that sort. *)
Fixpoint insertByScore (x : ScoredPlayer) (l : list ScoredPlayer)
    : list ScoredPlayer :=
  match l with
  | [] => [x]
  | y :: l' =>
      if finalScore y <=? finalScore x then x :: l
      else y :: insertByScore x l'
  end.

Definition sortByScore (l : list ScoredPlayer) : list ScoredPlayer :=
  foldr insertByScore [] l.

Definition finishGame (g : Game) : Game :=
  let finalPlayers :=
    sortByScore (map (scorePlayer (marketPrices g)) (g_players g)) in
  set_finalScores (Some finalPlayers)
    (set_winner (head finalPlayers)
       (set_timerActive false (set_status finished g))).

(** ** Round Timer: one firing of the interval of [startGameTimer] *)

(** [Math.floor(Math.random() * 40) - 20] *)
Definition randomChange (r : Q) : Z := Qfloor (r * 40) - 20.

(** The re-randomized indicators of a new round; [rnd i] is the draw
    made for the element at index [i]. *)
Definition newRoundChanges (rnd : nat → Q) (mcs : list MarketChange)
    : list MarketChange :=
  imap (λ i c, let rc := randomChange (rnd i) in
               mkMarketChange (resource c) rc (percentText rc)) mcs.

(** Normal countdown during an active round. *)
Definition countdown (g : Game) : Game :=
  let t := timeRemaining g in
  let s1 := seconds t - 1 in
  let newSeconds := if s1 <? 0 then 59 else s1 in
  let m1 := if s1 <? 0 then minutes t - 1 else minutes t in
  let newMinutes := if m1 <? 0 then 59 else m1 in
  let newHours := if m1 <? 0 then hours t - 1 else hours t in
  if newHours <? 0 then set_roundDelay (Some (mkRoundDelay true 10)) g
  else set_timeRemaining (mkTime newHours newMinutes newSeconds) g.

(** The end of the 10-second delay.  The flag tells whether [finishGame]
    ran. *)
Definition startNextRound (rnd : nat → Q) (g : Game) : Game * bool :=
  let g1 := set_roundDelay None g in
  let g2 :=
    if (0 <? length (recentActions g1))%nat
    then set_actionHistory
           (<[currentRound g1 := recentActions g1]> (actionHistory g1)) g1
    else g1 in
  let g3 := set_recentActions [] (set_currentRound (currentRound g2 + 1) g2) in
  if currentRound g3 >? maxRounds g3 then (finishGame g3, true)
  else (set_marketChanges (newRoundChanges rnd (marketChanges g3))
          (set_timeRemaining (mkTime 0 1 0) g3), false).

(** The interval callback for a game that is in the store. *)
Definition tickGame (rnd : nat → Q) (g : Game) : Game * bool :=
  if negb (timerActive g) then (g, false)
  else
    match roundDelay g with
    | Some rd =>
        if active rd then
          let left := rd_timeRemaining rd - 1 in
          if left <=? 0 then startNextRound rnd g
          else (set_roundDelay (Some (mkRoundDelay true left)) g, false)
        else (countdown g, false)
    | None => (countdown g, false)
    end.

Definition tick (rnd : nat → Q) (g : Game) : Game := fst (tickGame rnd g).

(** The callback fired once for each oracle of the list, in order. *)
Definition ticks (rnds : list (nat → Q)) (g : Game) : Game :=
  foldl (λ g rnd, tick rnd g) g rnds.

(** ** Market Simulator: the 5-second fluctuation *)

Definition fluctuate (rnd : nat → Q) (mcs : list MarketChange)
    : list MarketChange :=
  imap (λ i c,
          let fluctuation := Qfloor (rnd i * 10) - 5 in
          let newChange := Z.max (-50) (Z.min 50 (change c + fluctuation)) in
          mkMarketChange (resource c) newChange (percentText newChange)) mcs.

(** ** Host Failover Policy *)

(** [game.players.find((p) => p.id === x)?.walletAddress]; the outer
    [None] is [undefined] (nobody found), [Some None] is [null]. *)
Definition walletOf (x : option string) (ps : list Player)
    : option (option string) :=
  match x with
  | Some i => (λ ip, walletAddress (snd ip)) <$> findPlayer i ps
  | None => None
  end.

Definition isHost (playerId : string) (g : Game) : bool :=
  bool_decide (host g = Some playerId)
  || bool_decide (walletOf (Some playerId) (g_players g)
                  = walletOf (host g) (g_players g))
  || match g_players g with
     | p :: _ => bool_decide (pid p = playerId)
     | [] => false
     end.

(** The [disconnect] handler on the game of the leaving player. *)
Definition disconnectGame (playerId : string) (g : Game) : Game :=
  let g1 :=
    match findPlayer playerId (g_players g) with
    | Some (i, _) => alterPlayer i (set_connected false) g
    | None => g
    end in
  if bool_decide (host g1 = Some playerId) then
    match filter (λ p, connected p = true) (g_players g1) with
    | p :: _ => set_host (Some (pid p)) g1
    | [] => g1
    end
  else g1.

(** [removePlayerFromGame] on the game it finds. *)
Definition removePlayer (playerId : string) (g : Game) : Game :=
  set_players (filter (λ p, pid p ≠ playerId) (g_players g)) g.

(** [exit-game] up to the decision between closing and removing:
    the game with the leaver recorded in [exitedPlayers]. *)
Definition recordExit (playerId : string) (g : Game) : Game :=
  set_exitedPlayers (Some (default ∅ (exitedPlayers g) ∪ {[playerId]})) g.

Definition hasExited (g : Game) (playerId : string) : bool :=
  bool_decide (playerId ∈ default (∅ : gset string) (exitedPlayers g)).

Definition allPlayersExited (g : Game) : bool :=
  forallb (λ player, hasExited g (pid player) || negb (connected player))
          (g_players g).

(** The [exit-game] handler on the game of the leaver; [None] is the
    game closed and dropped from the store. *)
Definition exitGame (playerId : string) (g : Game) : option Game :=
  let g1 := recordExit playerId g in
  if allPlayersExited g1 then None else Some (removePlayer playerId g1).

(** ** Market prices set by the host *)

(** [data.marketPrices].  A field is a number or is missing; [None]
    stands for a missing field and for every other falsy value
    ([undefined], [null], [NaN], the empty string, [false]). *)
Record PricePayload := mkPayload {
  gold_price : option Z;
  water_price : option Z;
  oil_price : option Z
}.

(** [x || old] for a payload field [x] *)
Definition orPrice (x : option Z) (old : Z) : Z :=
  if truthy_number x then default old x else old.

Definition updateMarketPrices (mp : PricePayload) (g : Game) : Game :=
  set_marketPrices
    (mkResources (orPrice (gold_price mp) (gold (marketPrices g)))
                 (orPrice (water_price mp) (water (marketPrices g)))
                 (orPrice (oil_price mp) (oil (marketPrices g)))) g.

(** ** The persistent store: the [games] table behind [GameDatabase] *)

Inductive Visibility := public | private.

Global Instance Visibility_eq_dec : EqDecision Visibility.
Proof. solve_decision. Defined.

(** A row of [games], keyed in the table by its unique [game_id]. *)
Record DbGame := mkDbGame {
  game_name : string;
  db_status : Status;            (* column status *)
  visibility : Visibility;
  db_players : list Player;      (* column players, a JSON snapshot *)
  game_state : Game;             (* column game_state, a JSON snapshot *)
  host_player_id : string;
  current_players : nat;
  max_players : nat
}.

Module GameDatabase.

(** Every call takes a flag [ok]: whether the store answered without
    an error.  A failed call returns [null] and writes nothing. *)

(** [CHECK (status IN ('waiting', 'playing', 'finished'))] *)
Definition statusAllowed (st : Status) : bool :=
  match st with
  | closed => false
  | _ => true
  end.

Definition getGame (ok : bool) (gameId : string)
    (tbl : gmap string DbGame) : option DbGame :=
  if ok then tbl !! gameId else None.

(** [insert]: refused when [game_id] is taken ([UNIQUE]). *)
Definition createGame (ok : bool) (gameName gameId : string)
    (isPriv : bool) (ps : list Player) (gameState : Game)
    (hostPlayerId : string) (tbl : gmap string DbGame)
    : option DbGame * gmap string DbGame :=
  let row :=
    {| game_name := gameName;
       db_status := waiting;
       visibility := if isPriv then private else public;
       db_players := ps;
       game_state := gameState;
       host_player_id := hostPlayerId;
       current_players := length ps;
       max_players := 4 |} in
  match tbl !! gameId with
  | None => if ok then (Some row, <[gameId := row]> tbl) else (None, tbl)
  | Some _ => (None, tbl)
  end.

(** [okGet] is the read of the current row, [okUpdate] the write. *)
Definition addPlayerToGame (okGet okUpdate : bool) (gameId : string)
    (playerData : Player) (tbl : gmap string DbGame)
    : gmap string DbGame :=
  match getGame okGet gameId tbl with
  | None => tbl
  | Some game =>
      let updatedPlayers := db_players game ++ [playerData] in
      let currentPlayerCount := length updatedPlayers in
      if okUpdate then
        <[gameId :=
            mkDbGame (game_name game) (db_status game) (visibility game)
                     updatedPlayers (game_state game) (host_player_id game)
                     currentPlayerCount (max_players game)]> tbl
      else tbl
  end.

Definition updateGameStatus (ok : bool) (gameId : string) (st : Status)
    (tbl : gmap string DbGame) : gmap string DbGame :=
  if ok && statusAllowed st then
    alter (λ game,
             mkDbGame (game_name game) st (visibility game)
                      (db_players game) (game_state game)
                      (host_player_id game) (current_players game)
                      (max_players game)) gameId tbl
  else tbl.

(** The rows of the view [public_games]: public, waiting and below
    capacity.  A failed read yields the empty list. *)
Definition isListed (row : DbGame) : bool :=
  bool_decide (visibility row = public)
  && bool_decide (db_status row = waiting)
  && (current_players row <? max_players row)%nat.

Definition getPublicGames (ok : bool) (tbl : gmap string DbGame)
    : gmap string DbGame :=
  if ok then filter (λ kv, isListed (snd kv) = true) tbl else ∅.

(** The sweeps compare a timestamp of the row with a cutoff; [expired]
    tells, for the [game_id] of a row, whether its timestamp is older
    than the cutoff.  A sweep returns the number of rows it removed, or
    [None] for the [false] of a failed call. *)
Definition isStaleOpen (expired : string → bool) (kv : string * DbGame)
    : bool :=
  bool_decide (db_status (snd kv) = waiting)
  && bool_decide (visibility (snd kv) = public)
  && expired (fst kv).

Definition isAbandoned (expired : string → bool) (kv : string * DbGame)
    : bool :=
  bool_decide (db_status (snd kv) = waiting)
  && bool_decide (current_players (snd kv) = 1%nat)
  && expired (fst kv).

Definition isOldFinished (expired : string → bool) (kv : string * DbGame)
    : bool :=
  bool_decide (db_status (snd kv) = finished) && expired (fst kv).

(** The select-then-delete shared by [cleanupStaleOpenGames] and
    [cleanupAbandonedGames]. *)
Definition sweep (matches : string * DbGame → bool) (okSelect okDelete : bool)
    (tbl : gmap string DbGame) : option nat * gmap string DbGame :=
  if okSelect then
    let found := filter (λ kv, matches kv = true) tbl in
    if (0 <? size found)%nat then
      if okDelete
      then (Some (size found), filter (λ kv, matches kv = false) tbl)
      else (None, tbl)
    else (Some 0%nat, tbl)
  else (None, tbl).

Definition cleanupStaleOpenGames (expired : string → bool)
    (okSelect okDelete : bool) (tbl : gmap string DbGame)
    : option nat * gmap string DbGame :=
  sweep (isStaleOpen expired) okSelect okDelete tbl.

Definition cleanupAbandonedGames (expired : string → bool)
    (okSelect okDelete : bool) (tbl : gmap string DbGame)
    : option nat * gmap string DbGame :=
  sweep (isAbandoned expired) okSelect okDelete tbl.

Definition cleanupOldGames (expired : string → bool) (ok : bool)
    (tbl : gmap string DbGame) : gmap string DbGame :=
  if ok then filter (λ kv, isOldFinished expired kv = false) tbl else tbl.

End GameDatabase.

(** ** The coordinator: the process state of [server.js] *)

(** A value of the [players] map: [{ gameId, playerId, playerName }]. *)
Record PlayerInfo := mkInfo {
  gameId : string;
  playerId : string;
  playerName : string
}.

Record Server := mkServer {
  activeGameStates : gmap string Game;
  players : gmap string PlayerInfo;   (* socketId -> playerInfo *)
  games : gmap string DbGame          (* the table of the store *)
}.

Definition emptyServer : Server := mkServer ∅ ∅ ∅.

(** What a handler sends back on its own socket, in the order of the
    sends.  [EmitAfter ms e] is [e] sent from the callback of a
    [setTimeout(..., ms)] that the handler leaves behind; a session
    carried by it is written as it is when the handler returns, which
    is what the callback sends unless another event changes the session
    within the delay. *)
Inductive Emit :=
  | EmitError (message : string)
  | EmitGameCreated (gid playerId : string)
  | EmitGameJoined (gid playerId : string)
  | EmitGameState (g : Game)
  | EmitAfter (ms : Z) (e : Emit).

Definition setGame (gid : string) (g : Game) (s : Server) : Server :=
  mkServer (<[gid := g]> (activeGameStates s)) (players s) (games s).

Definition setTable (tbl : gmap string DbGame) (s : Server) : Server :=
  mkServer (activeGameStates s) (players s) tbl.

Definition bindSocket (socket : string) (info : PlayerInfo) (s : Server)
    : Server :=
  mkServer (activeGameStates s) (<[socket := info]> (players s)) (games s).

Definition unbindSocket (socket : string) (s : Server) : Server :=
  mkServer (activeGameStates s) (delete socket (players s)) (games s).

(** The session rebuilt from its row, as [join-game] and
    [get-game-state] do on a miss in memory. *)
Definition reconstruct (dbGame : DbGame) : Game :=
  set_status (db_status dbGame)
    (set_host (Some (host_player_id dbGame))
       (set_isPrivate (bool_decide (visibility dbGame = private))
          (set_gameName (Some (game_name dbGame))
             (set_players (db_players dbGame) (game_state dbGame))))).

(** [activeGameStates.get(gameId)], else the row rebuilt and installed. *)
Definition loadGame (okGet : bool) (gid : string) (s : Server)
    : option (Game * Server) :=
  match activeGameStates s !! gid with
  | Some game => Some (game, s)
  | None =>
      match GameDatabase.getGame okGet gid (games s) with
      | None => None
      | Some dbGame =>
          let game := reconstruct dbGame in Some (game, setGame gid game s)
      end
  end.

(** [walletAddress || generatePlayerId()]; [genId] is what
    [generatePlayerId] would return. *)
Definition choosePlayerId (wallet : option string) (genId : string)
    : string :=
  if truthy_ostring wallet then default genId wallet else genId.

Record CreateData := mkCreate {
  c_gameName : string;
  c_gameId : string;
  c_playerName : string;
  c_isPrivate : bool;
  c_walletAddress : option string
}.

(** [game-created] is sent at once and [game-state], with the session
    object, from a timer 200 ms later, both on the creator's socket. *)
Definition create_game (socket : string) (data : CreateData)
    (genId : string) (ok : bool) (s : Server) : Server * list Emit :=
  let playerId := choosePlayerId (c_walletAddress data) genId in
  let player :=
    createPlayer playerId (c_playerName data) socket (c_walletAddress data) in
  let gameState :=
    set_isPrivate (c_isPrivate data)
      (set_gameName (Some (c_gameName data))
         (set_host (Some playerId)
            (set_players (g_players createInitialGameState ++ [player])
               createInitialGameState))) in
  match GameDatabase.createGame ok (c_gameName data) (c_gameId data)
          (c_isPrivate data) [player] gameState playerId (games s) with
  | (None, _) => (s, [EmitError "Failed to create game"])
  | (Some _, tbl) =>
      (bindSocket socket
         (mkInfo (c_gameId data) playerId (c_playerName data))
         (setGame (c_gameId data) gameState (setTable tbl s)),
       [EmitGameCreated (c_gameId data) playerId;
        EmitAfter 200 (EmitGameState gameState)])
  end.

Record JoinData := mkJoin {
  j_gameId : string;
  j_playerName : string;
  j_walletAddress : option string
}.

(** [okLoad] answers the read on a miss in memory; [okGet] and
    [okUpdate] belong to [addPlayerToGame]. *)
Definition join_game (socket : string) (data : JoinData) (genId : string)
    (okLoad okGet okUpdate : bool) (s : Server) : Server * list Emit :=
  match loadGame okLoad (j_gameId data) s with
  | None => (s, [EmitError "Game not found"])
  | Some (game, s1) =>
      if (4 <=? length (g_players game))%nat then
        (s1, [EmitError "Game is full"])
      else if negb (bool_decide (status game = waiting)) then
        (s1, [EmitError "Game already in progress"])
      else
        let playerId := choosePlayerId (j_walletAddress data) genId in
        let player :=
          createPlayer playerId (j_playerName data) socket
                       (j_walletAddress data) in
        let game' := set_players (g_players game ++ [player]) game in
        let s2 :=
          bindSocket socket
            (mkInfo (j_gameId data) playerId (j_playerName data))
            (setGame (j_gameId data) game' s1) in
        (setTable
           (GameDatabase.addPlayerToGame okGet okUpdate (j_gameId data)
              player (games s2)) s2,
         [EmitGameJoined (j_gameId data) playerId])
  end.

(** [gid] is [None] or empty when the request names no game. *)
Definition get_game_state (gid : option string) (okLoad : bool)
    (s : Server) : Server * list Emit :=
  if negb (truthy_ostring gid) then (s, [EmitError "No game ID provided"])
  else
    match loadGame okLoad (default EmptyString gid) s with
    | None => (s, [EmitError "Game not found"])
    | Some (game, s1) => (s1, [EmitGameState game])
    end.

(** A caller bound to a game that is no longer in the store makes
    [game.host] throw, which the handler's [catch] reports. *)
Definition start_game (socket : string) (ok : bool) (s : Server)
    : Server * list Emit :=
  match players s !! socket with
  | None => (s, [])
  | Some playerInfo =>
      match activeGameStates s !! gameId playerInfo with
      | None => (s, [EmitError "Failed to start game"])
      | Some game =>
          if negb (isHost (playerId playerInfo) game) then
            (s, [EmitError "Only the host can start the game"])
          else if (length (g_players game) <? 2)%nat then
            (s, [EmitError "Need at least 2 players to start"])
          else
            let game' := set_timerActive true (set_status playing game) in
            (setTable
               (GameDatabase.updateGameStatus ok (gameId playerInfo) playing
                  (games s))
               (setGame (gameId playerInfo) game' s), [])
      end
  end.

(** [closeGame]: the session leaves the store, the row is asked to
    become [closed], and every socket bound to the game is unbound. *)
Definition closeGame (gid : string) (ok : bool) (s : Server) : Server :=
  mkServer (delete gid (activeGameStates s))
           (filter (λ kv, gameId (snd kv) ≠ gid) (players s))
           (GameDatabase.updateGameStatus ok gid closed (games s)).

Definition exit_game (socket : string) (ok : bool) (s : Server) : Server :=
  match players s !! socket with
  | None => s
  | Some playerInfo =>
      match activeGameStates s !! gameId playerInfo with
      | None => s
      | Some game =>
          let s1 :=
            match exitGame (playerId playerInfo) game with
            | None => closeGame (gameId playerInfo) ok s
            | Some game' => setGame (gameId playerInfo) game' s
            end in
          unbindSocket socket s1
      end
  end.

(** [mp] is [None] when [data.marketPrices] is missing or no object. *)
Definition update_market_prices (socket : string)
    (mp : option PricePayload) (s : Server) : Server :=
  match players s !! socket with
  | None => s
  | Some playerInfo =>
      match activeGameStates s !! gameId playerInfo with
      | None => s
      | Some game =>
          if negb (bool_decide (status game = playing)) then s
          else if negb (isHost (playerId playerInfo) game) then s
          else
            match mp with
            | Some marketPrices =>
                setGame (gameId playerInfo)
                        (updateMarketPrices marketPrices game) s
            | None => s
            end
      end
  end.

Definition player_action (socket : string) (d : ActionData) (s : Server)
    : Server :=
  match players s !! socket with
  | None => s
  | Some playerInfo =>
      match activeGameStates s !! gameId playerInfo with
      | None => s
      | Some game =>
          if negb (bool_decide (status game = playing)) then s
          else
            match findPlayer (playerId playerInfo) (g_players game) with
            | None => s
            | Some _ =>
                setGame (gameId playerInfo)
                        (playerAction (playerId playerInfo) d game) s
            end
      end
  end.

Definition disconnect (socket : string) (s : Server) : Server :=
  match players s !! socket with
  | None => s
  | Some playerInfo =>
      let s1 :=
        match activeGameStates s !! gameId playerInfo with
        | Some game =>
            setGame (gameId playerInfo)
                    (disconnectGame (playerId playerInfo) game) s
        | None => s
        end in
      unbindSocket socket s1
  end.

(** One firing of the round timer of game [gid]. *)
Definition timer_tick (gid : string) (rnd : nat → Q) (ok : bool)
    (s : Server) : Server :=
  match activeGameStates s !! gid with
  | None => s
  | Some game =>
      if negb (timerActive game) then s
      else
        let '(game', finishedNow) := tickGame rnd game in
        let s1 := setGame gid game' s in
        if finishedNow
        then setTable (GameDatabase.updateGameStatus ok gid finished (games s1)) s1
        else s1
  end.

(** One firing of the 5-second interval; [rnd gid i] is the draw for the
    indicator at index [i] of game [gid]. *)
Definition market_fluctuation (rnd : string → nat → Q) (s : Server)
    : Server :=
  mkServer
    (map_imap (λ gid game,
                 Some (if bool_decide (status game = playing)
                       then set_marketChanges
                              (fluctuate (rnd gid) (marketChanges game)) game
                       else game))
              (activeGameStates s))
    (players s) (games s).

(** What the hourly sweep is told by the store and by the clock. *)
Record SweepOracle := mkSweep {
  staleExpired : string → bool;      (* updated_at older than 30 minutes *)
  abandonedExpired : string → bool;  (* created_at older than 2 hours *)
  finishedExpired : string → bool;   (* updated_at older than 24 hours *)
  okStaleSelect : bool;
  okStaleDelete : bool;
  okAbandonedSelect : bool;
  okAbandonedDelete : bool;
  okFinishedDelete : bool;
  okListing : bool
}.

(** [count > 0], where a failed sweep returned [false]. *)
Definition removedSome (count : option nat) : bool :=
  match count with
  | Some n => (0 <? n)%nat
  | None => false
  end.

(** The hourly [performFullCleanup] and the reconciliation of the
    memory with the public listing that follows it. *)
Definition hourly_cleanup (o : SweepOracle) (s : Server) : Server :=
  let '(staleGamesRemoved, tbl1) :=
    GameDatabase.cleanupStaleOpenGames (staleExpired o) (okStaleSelect o)
      (okStaleDelete o) (games s) in
  let '(abandonedGamesRemoved, tbl2) :=
    GameDatabase.cleanupAbandonedGames (abandonedExpired o)
      (okAbandonedSelect o) (okAbandonedDelete o) tbl1 in
  let tbl3 :=
    GameDatabase.cleanupOldGames (finishedExpired o) (okFinishedDelete o)
      tbl2 in
  if removedSome staleGamesRemoved || removedSome abandonedGamesRemoved then
    let activeDbGames := GameDatabase.getPublicGames (okListing o) tbl3 in
    mkServer (filter (λ kv, is_Some (activeDbGames !! fst kv))
                     (activeGameStates s))
             (players s) tbl3
  else mkServer (activeGameStates s) (players s) tbl3.

(** The process started anew: the memory is empty, the table is what
    it was, and the finished games older than the startup cutoff are
    removed. *)
Definition restart (expired : string → bool) (ok : bool) (s : Server)
    : Server :=
  mkServer ∅ ∅ (GameDatabase.cleanupOldGames expired ok (games s)).

(** ** Events and reachable states *)

Inductive Event :=
  | EvCreateGame (socket : string) (data : CreateData) (genId : string)
                 (ok : bool)
  | EvJoinGame (socket : string) (data : JoinData) (genId : string)
               (okLoad okGet okUpdate : bool)
  | EvGetGameState (gid : option string) (okLoad : bool)
  | EvStartGame (socket : string) (ok : bool)
  | EvExitGame (socket : string) (ok : bool)
  | EvUpdateMarketPrices (socket : string) (mp : option PricePayload)
  | EvPlayerAction (socket : string) (d : ActionData)
  | EvDisconnect (socket : string)
  | EvTimerTick (gid : string) (rnd : nat → Q) (ok : bool)
  | EvMarketFluctuation (rnd : string → nat → Q)
  | EvInactivity (gid : string) (ok : bool)
  | EvCleanup (o : SweepOracle)
  | EvRestart (expired : string → bool) (ok : bool).

Definition step (s : Server) (e : Event) : Server :=
  match e with
  | EvCreateGame socket data genId ok =>
      fst (create_game socket data genId ok s)
  | EvJoinGame socket data genId okLoad okGet okUpdate =>
      fst (join_game socket data genId okLoad okGet okUpdate s)
  | EvGetGameState gid okLoad => fst (get_game_state gid okLoad s)
  | EvStartGame socket ok => fst (start_game socket ok s)
  | EvExitGame socket ok => exit_game socket ok s
  | EvUpdateMarketPrices socket mp => update_market_prices socket mp s
  | EvPlayerAction socket d => player_action socket d s
  | EvDisconnect socket => disconnect socket s
  | EvTimerTick gid rnd ok => timer_tick gid rnd ok s
  | EvMarketFluctuation rnd => market_fluctuation rnd s
  | EvInactivity gid ok => closeGame gid ok s
  | EvCleanup o => hourly_cleanup o s
  | EvRestart expired ok => restart expired ok s
  end.

Definition run (es : list Event) (s : Server) : Server := foldl step s es.

(** The states the coordinator can be in: those the events lead to from
    the empty store. *)
Inductive reachable : Server → Prop :=
  | reachable_init : reachable emptyServer
  | reachable_step s e : reachable s → reachable (step s e).

(** ** Notions used in the statements *)

(** The acting player after a [Buy] that goes through. *)
Definition bought (r : Resource) (amt price : Z) (p : Player) : Player :=
  let q := addAsset r amt (set_tokens (tokens p - price) p) in
  set_totalAssets (sumResources (assets q)) q.

(** The acting player after a [Sell] that goes through. *)
Definition sold (r : Resource) (amt sellPrice : Z) (p : Player) : Player :=
  let q := addAsset r (- amt) (set_tokens (tokens p + sellPrice) p) in
  set_totalAssets (sumResources (assets q)) q.

(** The final score as the specification words it:
    [tokens + gold * price + water * price + oil * price]. *)
Definition scoreOf (prices : Resources) (p : Player) : Z :=
  tokens p + gold (assets p) * gold prices
  + water (assets p) * water prices + oil (assets p) * oil prices.

(** Descending order of [finalScore]. *)
Definition byScoreDesc (a b : ScoredPlayer) : Prop :=
  finalScore b ≤ finalScore a.

(** A draw of [Math.random()]. *)
Definition unitDraw (r : Q) : Prop := (0 <= r)%Q ∧ (r < 1)%Q.

(** The draw [(k + 20) / 40], which yields the outcome [k]. *)
Definition drawFor (k : Z) : Q := Qmake (k + 20) 40.

(** The handler answered with a single [error] event. *)
Definition isError (out : list Emit) : Prop :=
  ∃ message, out = [EmitError message].

(** [totalAssets] is the sum of the three asset quantities. *)
Definition playerOk (p : Player) : Prop :=
  totalAssets p = sumResources (assets p).

Definition gameOk (g : Game) : Prop := Forall playerOk (g_players g).

(** A row whose [current_players] counts its own [players] snapshot. *)
Definition rowOk (row : DbGame) : Prop :=
  current_players row = length (db_players row)
  ∧ Forall playerOk (db_players row).

Definition serverOk (s : Server) : Prop :=
  map_Forall (λ _ g, gameOk g) (activeGameStates s)
  ∧ map_Forall (λ _ row, rowOk row) (games s).

(** All players but the one at index [i] have [totalAssets] up to
    date. *)
Definition okExcept (i : nat) (ps : list Player) : Prop :=
  ∀ k p, ps !! k = Some p → k ≠ i → playerOk p.

(** The host of the session [gid], when the session is in the store. *)
Definition hostOf (gid : string) (s : Server) : option string :=
  activeGameStates s !! gid ≫= host.

(** [host] is the id of a member of [players] who has not exited. *)
Definition hostResolves (g : Game) : Prop :=
  ∃ p, p ∈ g_players g ∧ host g = Some (pid p)
       ∧ hasExited g (pid p) = false.

(** Every event but a [join-game] whose store does not take the new
    player: one whose read or write in [addPlayerToGame] fails. *)
Definition joinStored (e : Event) : bool :=
  match e with
  | EvJoinGame _ _ _ _ okGet okUpdate => okGet && okUpdate
  | _ => true
  end.

Definition isExit (e : Event) : bool :=
  match e with
  | EvExitGame _ _ => true
  | _ => false
  end.

(** For every game that has both a session in memory and a row, the
    number of players of the session and [current_players] of the row
    are related by [rel]. *)
Definition countsRelated (rel : nat → nat → Prop) (s : Server) : Prop :=
  ∀ gid g row,
    activeGameStates s !! gid = Some g →
    games s !! gid = Some row →
    rel (length (g_players g)) (current_players row).

(** ** A session used in the examples

    Alice creates the public game [G1] from her wallet, Bob and Carol
    join from theirs, and the store answers every call. *)

Definition aliceCreates : Event :=
  EvCreateGame "socketA"
    (mkCreate "Trading floor" "G1" "Alice" false (Some "walletA"%string))
    "player_a" true.

Definition bobJoins : Event :=
  EvJoinGame "socketB" (mkJoin "G1" "Bob" (Some "walletB"%string))
    "player_b" true true true.

Definition carolJoins : Event :=
  EvJoinGame "socketC" (mkJoin "G1" "Carol" (Some "walletC"%string))
    "player_c" true true true.

Definition hostStarts : Event := EvStartGame "socketA" true.

(** Alice and Bob in a game that Alice has started. *)
Definition startedServer : Server :=
  run [aliceCreates; bobJoins; hostStarts] emptyServer.

Definition alice : Player :=
  createPlayer "walletA" "Alice" "socketA" (Some "walletA"%string).

Definition bob : Player :=
  createPlayer "walletB" "Bob" "socketB" (Some "walletB"%string).

(** The session [G1] of [startedServer]. *)
Definition startedGame : Game :=
  set_timerActive true
    (set_status playing
       (set_isPrivate false
          (set_gameName (Some "Trading floor"%string)
             (set_host (Some "walletA"%string)
                (set_players [alice; bob] createInitialGameState))))).

(** An oracle whose every draw is [1/2]. *)
Definition halves : nat → Q := λ _, Qmake 1 2.

(** A game about to be scored in which Alice and Bob tie at 1000 and
    Carol, who joined last, holds 900. *)
Definition tiedGame : Game :=
  set_players
    [alice; bob;
     set_tokens 900
       (createPlayer "walletC" "Carol" "socketC" (Some "walletC"%string))]
    startedGame.

(** Alice alone in the game she created, before anyone joins. *)
Definition waitingGame : Game :=
  set_isPrivate false
    (set_gameName (Some "Trading floor"%string)
       (set_host (Some "walletA"%string)
          (set_players [alice] createInitialGameState))).

(** [startedGame] in the last second of a round delay. *)
Definition endOfDelay : Game :=
  set_roundDelay (Some (mkRoundDelay true 1)) startedGame.

Definition buyGold : ActionData := mkAction "Buy" "Gold" 2 None.

Definition sellGold : ActionData := mkAction "Sell" "Gold" 2 None.

(** Alice sabotages one unit of Bob's gold, of which he has none. *)
Definition sabotageBob : ActionData :=
  mkAction "Sabotage" "gold" 1 (Some "walletB"%string).

(** The host sets the price of gold. *)
Definition goldPriced (price : Z) : Event :=
  EvUpdateMarketPrices "socketA" (Some (mkPayload (Some price) None None)).

Definition buyOneGold : ActionData := mkAction "Buy" "gold" 1 None.

Definition sellOneGold : ActionData := mkAction "Sell" "gold" 1 None.

(** Alice made rich in the started game: she buys one unit of gold at
    100 and sells it once the host has priced gold at [4 * 10^15];
    the host then prices gold at 1700000000000001. *)
Definition richServer : Server :=
  run [EvPlayerAction "socketA" buyOneGold;
       goldPriced 4000000000000000;
       EvPlayerAction "socketA" sellOneGold;
       goldPriced 1700000000000001]
      startedServer.

(** ** The public listing: the [get-public-games] handler *)

(** An entry of [public-games-list]; [createdAt] is left out. *)
Record PublicGame := mkPublicGame {
  pg_id : string;
  pg_name : string;
  pg_status : string;
  pg_currentPlayers : nat;
  pg_maxPlayers : nat;
  pg_hostName : string
}.

(** The column [host_name] of the view:
    [(players->0->>'name')::text]. *)
Definition host_name (row : DbGame) : option string :=
  pname <$> head (db_players row).

Definition formatGame (kv : string * DbGame) : PublicGame :=
  let game := snd kv in
  {| pg_id := fst kv;
     pg_name := game_name game;
     pg_status :=
       if (max_players game <=? current_players game)%nat
       then "Full" else "Open";
     pg_currentPlayers := current_players game;
     pg_maxPlayers := max_players game;
     pg_hostName :=
       if truthy_ostring (host_name game)
       then default "Unknown"%string (host_name game) else "Unknown" |}.

(** The list sent back by [get-public-games].  The view orders its rows
    by [created_at], which the table of the embedding does not carry:
    the entries come in the order of the map. *)
Definition get_public_games (ok : bool) (s : Server) : list PublicGame :=
  formatGame <$> map_to_list (GameDatabase.getPublicGames ok (games s)).

(** ** What [create-game] builds and what the store writes *)

Definition createdPlayer (socket : string) (data : CreateData)
    (genId : string) : Player :=
  createPlayer (choosePlayerId (c_walletAddress data) genId)
               (c_playerName data) socket (c_walletAddress data).

(** The [gameState] of [create-game] once the creator is pushed and the
    host, name and visibility are set. *)
Definition createdState (socket : string) (data : CreateData)
    (genId : string) : Game :=
  set_isPrivate (c_isPrivate data)
    (set_gameName (Some (c_gameName data))
       (set_host (Some (choosePlayerId (c_walletAddress data) genId))
          (set_players
             (g_players createInitialGameState
                ++ [createdPlayer socket data genId])
             createInitialGameState))).

(** The row that [GameDatabase.createGame] inserts for it. *)
Definition createdRow (socket : string) (data : CreateData)
    (genId : string) : DbGame :=
  {| game_name := c_gameName data;
     db_status := waiting;
     visibility := if c_isPrivate data then private else public;
     db_players := [createdPlayer socket data genId];
     game_state := createdState socket data genId;
     host_player_id := choosePlayerId (c_walletAddress data) genId;
     current_players := length [createdPlayer socket data genId];
     max_players := 4 |}.

(** The row after the update of [addPlayerToGame]. *)
Definition withPlayer (playerData : Player) (game : DbGame) : DbGame :=
  mkDbGame (game_name game) (db_status game) (visibility game)
           (db_players game ++ [playerData]) (game_state game)
           (host_player_id game) (length (db_players game ++ [playerData]))
           (max_players game).

(** The row after the update of [updateGameStatus]. *)
Definition withStatus (st : Status) (game : DbGame) : DbGame :=
  mkDbGame (game_name game) st (visibility game) (db_players game)
           (game_state game) (host_player_id game) (current_players game)
           (max_players game).

(** ** Invariants in general *)

(** Every session in memory satisfies [P], every row of the store
    [R]. *)
Definition serverInv (P : Game → Prop) (R : DbGame → Prop) (s : Server)
    : Prop :=
  map_Forall (λ _ g, P g) (activeGameStates s)
  ∧ map_Forall (λ _ row, R row) (games s).

(** [P] and [R] hold of what is created and are kept by every write of
    the coordinator. *)
Record Preserved (P : Game → Prop) (R : DbGame → Prop) : Prop := {
  pres_created : ∀ socket data genId,
    P (createdState socket data genId) ∧ R (createdRow socket data genId);
  pres_rebuilt : ∀ row, R row → P (reconstruct row);
  pres_row_player : ∀ row a b c d,
    R row → R (withPlayer (createPlayer a b c d) row);
  pres_row_status : ∀ row st, R row → R (withStatus st row);
  pres_joined : ∀ g a b c d,
    P g → P (set_players (g_players g ++ [createPlayer a b c d]) g);
  pres_started : ∀ g, P g → P (set_timerActive true (set_status playing g));
  pres_exited : ∀ g playerId g', P g → exitGame playerId g = Some g' → P g';
  pres_priced : ∀ g mp, P g → P (updateMarketPrices mp g);
  pres_acted : ∀ g playerId d, P g → P (playerAction playerId d g);
  pres_disconnected : ∀ g playerId, P g → P (disconnectGame playerId g);
  pres_ticked : ∀ g rnd, P g → P (fst (tickGame rnd g));
  pres_fluctuated : ∀ g rnd,
    P g → P (set_marketChanges (fluctuate rnd (marketChanges g)) g)
}.

(** ** Particular invariants *)

(** The log holds at most 10 entries; every archived log is non-empty,
    holds at most 10 entries and belongs to a round already over. *)
Definition logBounded (g : Game) : Prop :=
  (length (recentActions g) ≤ 10)%nat
  ∧ map_Forall (λ k l, k < currentRound g ∧ l ≠ [] ∧ (length l ≤ 10)%nat)
               (actionHistory g).

(** No market price is 0. *)
Definition pricesNonzero (g : Game) : Prop :=
  gold (marketPrices g) ≠ 0 ∧ water (marketPrices g) ≠ 0
  ∧ oil (marketPrices g) ≠ 0.

(** The change indicators are those of gold, water and oil, in that
    order. *)
Definition indicatorsFixed (g : Game) : Prop :=
  resource <$> marketChanges g = ["gold"; "water"; "oil"]%string.

(** The state a session has when it is created by [host]: everything
    is as in the template but the players, the host, the name and the
    visibility. *)
Definition freshState (host : Player) (name : string) (priv : bool) : Game :=
  set_isPrivate priv
    (set_gameName (Some name)
       (set_host (Some (pid host))
          (set_players [host] createInitialGameState))).

(** A row whose [game_state] is still the snapshot taken at creation,
    and whose first persisted player is the host. *)
Definition creationSnapshot (row : DbGame) : Prop :=
  ∃ host rest,
    db_players row = host :: rest
    ∧ host_player_id row = pid host
    ∧ game_state row
      = freshState host (game_name row)
                   (bool_decide (visibility row = private)).

(** A player who owes nothing: tokens and asset quantities are not
    negative. *)
Definition nonNegative (p : Player) : Prop :=
  0 ≤ tokens p ∧ 0 ≤ gold (assets p) ∧ 0 ≤ water (assets p)
  ∧ 0 ≤ oil (assets p).

(** The same action with the resource spelled in lower case. *)
Definition lowerResource (d : ActionData) : ActionData :=
  mkAction (action d) (toLowerCase (a_resource d)) (amount d)
           (targetPlayer d).

Global Instance Resource_eq_dec : EqDecision Resource.
Proof. solve_decision. Defined.

(** A running session at the start of a round: a full minute on the
    clock and no delay pending. *)
Definition atRoundStart (g : Game) : Prop :=
  timerActive g = true ∧ roundDelay g = None
  ∧ timeRemaining g = mkTime 0 1 0.

(** ** More sessions used in the examples *)

(** The row of [G1] once Bob has joined and Alice has started. *)
Definition startedRow : DbGame :=
  withStatus playing
    (withPlayer bob
       (createdRow "socketA"
          (mkCreate "Trading floor" "G1" "Alice" false
                    (Some "walletA"%string)) "player_a")).

(** [startedGame] after Alice has bought two units of gold. *)
Definition aliceHolds : Game := playerAction "walletA" buyGold startedGame.

Definition burnGold : ActionData := mkAction "Burn" "GOLD" 1 None.

(** Bob sabotages one unit of the gold of Alice. *)
Definition sabotageAlice : ActionData :=
  mkAction "Sabotage" "gold" 1 (Some "walletA"%string).

Definition buyMinusThree : ActionData := mkAction "Buy" "gold" (-3) None.

(** [startedGame] in round 2, with one action archived for round 1. *)
Definition archivedGame : Game :=
  set_actionHistory {[ 1 := ["Alice bought 2 Gold for 200 tokens"%string] ]}
    (set_currentRound 2 startedGame).

(** Ann creates [G2] and Ben joins it, neither with a wallet. *)
Definition annCreates : Event :=
  EvCreateGame "socketAnn" (mkCreate "Back room" "G2" "Ann" false None)
    "player_ann" true.

Definition benJoins : Event :=
  EvJoinGame "socketBen" (mkJoin "G2" "Ben" None) "player_ben"
    true true true.

Definition walletlessServer : Server := run [annCreates; benJoins] emptyServer.

Definition ann : Player := createPlayer "player_ann" "Ann" "socketAnn" None.

Definition ben : Player := createPlayer "player_ben" "Ben" "socketBen" None.

(** The session [G2] of [walletlessServer]. *)
Definition walletlessGame : Game :=
  set_isPrivate false
    (set_gameName (Some "Back room"%string)
       (set_host (Some "player_ann"%string)
          (set_players [ann; ben] createInitialGameState))).

(** The ranking of [tiedGame]. *)
Definition tiedRanking : list ScoredPlayer :=
  [ mkScored alice 1000; mkScored bob 1000;
    mkScored (set_tokens 900
                (createPlayer "walletC" "Carol" "socketC"
                              (Some "walletC"%string))) 900 ].

(** A sweep in which every read and write succeeds and every timestamp
    is older than its cutoff. *)
Definition sweepAll : SweepOracle :=
  mkSweep (λ _, true) (λ _, true) (λ _, true) true true true true true true.

(** Alice and Bob playing [G1], and Ann waiting alone in her public
    game [G2]. *)
Definition twoGamesServer : Server :=
  run [aliceCreates; bobJoins; hostStarts; annCreates] emptyServer.

(** The player at index [k] stands behind an earlier player with the
    same id. *)
Definition shadowed (k : nat) (ps : list Player) : Prop :=
  ∃ k' p' p, (k' < k)%nat ∧ ps !! k' = Some p' ∧ ps !! k = Some p
             ∧ pid p' = pid p.

(** Bob joins a second time, from another socket, under the same
    wallet. *)
Definition bobJoinsAgain : Event :=
  EvJoinGame "socketB2" (mkJoin "G1" "Bob" (Some "walletB"%string))
    "player_b2" true true true.

(** The session [G1] with Alice and twice Bob, playing. *)
Definition doubledGame : Game :=
  set_players
    [alice; bob;
     createPlayer "walletB" "Bob" "socketB2" (Some "walletB"%string)]
    startedGame.

(** * Properties *)

(** ** Looking players up and writing to them *)

Lemma findPlayer_Some (playerId : string) (ps : list Player) i p :
  findPlayer playerId ps = Some (i, p) →
  ps !! i = Some p ∧ pid p = playerId.
Proof.
  unfold findPlayer. intros H. apply list_find_Some in H. tauto.
Qed.

Lemma findPlayer_alter (f : Player → Player) (playerId : string)
    (ps : list Player) i p :
  (∀ q, pid (f q) = pid q) →
  findPlayer playerId ps = Some (i, p) →
  findPlayer playerId (alter f i ps) = Some (i, f p).
Proof.
  unfold findPlayer. intros Hid H.
  apply list_find_Some in H as (Hi & Hp & Hbefore).
  apply list_find_Some. split; [|split].
  - by rewrite list_lookup_alter_eq, Hi.
  - by rewrite Hid.
  - intros j y Hj Hlt. rewrite list_lookup_alter_ne in Hj by lia. eauto.
Qed.

Lemma truthy_string_app_r (s t : string) :
  truthy_string t = true → truthy_string (s ++ t) = true.
Proof. destruct s; [done|]. intros _. reflexivity. Qed.

Lemma truthy_buyText player d price : truthy_string (buyText player d price) = true.
Proof. unfold buyText. apply truthy_string_app_r. reflexivity. Qed.

Lemma truthy_sellText player d price : truthy_string (sellText player d price) = true.
Proof. unfold sellText. by apply truthy_string_app_r. Qed.

Lemma truthy_burnText player d : truthy_string (burnText player d) = true.
Proof. unfold burnText. by apply truthy_string_app_r. Qed.

Lemma truthy_sabotageText player target d :
  truthy_string (sabotageText player target d) = true.
Proof. unfold sabotageText. by apply truthy_string_app_r. Qed.

(** ** Successful trades *)

Lemma playerAction_Buy g playerId d i player r :
  findPlayer playerId (g_players g) = Some (i, player) →
  action d = "Buy"%string →
  resourceOfKey (toLowerCase (a_resource d)) = Some r →
  getResource (marketPrices g) r * amount d ≤ tokens player →
  playerAction playerId d g
  = logAction (buyText player d (getResource (marketPrices g) r * amount d))
      (alterPlayer i (bought r (amount d)
                        (getResource (marketPrices g) r * amount d)) g).
Proof.
  intros Hfind Hact Hr Hle. unfold playerAction, actionSwitch, caseBuy.
  rewrite Hfind, Hact, Hr. simpl String.eqb. cbv iota.
  apply Z.geb_le in Hle. rewrite Hle.
  unfold alterPlayer at 1. simpl g_players.
  rewrite list_alter_alter_eq. reflexivity.
Qed.

Lemma playerAction_Sell g playerId d i player r :
  findPlayer playerId (g_players g) = Some (i, player) →
  action d = "Sell"%string →
  resourceOfKey (toLowerCase (a_resource d)) = Some r →
  amount d ≤ getResource (assets player) r →
  playerAction playerId d g
  = logAction
      (sellText player d
         (sellPriceOf (getResource (marketPrices g) r * amount d)))
      (alterPlayer i
         (sold r (amount d)
            (sellPriceOf (getResource (marketPrices g) r * amount d))) g).
Proof.
  intros Hfind Hact Hr Hle. unfold playerAction, actionSwitch, caseSell.
  rewrite Hfind, Hact, Hr. simpl String.eqb. cbv iota.
  apply Z.geb_le in Hle. rewrite Hle.
  unfold alterPlayer at 1. simpl g_players.
  rewrite list_alter_alter_eq. reflexivity.
Qed.

Lemma g_players_logAction text g : g_players (logAction text g) = g_players g.
Proof. unfold logAction. by destruct (truthy_string text). Qed.

Lemma marketPrices_logAction text g :
  marketPrices (logAction text g) = marketPrices g.
Proof. unfold logAction. by destruct (truthy_string text). Qed.

(** ** The product by [0.8] *)

(** What rounding to 53 bits does to [n]: with [k] the number of bits
    dropped, the result is a multiple of [2^k] no smaller than [n]
    rounded down and at most half a unit of [2^k] away from [n]. *)
Lemma roundTo53_spec (n : Z) :
  0 ≤ n →
  let k := Z.max 0 (Z.log2 n - 52) in
  2 ^ k * 2 ^ 52 ≤ Z.max n (2 ^ 52)
  ∧ (n / 2 ^ k) * 2 ^ k ≤ roundTo53 n
  ∧ 2 * roundTo53 n ≤ 2 * n + 2 ^ k
  ∧ (k = 0 → roundTo53 n = n).
Proof.
  intros Hn k.
  assert (Hk0 : 0 ≤ k) by (unfold k; lia).
  assert (Hpos : 0 < 2 ^ k) by (apply Z.pow_pos_nonneg; lia).
  split.
  { destruct (Z.eq_dec k 0) as [->|Hk].
    - simpl. lia.
    - assert (k = Z.log2 n - 52) as Hkk by (unfold k in *; lia).
      assert (0 < n).
      { destruct (Z.eq_dec n 0) as [->|]; [|lia]. simpl in Hkk. lia. }
      pose proof (Z.log2_spec n ltac:(lia)) as [Hlo _].
      replace (Z.log2 n) with (k + 52) in Hlo by lia.
      rewrite Z.pow_add_r in Hlo by lia. lia. }
  unfold roundTo53. fold k.
  pose proof (Z.div_mod n (2 ^ k) ltac:(lia)) as Hdm.
  pose proof (Z.mod_pos_bound n (2 ^ k) Hpos) as Hr.
  set (q := n / 2 ^ k) in *. set (r := n mod 2 ^ k) in *.
  assert (Hq : n = q * 2 ^ k + r) by lia.
  split; [|split].
  - destruct ((2 ^ k <? 2 * r) || ((2 * r =? 2 ^ k) && Z.odd q)); nia.
  - destruct (2 ^ k <? 2 * r) eqn:E1; simpl.
    + apply Z.ltb_lt in E1. nia.
    + destruct (2 * r =? 2 ^ k) eqn:E2; simpl.
      * apply Z.eqb_eq in E2. destruct (Z.odd q); nia.
      * nia.
  - intros Hk. rewrite Hk in *. simpl in *.
    assert (r = 0) as Hr0 by lia. rewrite Hr0 in *.
    simpl. lia.
Qed.

Lemma times_0_8_bounds (price : Z) :
  1 ≤ price →
  2 ^ 53 * times_0_8 price ≤ (2 ^ 53 + 1) * (price * literal_0_8)
  ∧ (price ≤ MAX_SAFE_INTEGER → (4 * price) / 5 * 2 ^ 53 ≤ times_0_8 price).
Proof.
  intros Hp. unfold times_0_8.
  rewrite Z.sgn_pos, Z.abs_eq, Z.mul_1_l by lia.
  set (n := price * literal_0_8).
  assert (Hn : 2 ^ 52 < n) by (unfold n, literal_0_8; lia).
  destruct (roundTo53_spec n ltac:(lia)) as (Hk & Hlow & Hup & _).
  set (k := Z.max 0 (Z.log2 n - 52)) in *.
  assert (Hk0 : 0 ≤ k) by (unfold k; lia).
  assert (Hpos : 0 < 2 ^ k) by (apply Z.pow_pos_nonneg; lia).
  rewrite Z.max_l in Hk by lia.
  split.
  - change (2 ^ 53) with (2 * 2 ^ 52) at 1. change (2 ^ 52) with 4503599627370496 in *.
    change (2 ^ 53) with 9007199254740992. lia.
  - intros Hsafe.
    assert (Hk53 : k ≤ 53).
    { assert (Z.log2 n < 106); [|unfold k; lia].
      apply Z.log2_lt_pow2; [lia|].
      unfold n, literal_0_8, MAX_SAFE_INTEGER in *. lia. }
    pose proof (Z.div_mod (4 * price) 5 ltac:(lia)) as Hdm.
    pose proof (Z.mod_pos_bound (4 * price) 5 ltac:(lia)) as Hr.
    set (F := 4 * price / 5) in *.
    assert (HF : F * 2 ^ 53 ≤ n).
    { unfold n, literal_0_8. change (2 ^ 53) with 9007199254740992. lia. }
    etransitivity; [|exact Hlow].
    replace (2 ^ 53) with (2 ^ (53 - k) * 2 ^ k) in *
      by (rewrite <- Z.pow_add_r by lia; f_equal; lia).
    rewrite Z.mul_assoc. apply Z.mul_le_mono_nonneg_r; [lia|].
    apply Z.div_le_lower_bound; [lia|]. lia.
Qed.

Lemma sellPriceOf_lt (price : Z) : 1 ≤ price → sellPriceOf price < price.
Proof.
  intros H. unfold sellPriceOf.
  destruct (times_0_8_bounds price H) as [Hup _].
  apply Z.div_lt_upper_bound; [done|].
  unfold literal_0_8 in Hup. change (2 ^ 53) with 9007199254740992 in *. lia.
Qed.

Lemma sellPriceOf_near (price : Z) :
  0 ≤ price ≤ MAX_SAFE_INTEGER →
  (4 * price) / 5 ≤ sellPriceOf price ≤ (4 * price) / 5 + 1.
Proof.
  intros [H0 Hsafe].
  destruct (Z.eq_dec price 0) as [->|Hne]; [by vm_compute|].
  destruct (times_0_8_bounds price ltac:(lia)) as [Hup Hlow].
  specialize (Hlow Hsafe). unfold sellPriceOf.
  pose proof (Z.div_mod (4 * price) 5 ltac:(lia)) as Hdm.
  pose proof (Z.mod_pos_bound (4 * price) 5 ltac:(lia)) as Hr.
  set (F := 4 * price / 5) in *.
  split.
  - apply Z.div_le_lower_bound; [done|]. lia.
  - apply Z.lt_succ_r. apply Z.div_lt_upper_bound; [done|].
    unfold literal_0_8, MAX_SAFE_INTEGER in *.
    change (2 ^ 53) with 9007199254740992 in *. lia.
Qed.

Lemma sellPriceOf_exact (price : Z) :
  0 ≤ price < 2 ^ 50 → sellPriceOf price = (4 * price) / 5.
Proof.
  intros [H0 Hsmall].
  destruct (Z.eq_dec price 0) as [->|Hne]; [by vm_compute|].
  destruct (times_0_8_bounds price ltac:(lia)) as [Hup Hlow].
  assert (Hsafe : price ≤ MAX_SAFE_INTEGER).
  { unfold MAX_SAFE_INTEGER. change (2 ^ 50) with 1125899906842624 in *. lia. }
  specialize (Hlow Hsafe). unfold sellPriceOf.
  pose proof (Z.div_mod (4 * price) 5 ltac:(lia)) as Hdm.
  pose proof (Z.mod_pos_bound (4 * price) 5 ltac:(lia)) as Hr.
  set (F := 4 * price / 5) in *.
  apply Z.le_antisymm.
  - apply Z.lt_succ_r. apply Z.div_lt_upper_bound; [done|].
    unfold literal_0_8 in *.
    change (2 ^ 53) with 9007199254740992 in *.
    change (2 ^ 50) with 1125899906842624 in *. lia.
  - apply Z.div_le_lower_bound; [done|]. lia.
Qed.

(** C7, as amended.  For every player whose balance and whose holding
    of the resource, the bought amount included, are safe integers,
    every market price of at least 1 and every amount of at least 1: a
    Buy that goes through followed by a Sell of the same amount of the
    same resource, at the same price, that goes through leaves the
    player with [tokens - cost + credit] tokens, where [credit] is
    [Math.floor] of the binary64 product [cost * 0.8].  The credit is
    [floor(0.8 * cost)] or one more, it is [floor(0.8 * cost)] when
    [cost] is below [2^50], and it is below [cost]: the balance ends at
    most at, and in fact strictly below, the balance before the Buy.
    The assets are back where they were and both actions are in the
    log. *)
Theorem buy_then_sell_loses_tokens g playerId i player buy sell r :
  findPlayer playerId (g_players g) = Some (i, player) →
  action buy = "Buy"%string →
  action sell = "Sell"%string →
  resourceOfKey (toLowerCase (a_resource buy)) = Some r →
  resourceOfKey (toLowerCase (a_resource sell)) = Some r →
  amount sell = amount buy →
  1 ≤ getResource (marketPrices g) r →
  1 ≤ amount buy →
  tokens player ≤ MAX_SAFE_INTEGER →
  getResource (assets player) r + amount buy ≤ MAX_SAFE_INTEGER →
  (* the Buy goes through *)
  getResource (marketPrices g) r * amount buy ≤ tokens player →
  (* the Sell goes through: after the Buy the player holds [amount] *)
  amount sell ≤ getResource (assets player) r + amount buy →
  let cost := getResource (marketPrices g) r * amount buy in
  let credit := sellPriceOf cost in
  let g2 := playerAction playerId sell (playerAction playerId buy g) in
  ∃ player2,
    findPlayer playerId (g_players g2) = Some (i, player2)
    ∧ tokens player2 = tokens player - cost + credit
    ∧ (4 * cost) / 5 ≤ credit ≤ (4 * cost) / 5 + 1
    ∧ (cost < 2 ^ 50 → credit = (4 * cost) / 5)
    ∧ credit < cost
    ∧ tokens player2 ≤ tokens player
    ∧ tokens player2 < tokens player
    ∧ assets player2 = assets player
    ∧ recentActions g2
      = take 10 (sellText player sell credit
                   :: take 10 (buyText player buy cost :: recentActions g)).
Proof.
  intros Hfind Hbuy Hsell Hr Hres Hamt Hp Ha Hsafe Hsafe' Hcan Hheld
    cost credit g2.
  assert (Hcost : 1 ≤ cost) by (unfold cost; nia).
  pose proof (sellPriceOf_lt cost Hcost) as Hlt.
  pose proof (sellPriceOf_near cost ltac:(fold cost in Hcan; lia)) as Hnear.
  fold credit in Hlt, Hnear.
  subst g2. rewrite (playerAction_Buy g playerId buy i player r) by done.
  fold cost.
  set (g1 := logAction _ _).
  assert (Hfind1 : findPlayer playerId (g_players g1)
                   = Some (i, bought r (amount buy) cost player)).
  { unfold g1. rewrite g_players_logAction. simpl.
    apply findPlayer_alter; [by intros []|done]. }
  assert (Hprices : marketPrices g1 = marketPrices g).
  { unfold g1. by rewrite marketPrices_logAction. }
  rewrite (playerAction_Sell g1 playerId sell i _ r Hfind1 Hsell).
  2: done.
  2: { simpl. destruct r, player as [? ? ? ? ? []]; simpl in *; lia. }
  rewrite Hprices, Hamt. fold cost. fold credit.
  eexists. split.
  { rewrite g_players_logAction. simpl.
    apply findPlayer_alter; [by intros []|exact Hfind1]. }
  split; [|split; [|split; [|split; [|split; [|split; [|split]]]]]].
  - simpl. lia.
  - exact Hnear.
  - intros Hsmall. apply sellPriceOf_exact. lia.
  - exact Hlt.
  - simpl. lia.
  - simpl. lia.
  - destruct r, player as [? ? ? ? ? []]; simpl; f_equal; lia.
  - unfold logAction at 1. rewrite truthy_sellText.
    simpl recentActions. unfold g1, logAction. rewrite truthy_buyText.
    reflexivity.
Qed.

(** ** Actions whose precondition is unmet *)

Lemma alterPlayer_id (f : Player → Player) i g :
  (∀ p, g_players g !! i = Some p → f p = p) →
  alterPlayer i f g = g.
Proof.
  intros Hf. unfold alterPlayer.
  assert (alter f i (g_players g) = g_players g) as ->.
  { apply list_eq. intros j. rewrite list_lookup_alter.
    destruct (decide (i = j)) as [->|]; [|done].
    destruct (g_players g !! j) as [p|] eqn:E; [|done].
    simpl. by rewrite Hf. }
  by destruct g.
Qed.

Lemma recompute_consistent (p : Player) :
  totalAssets p = sumResources (assets p) →
  set_totalAssets (sumResources (assets p)) p = p.
Proof. destruct p; simpl; intros <-; reflexivity. Qed.

(** When the switch changes nothing and leaves no text, the handler
    changes nothing, provided the player's [totalAssets] was up to
    date. *)
Lemma playerAction_nothing g playerId d i player :
  findPlayer playerId (g_players g) = Some (i, player) →
  totalAssets player = sumResources (assets player) →
  actionSwitch i player d g = (g, EmptyString) →
  playerAction playerId d g = g.
Proof.
  intros Hfind Htot Hsw. unfold playerAction. rewrite Hfind, Hsw.
  unfold logAction. simpl truthy_string. cbv iota.
  apply alterPlayer_id. intros p Hp.
  apply findPlayer_Some in Hfind as [Hi _].
  rewrite Hi in Hp. injection Hp as <-. by apply recompute_consistent.
Qed.

(** [Buy] with too few tokens: nothing happens. *)
Lemma playerAction_Buy_unmet g playerId d i player :
  findPlayer playerId (g_players g) = Some (i, player) →
  totalAssets player = sumResources (assets player) →
  action d = "Buy"%string →
  (∀ r, resourceOfKey (toLowerCase (a_resource d)) = Some r →
        tokens player < getResource (marketPrices g) r * amount d) →
  playerAction playerId d g = g.
Proof.
  intros Hfind Htot Hact Hun. apply (playerAction_nothing g _ d i player); try done.
  unfold actionSwitch, caseBuy. rewrite Hact. simpl String.eqb. cbv iota.
  destruct (resourceOfKey _) as [r|]; [|done].
  specialize (Hun r eq_refl).
  destruct (Z.geb_spec (tokens player) (getResource (marketPrices g) r * amount d));
    [lia|done].
Qed.

(** [Sell] of more than the player holds: nothing happens. *)
Lemma playerAction_Sell_unmet g playerId d i player :
  findPlayer playerId (g_players g) = Some (i, player) →
  totalAssets player = sumResources (assets player) →
  action d = "Sell"%string →
  (∀ r, resourceOfKey (toLowerCase (a_resource d)) = Some r →
        getResource (assets player) r < amount d) →
  playerAction playerId d g = g.
Proof.
  intros Hfind Htot Hact Hun. apply (playerAction_nothing g _ d i player); try done.
  unfold actionSwitch, caseSell. rewrite Hact. simpl String.eqb. cbv iota.
  destruct (resourceOfKey _) as [r|]; [|done].
  specialize (Hun r eq_refl).
  destruct (Z.geb_spec (getResource (assets player) r) (amount d)); [lia|done].
Qed.

(** [Burn] of more than the player holds: nothing happens. *)
Lemma playerAction_Burn_unmet g playerId d i player :
  findPlayer playerId (g_players g) = Some (i, player) →
  totalAssets player = sumResources (assets player) →
  action d = "Burn"%string →
  (∀ r, resourceOfKey (toLowerCase (a_resource d)) = Some r →
        getResource (assets player) r < amount d) →
  playerAction playerId d g = g.
Proof.
  intros Hfind Htot Hact Hun. apply (playerAction_nothing g _ d i player); try done.
  unfold actionSwitch, caseBurn. rewrite Hact. simpl String.eqb. cbv iota.
  destruct (resourceOfKey _) as [r|]; [|done].
  specialize (Hun r eq_refl).
  destruct (Z.geb_spec (getResource (assets player) r) (amount d)); [lia|done].
Qed.

(** [Sabotage] by a player with fewer than 100 tokens, or naming no
    target: nothing happens. *)
Lemma playerAction_Sabotage_unmet_guard g playerId d i player :
  findPlayer playerId (g_players g) = Some (i, player) →
  totalAssets player = sumResources (assets player) →
  action d = "Sabotage"%string →
  tokens player < 100 ∨ truthy_ostring (targetPlayer d) = false →
  playerAction playerId d g = g.
Proof.
  intros Hfind Htot Hact Hun. apply (playerAction_nothing g _ d i player); try done.
  unfold actionSwitch, caseSabotage. rewrite Hact. simpl String.eqb. cbv iota.
  destruct Hun as [Hlt| ->].
  - destruct (Z.geb_spec (tokens player) 100); [lia|done].
  - by rewrite andb_false_r.
Qed.

(** [Sabotage] by a player with 100 tokens or more against a target
    that holds less than [amount]: the 100 tokens are gone all the same,
    and nothing is logged. *)
Lemma playerAction_Sabotage_short_target g playerId d i player t j target r :
  findPlayer playerId (g_players g) = Some (i, player) →
  action d = "Sabotage"%string →
  100 ≤ tokens player →
  targetPlayer d = Some t → t ≠ EmptyString →
  i ≠ j →
  findPlayer t (g_players g) = Some (j, target) →
  resourceOfKey (toLowerCase (a_resource d)) = Some r →
  getResource (assets target) r < amount d →
  playerAction playerId d g
  = alterPlayer i (λ p, set_totalAssets (sumResources (assets p))
                          (set_tokens (tokens p - 100) p)) g.
Proof.
  intros Hfind Hact Htok Ht Hne Hij Hfindt Hr Hlt.
  unfold playerAction, actionSwitch, caseSabotage.
  rewrite Hfind, Hact, Ht, Hr. simpl String.eqb. cbv iota.
  apply Z.geb_le in Htok. rewrite Htok. simpl truthy_ostring.
  assert (truthy_string t = true) as ->.
  { unfold truthy_string. destruct (String.eqb_spec t ""); done. }
  simpl andb. cbv iota. simpl default.
  assert (findPlayer t (g_players
            (alterPlayer i (λ p, set_tokens (tokens p - 100) p) g))
          = Some (j, target)) as ->.
  { simpl. unfold findPlayer in *.
    apply list_find_Some in Hfindt as (Hj & Hp & Hbefore).
    apply list_find_Some. split; [|split].
    - by rewrite list_lookup_alter_ne.
    - done.
    - intros k y Hk Hlt'. destruct (decide (i = k)) as [->|].
      + rewrite list_lookup_alter_eq in Hk.
        destruct (g_players g !! k) as [q|] eqn:E; [|done].
        simpl in Hk. injection Hk as <-. simpl. eauto.
      + rewrite list_lookup_alter_ne in Hk by done. eauto. }
  destruct (Z.geb_spec (getResource (assets target) r) (amount d)); [lia|].
  unfold logAction. change (truthy_string EmptyString) with false. cbv iota.
  unfold alterPlayer. simpl. rewrite list_alter_alter_eq. reflexivity.
Qed.

(** ** The round timer *)

Lemma set_timeRemaining_same g : set_timeRemaining (timeRemaining g) g = g.
Proof. by destruct g. Qed.

Lemma tick_counting rnd g :
  timerActive g = true → roundDelay g = None → tick rnd g = countdown g.
Proof. intros Ha Hd. unfold tick, tickGame. by rewrite Ha, Hd. Qed.

Lemma countdown_second g s :
  timeRemaining g = mkTime 0 0 s → 1 ≤ s →
  countdown g = set_timeRemaining (mkTime 0 0 (s - 1)) g.
Proof.
  intros Ht Hs. unfold countdown. rewrite Ht. simpl.
  destruct (Z.ltb_spec (s - 1) 0); [lia|]. reflexivity.
Qed.

Lemma countdown_minute g :
  timeRemaining g = mkTime 0 1 0 →
  countdown g = set_timeRemaining (mkTime 0 0 59) g.
Proof. intros Ht. unfold countdown. by rewrite Ht. Qed.

Lemma countdown_expired g :
  timeRemaining g = mkTime 0 0 0 →
  countdown g = set_roundDelay (Some (mkRoundDelay true 10)) g.
Proof. intros Ht. unfold countdown. by rewrite Ht. Qed.

Lemma ticks_cons rnd rnds g : ticks (rnd :: rnds) g = ticks rnds (tick rnd g).
Proof. reflexivity. Qed.

Lemma ticks_app rnds1 rnds2 g :
  ticks (rnds1 ++ rnds2) g = ticks rnds2 (ticks rnds1 g).
Proof. unfold ticks. apply foldl_app. Qed.

(** While seconds are left, [n] firings take [n] seconds off and touch
    nothing else. *)
Lemma ticks_seconds rnds : ∀ g s,
  timerActive g = true → roundDelay g = None →
  timeRemaining g = mkTime 0 0 s →
  Z.of_nat (length rnds) ≤ s →
  ticks rnds g = set_timeRemaining (mkTime 0 0 (s - Z.of_nat (length rnds))) g.
Proof.
  induction rnds as [|rnd rnds IH]; intros g s Ha Hd Ht Hlen.
  - simpl. rewrite Z.sub_0_r, <- Ht. by rewrite set_timeRemaining_same.
  - rewrite ticks_cons, tick_counting, (countdown_second g s) by
      (try done; simpl in Hlen; lia).
    rewrite (IH _ (s - 1)); try done; [|simpl in Hlen; lia].
    simpl length. replace (s - 1 - Z.of_nat (length rnds))
      with (s - Z.of_nat (S (length rnds))) by lia.
    by destruct g.
Qed.

(** From a full minute, [k] firings (1 to 60) leave [60 - k] seconds. *)
Lemma ticks_from_minute rnds g :
  timerActive g = true → roundDelay g = None →
  timeRemaining g = mkTime 0 1 0 →
  (1 ≤ length rnds ≤ 60)%nat →
  ticks rnds g = set_timeRemaining (mkTime 0 0 (60 - Z.of_nat (length rnds))) g.
Proof.
  intros Ha Hd Ht Hlen. destruct rnds as [|rnd rnds]; [simpl in Hlen; lia|].
  rewrite ticks_cons, tick_counting, countdown_minute by done.
  rewrite (ticks_seconds rnds _ 59); try done; [|simpl in Hlen; lia].
  simpl length. replace (59 - Z.of_nat (length rnds))
    with (60 - Z.of_nat (S (length rnds))) by lia.
  by destruct g.
Qed.

(** During the delay, [n] firings short of its end take [n] seconds off
    the delay and touch nothing else. *)
Lemma ticks_delay rnds : ∀ g t,
  timerActive g = true → roundDelay g = Some (mkRoundDelay true t) →
  Z.of_nat (length rnds) < t →
  ticks rnds g
  = set_roundDelay (Some (mkRoundDelay true (t - Z.of_nat (length rnds)))) g.
Proof.
  induction rnds as [|rnd rnds IH]; intros g t Ha Hd Hlen.
  - simpl. rewrite Z.sub_0_r, <- Hd. by destruct g.
  - rewrite ticks_cons.
    assert (tick rnd g = set_roundDelay (Some (mkRoundDelay true (t - 1))) g)
      as ->.
    { unfold tick, tickGame. rewrite Ha, Hd. simpl.
      destruct (Z.leb_spec (t - 1) 0); [simpl in Hlen; lia|done]. }
    rewrite (IH _ (t - 1)); try done; [|simpl in Hlen; lia].
    simpl length. replace (t - 1 - Z.of_nat (length rnds))
      with (t - Z.of_nat (S (length rnds))) by lia.
    by destruct g.
Qed.

Lemma tick_delay_over rnd g :
  timerActive g = true → roundDelay g = Some (mkRoundDelay true 1) →
  tickGame rnd g = startNextRound rnd g.
Proof. intros Ha Hd. unfold tickGame. by rewrite Ha, Hd. Qed.

Lemma take_length_le {A} (l : list A) k :
  (k ≤ length l)%nat → length (take k l) = k.
Proof. intros. rewrite length_take. lia. Qed.

Lemma ticks_last rnds n g :
  length rnds = S n →
  ∃ rnd, ticks rnds g = tick rnd (ticks (take n rnds) g).
Proof.
  intros Hlen. destruct (drop n rnds) as [|rnd [|]] eqn:E;
    try (apply (f_equal length) in E; rewrite length_drop in E;
         simpl in E; lia).
  exists rnd. rewrite <- (take_drop n rnds) at 1.
  by rewrite ticks_app, E.
Qed.

(** C2, as amended.  For every session whose timer is active, that is
    not in a round delay and whose [timeRemaining] is one minute: no
    round delay is active after any of the first 60 firings of the
    timer, after exactly 60 firings [timeRemaining] has reached zero, and
    the 61st firing starts the round delay with 10 seconds.  Through the
    next 9 firings the delay counts down and the round is unchanged.
    After exactly 10 firings from the start of the delay, a session
    that was below its last round is in round [current + 1] with
    [timeRemaining] back at one minute and [recentActions] empty, still
    running; a session that was in its last round is finished
    instead. *)
Theorem round_timer_schedule g rnds1 rnds2 :
  timerActive g = true →
  roundDelay g = None →
  timeRemaining g = mkTime 0 1 0 →
  length rnds1 = 61%nat →
  length rnds2 = 10%nat →
  let g60 := ticks (take 60 rnds1) g in
  let g61 := ticks rnds1 g in
  let g71 := ticks rnds2 g61 in
  (∀ k, (k ≤ 60)%nat → roundDelay (ticks (take k rnds1) g) = None)
  ∧ timeRemaining g60 = mkTime 0 0 0
  ∧ roundDelay g61 = Some (mkRoundDelay true 10)
  ∧ currentRound g61 = currentRound g
  ∧ (∀ k, (k < 10)%nat →
       roundDelay (ticks (take k rnds2) g61)
       = Some (mkRoundDelay true (10 - Z.of_nat k))
       ∧ currentRound (ticks (take k rnds2) g61) = currentRound g)
  ∧ (currentRound g < maxRounds g →
       currentRound g71 = currentRound g + 1
       ∧ timeRemaining g71 = mkTime 0 1 0
       ∧ recentActions g71 = []
       ∧ roundDelay g71 = None
       ∧ timerActive g71 = true
       ∧ status g71 = status g)
  ∧ (maxRounds g ≤ currentRound g →
       currentRound g71 = currentRound g + 1
       ∧ recentActions g71 = []
       ∧ status g71 = finished
       ∧ timerActive g71 = false).
Proof.
  intros Ha Hd Ht Hlen1 Hlen2 g60 g61 g71.
  assert (Hcount : ∀ k, (k ≤ 60)%nat →
            ticks (take k rnds1) g
            = set_timeRemaining
                (if decide (k = 0%nat) then mkTime 0 1 0
                 else mkTime 0 0 (60 - Z.of_nat k)) g).
  { intros k Hk. destruct (decide (k = 0%nat)) as [->|Hk0].
    - simpl. rewrite <- Ht. by rewrite set_timeRemaining_same.
    - rewrite ticks_from_minute; rewrite ?take_length_le; try done; lia. }
  assert (H60 : g60 = set_timeRemaining (mkTime 0 0 0) g).
  { unfold g60. by rewrite Hcount. }
  assert (H61 : g61 = set_roundDelay (Some (mkRoundDelay true 10)) g60).
  { unfold g61. destruct (ticks_last rnds1 60 g Hlen1) as [rnd ->].
    fold g60. rewrite tick_counting, countdown_expired; rewrite ?H60; done. }
  assert (Hdelay : ∀ k, (k < 10)%nat →
            ticks (take k rnds2) g61
            = set_roundDelay (Some (mkRoundDelay true (10 - Z.of_nat k))) g61).
  { intros k Hk. rewrite (ticks_delay _ g61 10);
      rewrite ?take_length_le; try lia; rewrite H61, H60; by destruct g. }
  assert (Hlast : ∃ rnd, g71 = fst (startNextRound rnd (ticks (take 9 rnds2) g61))).
  { unfold g71. destruct (ticks_last rnds2 9 g61 Hlen2) as [rnd ->].
    exists rnd. unfold tick at 1. rewrite tick_delay_over; try done.
    - rewrite Hdelay by lia. rewrite H61, H60. by destruct g.
    - rewrite Hdelay by lia. by rewrite H61, H60. }
  destruct Hlast as [rnd Hlast]. rewrite Hdelay in Hlast by lia.
  split; [|split; [|split; [|split; [|split; [|split]]]]].
  - intros k Hk. rewrite Hcount by done. by destruct g.
  - by rewrite H60.
  - by rewrite H61.
  - by rewrite H61, H60.
  - intros k Hk. rewrite Hdelay by done. rewrite H61, H60. by destruct g.
  - intros Hround. rewrite Hlast, H61, H60. unfold startNextRound.
    destruct g as [cur mx ? ? ? ? acts ? ? ? ? ? ? ? ? ? ? ?]; simpl in *.
    destruct (0 <? length acts)%nat; simpl;
      (destruct (Z.gtb_spec (cur + 1) mx); [lia|done]).
  - intros Hround. rewrite Hlast, H61, H60. unfold startNextRound.
    destruct g as [cur mx ? ? ? ? acts ? ? ? ? ? ? ? ? ? ? ?]; simpl in *.
    destruct (0 <? length acts)%nat; simpl;
      (destruct (Z.gtb_spec (cur + 1) mx); [done|lia]).
Qed.

(** ** Final scoring *)

Lemma insertByScore_Permutation x l : insertByScore x l ≡ₚ x :: l.
Proof.
  induction l as [|y l IH]; simpl; [done|].
  destruct (finalScore y <=? finalScore x); [done|].
  rewrite IH. apply perm_swap.
Qed.

Lemma sortByScore_Permutation l : sortByScore l ≡ₚ l.
Proof.
  induction l as [|x l IH]; simpl; [done|].
  by rewrite insertByScore_Permutation, IH.
Qed.

Lemma insertByScore_sorted x l :
  StronglySorted byScoreDesc l → StronglySorted byScoreDesc (insertByScore x l).
Proof.
  induction 1 as [|y l Hs IH Hy]; simpl.
  - repeat constructor.
  - destruct (Z.leb_spec (finalScore y) (finalScore x)).
    + constructor; [by constructor|].
      constructor; [done|].
      eapply Forall_impl; [exact Hy|]. unfold byScoreDesc. intros; simpl in *; lia.
    + constructor; [done|].
      rewrite insertByScore_Permutation. constructor; [|done].
      unfold byScoreDesc. lia.
Qed.

Lemma sortByScore_sorted l : StronglySorted byScoreDesc (sortByScore l).
Proof.
  induction l as [|x l IH]; simpl; [constructor|].
  by apply insertByScore_sorted.
Qed.

(** Stability: the players of any one score keep their order. *)
Lemma insertByScore_stable (s : Z) x l :
  filter (λ a, finalScore a = s) (insertByScore x l)
  = filter (λ a, finalScore a = s) (x :: l).
Proof.
  induction l as [|y l IH]; simpl; [done|].
  destruct (Z.leb_spec (finalScore y) (finalScore x)); [done|].
  rewrite filter_cons, IH, !filter_cons.
  repeat case_decide; try done; lia.
Qed.

Lemma sortByScore_stable (s : Z) l :
  filter (λ a, finalScore a = s) (sortByScore l)
  = filter (λ a, finalScore a = s) l.
Proof.
  induction l as [|x l IH]; simpl; [done|].
  by rewrite insertByScore_stable, !filter_cons, IH.
Qed.

(** The head of the sorted list is the earliest maximal element. *)
Lemma head_sortByScore l w :
  head (sortByScore l) = Some w →
  ∃ pre post, l = pre ++ w :: post
    ∧ Forall (λ a, finalScore a < finalScore w) pre
    ∧ Forall (λ a, finalScore a ≤ finalScore w) post.
Proof.
  revert w. induction l as [|x l IH]; intros w; simpl; [done|].
  destruct (sortByScore l) as [|y s] eqn:E; simpl.
  - intros [= <-]. exists [], l. split; [done|]. split; [constructor|].
    pose proof (sortByScore_Permutation l) as Hp. rewrite E in Hp.
    apply Permutation_nil_l in Hp. subst. constructor.
  - destruct (IH y eq_refl) as (pre & post & -> & Hpre & Hpost).
    destruct (Z.leb_spec (finalScore y) (finalScore x)); intros [= <-].
    + exists [], (pre ++ y :: post). split; [done|]. split; [constructor|].
      apply Forall_app. split; [|constructor].
      * eapply Forall_impl; [exact Hpre|]. intros; simpl in *; lia.
      * done.
      * eapply Forall_impl; [exact Hpost|]. intros; simpl in *; lia.
    + exists (x :: pre), post. split; [done|]. split; [|done].
      by constructor.
Qed.

Lemma head_sortByScore_nonempty l : l ≠ [] → is_Some (head (sortByScore l)).
Proof.
  intros Hl. destruct (sortByScore l) eqn:E; [|by eexists].
  pose proof (sortByScore_Permutation l) as Hp. rewrite E in Hp.
  apply Permutation_nil_l in Hp. done.
Qed.


(** ** The re-randomized change indicators *)

Lemma Qfloor_spec (x : Q) (n : Z) :
  Qfloor x = n ↔ (inject_Z n <= x)%Q ∧ (x < inject_Z (n + 1))%Q.
Proof.
  split.
  - intros <-. split; [apply Qfloor_le|apply Qlt_floor].
  - intros [Hlo Hhi].
    pose proof (Qfloor_le x) as Hfl. pose proof (Qlt_floor x) as Hfu.
    assert (inject_Z n < inject_Z (Qfloor x + 1))%Q as H1
      by (eapply Qle_lt_trans; eassumption).
    assert (inject_Z (Qfloor x) < inject_Z (n + 1))%Q as H2
      by (eapply Qle_lt_trans; eassumption).
    rewrite <- Zlt_Qlt in H1, H2. lia.
Qed.

(** The outcome [k] is drawn exactly when [r * 40] lies between
    [k + 20] and [k + 21]: an interval of draws of length [1/40],
    whatever [k]. *)
Lemma randomChange_spec (r : Q) (k : Z) :
  randomChange r = k
  ↔ (inject_Z (k + 20) <= r * 40)%Q ∧ (r * 40 < inject_Z (k + 21))%Q.
Proof.
  unfold randomChange.
  assert (Qfloor (r * 40) - 20 = k ↔ Qfloor (r * 40) = k + 20) as -> by lia.
  rewrite Qfloor_spec. by replace (k + 20 + 1) with (k + 21) by lia.
Qed.

Lemma unitDraw_scaled (r : Q) :
  unitDraw r → (inject_Z 0 <= r * 40)%Q ∧ (r * 40 < inject_Z 40)%Q.
Proof.
  intros [Hlo Hhi]. split.
  - apply Qmult_le_0_compat; [done|discriminate].
  - change (inject_Z 40) with (1 * 40)%Q.
    apply Qmult_lt_compat_r; [reflexivity|done].
Qed.

Lemma randomChange_range (r : Q) :
  unitDraw r → -20 ≤ randomChange r ≤ 19.
Proof.
  intros Hr. apply unitDraw_scaled in Hr as [Hlo Hhi].
  destruct (proj1 (randomChange_spec r (randomChange r)) eq_refl) as [H1 H2].
  assert (inject_Z (randomChange r + 20) < inject_Z 40)%Q as H3
    by (eapply Qle_lt_trans; eassumption).
  assert (inject_Z 0 < inject_Z (randomChange r + 21))%Q as H4
    by (eapply Qle_lt_trans; eassumption).
  rewrite <- Zlt_Qlt in H3, H4. lia.
Qed.

Lemma drawFor_unit (k : Z) : -20 ≤ k ≤ 19 → unitDraw (drawFor k).
Proof.
  intros Hk. unfold unitDraw, drawFor, Qle, Qlt. simpl. lia.
Qed.

Lemma randomChange_drawFor (k : Z) : randomChange (drawFor k) = k.
Proof.
  apply randomChange_spec. unfold drawFor, Qle, Qlt. simpl. lia.
Qed.

Lemma lookup_newRoundChanges rnd mcs i :
  newRoundChanges rnd mcs !! i
  = (λ c, mkMarketChange (resource c) (randomChange (rnd i))
            (percentText (randomChange (rnd i)))) <$> mcs !! i.
Proof. unfold newRoundChanges. by rewrite list_lookup_imap. Qed.

(** At the end of the delay of a round that is not the last, the
    indicators are exactly the re-randomized ones. *)
Lemma tick_new_round_changes rnd g t :
  timerActive g = true →
  roundDelay g = Some (mkRoundDelay true t) → t ≤ 1 →
  currentRound g < maxRounds g →
  marketChanges (tick rnd g) = newRoundChanges rnd (marketChanges g).
Proof.
  intros Ha Hd Ht Hr. unfold tick, tickGame, startNextRound.
  rewrite Ha, Hd. simpl.
  destruct (Z.leb_spec (t - 1) 0); [|lia].
  destruct g as [cur mx ? ? ? ? acts ? ? ? ? ? ? ? ? ? ? ?]; simpl in *.
  destruct (0 <? length acts)%nat; simpl;
    (destruct (Z.gtb_spec (cur + 1) mx); [lia|done]).
Qed.

(** C9, as amended.  At the transition from the round delay to the next
    round, the change of every market indicator is re-drawn as
    [floor(random * 40) - 20]: for every outcome it lies between -20 and
    +19, every integer from -20 to +19 is the outcome of some draw, and
    +20 is the outcome of none. *)
Theorem new_round_changes_range rnd g t :
  timerActive g = true →
  roundDelay g = Some (mkRoundDelay true t) → t ≤ 1 →
  currentRound g < maxRounds g →
  (∀ i, unitDraw (rnd i)) →
  (∀ i m, marketChanges (tick rnd g) !! i = Some m →
          change m = randomChange (rnd i) ∧ -20 ≤ change m ≤ 19)
  ∧ (∀ i k, (i < length (marketChanges g))%nat → -20 ≤ k ≤ 19 →
       ∃ rnd', (∀ j, unitDraw (rnd' j))
         ∧ ∃ m, marketChanges (tick rnd' g) !! i = Some m ∧ change m = k)
  ∧ (∀ rnd', (∀ j, unitDraw (rnd' j)) →
       ∀ i m, marketChanges (tick rnd' g) !! i = Some m → change m ≠ 20).
Proof.
  intros Ha Hd Ht Hr Hrnd.
  assert (Hbound : ∀ rnd', (∀ j, unitDraw (rnd' j)) →
            ∀ i m, marketChanges (tick rnd' g) !! i = Some m →
              change m = randomChange (rnd' i) ∧ -20 ≤ change m ≤ 19).
  { intros rnd' Hrnd' i m.
    rewrite (tick_new_round_changes rnd' g t), lookup_newRoundChanges by done.
    destruct (marketChanges g !! i); [|done]. intros [= <-]. simpl.
    split; [done|]. by apply randomChange_range. }
  split; [|split].
  - by apply Hbound.
  - intros i k Hi Hk. exists (λ _, drawFor k).
    split; [intros _; by apply drawFor_unit|].
    rewrite (tick_new_round_changes _ g t), lookup_newRoundChanges by done.
    destruct (lookup_lt_is_Some_2 _ _ Hi) as [c ->]. simpl.
    eexists. split; [done|]. simpl. apply randomChange_drawFor.
  - intros rnd' Hrnd' i m Hm. destruct (Hbound rnd' Hrnd' i m Hm). lia.
Qed.

(** ** Host failover *)

Lemma host_alterPlayer i f g : host (alterPlayer i f g) = host g.
Proof. reflexivity. Qed.

(** The players after a disconnect: the object found under the id is
    marked, the others are as they were. *)
Lemma g_players_disconnectGame playerId g :
  g_players (disconnectGame playerId g)
  = match findPlayer playerId (g_players g) with
    | Some (i, _) => alter (set_connected false) i (g_players g)
    | None => g_players g
    end.
Proof.
  unfold disconnectGame.
  destruct (findPlayer playerId (g_players g)) as [[i p]|]; simpl;
    case_bool_decide; try done;
    match goal with |- context [filter ?P ?l] => destruct (filter P l) end;
    done.
Qed.

Lemma filter_connected_first (ps pre post : list Player) p :
  ps = pre ++ p :: post →
  Forall (λ q, connected q = false) pre →
  connected p = true →
  filter (λ q, connected q = true) ps
  = p :: filter (λ q, connected q = true) post.
Proof.
  intros -> Hpre Hp. rewrite filter_app, filter_cons.
  rewrite decide_True by done.
  assert (filter (λ q, connected q = true) pre = []) as ->; [|done].
  induction Hpre as [|q pre Hq _ IH]; [done|].
  rewrite filter_cons, decide_False; [done|]. by rewrite Hq.
Qed.

Lemma filter_connected_none (ps : list Player) :
  Forall (λ q, connected q = false) ps →
  filter (λ q, connected q = true) ps = [].
Proof.
  induction 1 as [|q ps Hq _ IH]; [done|].
  rewrite filter_cons, decide_False; [done|]. by rewrite Hq.
Qed.

(** C6.  When the current host disconnects, the host becomes the first
    player in join order whose [connected] flag is still true once the
    leaver is marked disconnected; when nobody is connected any more,
    the host stays as it was.  For Alice (host), Bob and Carol: Alice
    disconnecting makes Bob the host, Bob disconnecting then makes
    Carol the host, and Carol disconnecting leaves Carol the host. *)
Theorem disconnect_host_failover :
  (∀ g playerId,
     host g = Some playerId →
     let g' := disconnectGame playerId g in
     (∀ pre p post,
        g_players g' = pre ++ p :: post →
        Forall (λ q, connected q = false) pre →
        connected p = true →
        host g' = Some (pid p))
     ∧ (Forall (λ q, connected q = false) (g_players g') → host g' = host g)
     ∧ (∀ i p, findPlayer playerId (g_players g) = Some (i, p) →
          g_players g' = <[i := set_connected false p]> (g_players g)))
  ∧ (let s0 := run [aliceCreates; bobJoins; carolJoins] emptyServer in
     let s1 := step s0 (EvDisconnect "socketA") in
     let s2 := step s1 (EvDisconnect "socketB") in
     let s3 := step s2 (EvDisconnect "socketC") in
     hostOf "G1" s0 = Some "walletA"%string
     ∧ hostOf "G1" s1 = Some "walletB"%string
     ∧ hostOf "G1" s2 = Some "walletC"%string
     ∧ hostOf "G1" s3 = Some "walletC"%string).
Proof.
  split.
  - intros g playerId Hhost g'.
    assert (Hg' : host g'
              = match filter (λ q, connected q = true) (g_players g') with
                | p :: _ => Some (pid p)
                | [] => host g
                end).
    { unfold g'. rewrite g_players_disconnectGame. unfold disconnectGame.
      destruct (findPlayer playerId (g_players g)) as [[i p]|]; simpl;
        rewrite Hhost, bool_decide_eq_true_2 by done;
        match goal with |- context [filter ?P ?l] => destruct (filter P l) end;
        done. }
    split; [|split].
    + intros pre p post Hsplit Hpre Hp.
      by rewrite Hg', (filter_connected_first _ pre post p).
    + intros Hnone. by rewrite Hg', filter_connected_none.
    + intros i p Hfind. unfold g'. rewrite g_players_disconnectGame, Hfind.
      unfold findPlayer in Hfind. apply list_find_Some in Hfind as [Hfind _].
      apply list_eq. intros j. rewrite list_lookup_alter.
      destruct (decide (i = j)) as [<-|].
      * rewrite Hfind. simpl. symmetry. apply list_lookup_insert_eq.
        by eapply lookup_lt_Some.
      * by rewrite list_lookup_insert_ne.
  - vm_compute. done.
Qed.

(** ** Joining *)

Lemma loadGame_installed okLoad gid s game s1 :
  loadGame okLoad gid s = Some (game, s1) →
  activeGameStates s1 !! gid = Some game
  ∧ (is_Some (activeGameStates s !! gid) → s1 = s).
Proof.
  unfold loadGame. destruct (activeGameStates s !! gid) as [g0|] eqn:E.
  - intros [= <- <-]. by split.
  - destruct (GameDatabase.getGame okLoad gid (games s)); [|done].
    intros [= <- <-]. split; [apply lookup_insert_eq|]. by intros [? ?].
Qed.

(** C8.  On a session that exists, [join-game] answers with the error
    "Game is full" when the session has 4 players or more, and with
    "Game already in progress" when it has room but is not waiting;
    either way the session is left as it was.  Otherwise it answers
    [game-joined], the new player is appended to [players] and the
    socket is bound to the session.  It answers with an error exactly
    when the session is full or not waiting. *)
Theorem join_game_rejects_full_or_started
    socket data genId okLoad okGet okUpdate s game s1 :
  loadGame okLoad (j_gameId data) s = Some (game, s1) →
  let result := join_game socket data genId okLoad okGet okUpdate s in
  let playerId := choosePlayerId (j_walletAddress data) genId in
  let player :=
    createPlayer playerId (j_playerName data) socket (j_walletAddress data) in
  ((4 ≤ length (g_players game))%nat →
     snd result = [EmitError "Game is full"]
     ∧ fst result = s1
     ∧ activeGameStates (fst result) !! j_gameId data = Some game)
  ∧ ((length (g_players game) < 4)%nat → status game ≠ waiting →
     snd result = [EmitError "Game already in progress"]
     ∧ fst result = s1
     ∧ activeGameStates (fst result) !! j_gameId data = Some game)
  ∧ ((length (g_players game) < 4)%nat → status game = waiting →
     snd result = [EmitGameJoined (j_gameId data) playerId]
     ∧ activeGameStates (fst result) !! j_gameId data
       = Some (set_players (g_players game ++ [player]) game)
     ∧ players (fst result) !! socket
       = Some (mkInfo (j_gameId data) playerId (j_playerName data)))
  ∧ (isError (snd result)
     ↔ (4 ≤ length (g_players game))%nat ∨ status game ≠ waiting).
Proof.
  intros Hload result playerId player.
  destruct (loadGame_installed _ _ _ _ _ Hload) as [Hin _].
  unfold result, join_game. rewrite Hload.
  destruct (Nat.leb_spec 4 (length (g_players game))) as [Hfull|Hroom].
  - simpl. split; [done|]. split; [intros; lia|]. split; [intros; lia|].
    split; [intros _; by left|intros _; by eexists].
  - destruct (decide (status game = waiting)) as [Hw|Hw].
    + rewrite bool_decide_eq_true_2 by done. simpl.
      split; [intros; lia|]. split; [done|].
      split.
      * intros _ _. split; [done|].
        split; [apply lookup_insert_eq|apply lookup_insert_eq].
      * split; [intros [? [=]]|intros [?|?]; [lia|done]].
    + rewrite bool_decide_eq_false_2 by done. simpl.
      split; [intros; lia|]. split; [done|]. split; [done|].
      split; [intros _; by right|intros _; by eexists].
Qed.

(** ** Market prices set by the host *)

Lemma orPrice_falsy x old : truthy_number x = false → orPrice x old = old.
Proof. unfold orPrice. by intros ->. Qed.

Lemma orPrice_truthy v old : v ≠ 0 → orPrice (Some v) old = v.
Proof.
  intros Hv. unfold orPrice, truthy_number.
  by destruct (Z.eqb_spec v 0).
Qed.

Lemma orPrice_nonzero x old : old ≠ 0 → orPrice x old ≠ 0.
Proof.
  intros Hold. unfold orPrice, truthy_number. destruct x as [v|]; [|done].
  by destruct (Z.eqb_spec v 0).
Qed.

(** C10.  For a playing session and a host caller,
    [update-market-prices] leaves in the store, under the caller's game,
    a session whose market prices are new ones in which a resource
    whose payload field is absent, 0 or otherwise falsy keeps its
    price, and a resource whose payload field is a non-zero number
    takes that number, whatever the other two fields are; a new price
    is 0 only where the old one already was, so the event never sets a
    price to 0.  Nothing else of the session changes, nor any other
    session, binding or row. *)
Theorem update_market_prices_skips_falsy s socket playerInfo game mp :
  players s !! socket = Some playerInfo →
  activeGameStates s !! gameId playerInfo = Some game →
  status game = playing →
  isHost (playerId playerInfo) game = true →
  let old := marketPrices game in
  let s' := update_market_prices socket (Some mp) s in
  ∃ game',
    activeGameStates s' !! gameId playerInfo = Some game'
    ∧ (truthy_number (gold_price mp) = false →
       gold (marketPrices game') = gold old)
    ∧ (truthy_number (water_price mp) = false →
       water (marketPrices game') = water old)
    ∧ (truthy_number (oil_price mp) = false →
       oil (marketPrices game') = oil old)
    ∧ (∀ v, gold_price mp = Some v → v ≠ 0 → gold (marketPrices game') = v)
    ∧ (∀ v, water_price mp = Some v → v ≠ 0 →
         water (marketPrices game') = v)
    ∧ (∀ v, oil_price mp = Some v → v ≠ 0 → oil (marketPrices game') = v)
    ∧ (gold (marketPrices game') = 0 → gold old = 0)
    ∧ (water (marketPrices game') = 0 → water old = 0)
    ∧ (oil (marketPrices game') = 0 → oil old = 0)
    ∧ game'
      = mkGame (currentRound game) (maxRounds game) (timeRemaining game)
          (g_players game) (marketChanges game) (marketPrices game')
          (recentActions game) (actionHistory game) (status game)
          (host game) (timerActive game) (roundInProgress game)
          (gameName game) (isPrivate game) (exitedPlayers game)
          (roundDelay game) (winner game) (finalScores game)
    ∧ (∀ gid, gid ≠ gameId playerInfo →
         activeGameStates s' !! gid = activeGameStates s !! gid)
    ∧ players s' = players s
    ∧ games s' = games s.
Proof.
  intros Hsock Hgame Hplaying Hhost old s'.
  unfold s', update_market_prices. rewrite Hsock, Hgame, Hhost.
  rewrite bool_decide_eq_true_2 by done. simpl.
  eexists. split; [apply lookup_insert_eq|]. simpl. fold old.
  split; [apply orPrice_falsy|].
  split; [apply orPrice_falsy|].
  split; [apply orPrice_falsy|].
  split; [intros v -> Hv; by apply orPrice_truthy|].
  split; [intros v -> Hv; by apply orPrice_truthy|].
  split; [intros v -> Hv; by apply orPrice_truthy|].
  split.
  { intros H0. destruct (decide (gold old = 0)) as [|Hne]; [done|].
    by apply (orPrice_nonzero (gold_price mp)) in Hne. }
  split.
  { intros H0. destruct (decide (water old = 0)) as [|Hne]; [done|].
    by apply (orPrice_nonzero (water_price mp)) in Hne. }
  split.
  { intros H0. destruct (decide (oil old = 0)) as [|Hne]; [done|].
    by apply (orPrice_nonzero (oil_price mp)) in Hne. }
  split; [reflexivity|].
  split; [|done].
  intros gid Hgid. by apply lookup_insert_ne.
Qed.

(** ** Invariants of the reachable states *)

Lemma playerOk_createPlayer a b c d : playerOk (createPlayer a b c d).
Proof. reflexivity. Qed.

Lemma playerOk_recompute p :
  playerOk (set_totalAssets (sumResources (assets p)) p).
Proof. reflexivity. Qed.

Lemma playerOk_sabotageTarget r amt t : playerOk (sabotageTarget r amt t).
Proof. reflexivity. Qed.

Lemma okExcept_alter_same i f ps : okExcept i ps → okExcept i (alter f i ps).
Proof.
  intros H k p Hk Hne. rewrite list_lookup_alter_ne in Hk by done. eauto.
Qed.

Lemma okExcept_alter_ok i j f ps :
  (∀ p, playerOk (f p)) → okExcept i ps → okExcept i (alter f j ps).
Proof.
  intros Hf H k p Hk Hne. destruct (decide (j = k)) as [->|].
  - rewrite list_lookup_alter_eq in Hk.
    destruct (ps !! k); [|done]. injection Hk as <-. apply Hf.
  - rewrite list_lookup_alter_ne in Hk by done. eauto.
Qed.

Lemma okExcept_actionSwitch i player d g :
  okExcept i (g_players g) →
  okExcept i (g_players (fst (actionSwitch i player d g))).
Proof.
  intros H. unfold actionSwitch, caseBuy, caseSell, caseBurn, caseSabotage.
  repeat match goal with
  | |- context [if ?b then _ else _] => destruct b
  | |- context [match ?o with Some _ => _ | None => _ end] =>
      destruct o as [[]|] || destruct o
  end; simpl; try done;
  repeat first [ apply okExcept_alter_same
               | apply okExcept_alter_ok; [apply playerOk_sabotageTarget|] ];
  done.
Qed.

Lemma gameOk_playerAction playerId d g :
  gameOk g → gameOk (playerAction playerId d g).
Proof.
  intros Hg. unfold playerAction.
  destruct (findPlayer playerId (g_players g)) as [[i player]|]; [|done].
  assert (okExcept i (g_players (fst (actionSwitch i player d g)))) as Hex.
  { apply okExcept_actionSwitch. intros k p Hk _.
    unfold gameOk in Hg. rewrite Forall_lookup in Hg. eauto. }
  destruct (actionSwitch i player d g) as [g1 text]. simpl in Hex.
  unfold gameOk. rewrite g_players_logAction. simpl.
  apply Forall_lookup. intros k p Hk.
  destruct (decide (i = k)) as [->|].
  - rewrite list_lookup_alter_eq in Hk.
    destruct (g_players g1 !! k); [|done]. injection Hk as <-.
    apply playerOk_recompute.
  - rewrite list_lookup_alter_ne in Hk by done. eauto.
Qed.

Lemma g_players_tickGame rnd g :
  g_players (fst (tickGame rnd g)) = g_players g.
Proof.
  unfold tickGame, startNextRound, countdown, finishGame.
  repeat match goal with
  | |- context [if ?b then _ else _] => destruct b
  | |- context [match ?o with Some _ => _ | None => _ end] => destruct o
  end; reflexivity.
Qed.

Lemma gameOk_disconnectGame playerId g :
  gameOk g → gameOk (disconnectGame playerId g).
Proof.
  intros Hg. unfold gameOk.
  rewrite g_players_disconnectGame.
  destruct (findPlayer playerId (g_players g)) as [[i p]|]; [|done].
  apply Forall_lookup. intros k q Hk. unfold gameOk in Hg.
  rewrite Forall_lookup in Hg.
  rewrite list_lookup_alter in Hk. destruct (decide (i = k)) as [->|]; [|eauto].
  destruct (g_players g !! k) as [q0|] eqn:E; [|done].
  injection Hk as <-. specialize (Hg _ _ E). by destruct q0.
Qed.

Lemma gameOk_exitGame playerId g g' :
  gameOk g → exitGame playerId g = Some g' → gameOk g'.
Proof.
  unfold exitGame. intros Hg. destruct (allPlayersExited _); [done|].
  intros [= <-]. unfold gameOk in *. simpl.
  rewrite Forall_forall in Hg. apply Forall_forall. intros p Hp.
  apply list_elem_of_filter in Hp as [_ Hp]. by apply Hg.
Qed.

Lemma gameOk_reconstruct row : rowOk row → gameOk (reconstruct row).
Proof. by intros [_ H]. Qed.

Section ServerInvariant.

Variable s : Server.
Hypothesis Hs : serverOk s.

Lemma serverOk_setGame gid g : gameOk g → serverOk (setGame gid g s).
Proof.
  intros Hg. destruct Hs as [Hm Hd]. split; [|done].
  by apply map_Forall_insert_2.
Qed.

Lemma serverOk_setTable tbl :
  map_Forall (λ _ row, rowOk row) tbl → serverOk (setTable tbl s).
Proof. intros Ht. destruct Hs as [Hm Hd]. by split. Qed.

Lemma serverOk_bindSocket socket info : serverOk (bindSocket socket info s).
Proof. exact Hs. Qed.

Lemma serverOk_unbindSocket socket : serverOk (unbindSocket socket s).
Proof. exact Hs. Qed.

Lemma rows_updateGameStatus ok gid st :
  map_Forall (λ _ row, rowOk row)
             (GameDatabase.updateGameStatus ok gid st (games s)).
Proof.
  destruct Hs as [_ Hd]. unfold GameDatabase.updateGameStatus.
  destruct (ok && GameDatabase.statusAllowed st); [|done].
  intros k row. rewrite lookup_alter.
  case_decide; [|apply Hd].
  destruct (games s !! gid) as [row0|] eqn:E; [|done].
  intros [= <-]. exact (Hd _ _ E).
Qed.

Lemma rows_addPlayerToGame okGet okUpdate gid player :
  playerOk player →
  map_Forall (λ _ row, rowOk row)
             (GameDatabase.addPlayerToGame okGet okUpdate gid player (games s)).
Proof.
  intros Hp. destruct Hs as [_ Hd].
  unfold GameDatabase.addPlayerToGame, GameDatabase.getGame.
  destruct okGet; [|done].
  destruct (games s !! gid) as [row|] eqn:E; [|done].
  destruct okUpdate; [|done].
  apply map_Forall_insert_2; [|done].
  destruct (Hd _ _ E) as [_ Hps]. split; [done|]. simpl.
  apply Forall_app. split; [done|]. by constructor.
Qed.

Lemma serverOk_closeGame gid ok : serverOk (closeGame gid ok s).
Proof.
  destruct Hs as [Hm Hd]. split; simpl.
  - by apply map_Forall_delete.
  - apply rows_updateGameStatus.
Qed.

Lemma serverOk_loadGame okLoad gid game s1 :
  loadGame okLoad gid s = Some (game, s1) → gameOk game ∧ serverOk s1.
Proof.
  unfold loadGame, GameDatabase.getGame.
  destruct (activeGameStates s !! gid) as [g0|] eqn:E.
  - intros [= <- <-]. split; [|done]. destruct Hs as [Hm _]. exact (Hm _ _ E).
  - destruct okLoad; [|done].
    destruct (games s !! gid) as [row|] eqn:Er; [|done].
    intros [= <- <-].
    assert (gameOk (reconstruct row)) as Hg.
    { apply gameOk_reconstruct. destruct Hs as [_ Hd]. exact (Hd _ _ Er). }
    split; [done|]. by apply serverOk_setGame.
Qed.

End ServerInvariant.

Lemma serverOk_create_game socket data genId ok s :
  serverOk s → serverOk (fst (create_game socket data genId ok s)).
Proof.
  intros Hs. unfold create_game, GameDatabase.createGame.
  destruct (games s !! c_gameId data) eqn:E; [done|].
  destruct ok; [|done]. simpl.
  apply serverOk_bindSocket, serverOk_setGame.
  - apply serverOk_setTable; [done|].
    apply map_Forall_insert_2; [|by destruct Hs].
    split; [done|]. simpl. repeat constructor.
  - unfold gameOk. simpl. repeat constructor.
Qed.

Lemma serverOk_join_game socket data genId okLoad okGet okUpdate s :
  serverOk s →
  serverOk (fst (join_game socket data genId okLoad okGet okUpdate s)).
Proof.
  intros Hs. unfold join_game.
  destruct (loadGame okLoad (j_gameId data) s) as [[game s1]|] eqn:E; [|done].
  destruct (serverOk_loadGame s Hs _ _ _ _ E) as [Hg Hs1].
  destruct (4 <=? length (g_players game))%nat; [done|].
  destruct (negb _); [done|]. simpl.
  set (player := createPlayer _ _ _ _).
  set (s2 := bindSocket _ _ _).
  assert (serverOk s2) as Hs2.
  { apply serverOk_bindSocket, serverOk_setGame; [done|].
    unfold gameOk. simpl. apply Forall_app. split; [done|].
    repeat constructor. }
  apply serverOk_setTable; [done|]. by apply rows_addPlayerToGame.
Qed.

Lemma serverOk_get_game_state gid okLoad s :
  serverOk s → serverOk (fst (get_game_state gid okLoad s)).
Proof.
  intros Hs. unfold get_game_state. destruct (negb _); [done|].
  destruct (loadGame _ _ _) as [[game s1]|] eqn:E; [|done].
  by destruct (serverOk_loadGame s Hs _ _ _ _ E).
Qed.

Lemma serverOk_start_game socket ok s :
  serverOk s → serverOk (fst (start_game socket ok s)).
Proof.
  intros Hs. unfold start_game.
  destruct (players s !! socket) as [info|]; [|done].
  destruct (activeGameStates s !! gameId info) as [game|] eqn:E; [|done].
  destruct (negb _); [done|]. destruct (_ <? _)%nat; [done|]. simpl.
  assert (gameOk game) as Hg by (destruct Hs as [Hm _]; exact (Hm _ _ E)).
  assert (serverOk (setGame (gameId info)
            (set_timerActive true (set_status playing game)) s)) as Hs1
    by (by apply serverOk_setGame).
  apply serverOk_setTable; [done|]. by apply rows_updateGameStatus.
Qed.

Lemma serverOk_exit_game socket ok s :
  serverOk s → serverOk (exit_game socket ok s).
Proof.
  intros Hs. unfold exit_game.
  destruct (players s !! socket) as [info|]; [|done].
  destruct (activeGameStates s !! gameId info) as [game|] eqn:E; [|done].
  assert (gameOk game) as Hg by (destruct Hs as [Hm _]; exact (Hm _ _ E)).
  apply serverOk_unbindSocket.
  destruct (exitGame (playerId info) game) as [game'|] eqn:Ex.
  - apply serverOk_setGame; [done|]. by eapply gameOk_exitGame.
  - by apply serverOk_closeGame.
Qed.

Lemma serverOk_update_market_prices socket mp s :
  serverOk s → serverOk (update_market_prices socket mp s).
Proof.
  intros Hs. unfold update_market_prices.
  destruct (players s !! socket) as [info|]; [|done].
  destruct (activeGameStates s !! gameId info) as [game|] eqn:E; [|done].
  destruct (negb _); [done|]. destruct (negb _); [done|].
  destruct mp; [|done]. apply serverOk_setGame; [done|].
  destruct Hs as [Hm _]. exact (Hm _ _ E).
Qed.

Lemma serverOk_player_action socket d s :
  serverOk s → serverOk (player_action socket d s).
Proof.
  intros Hs. unfold player_action.
  destruct (players s !! socket) as [info|]; [|done].
  destruct (activeGameStates s !! gameId info) as [game|] eqn:E; [|done].
  destruct (negb _); [done|]. destruct (findPlayer _ _); [|done].
  apply serverOk_setGame; [done|]. apply gameOk_playerAction.
  destruct Hs as [Hm _]. exact (Hm _ _ E).
Qed.

Lemma serverOk_disconnect socket s :
  serverOk s → serverOk (disconnect socket s).
Proof.
  intros Hs. unfold disconnect.
  destruct (players s !! socket) as [info|]; [|done].
  apply serverOk_unbindSocket.
  destruct (activeGameStates s !! gameId info) as [game|] eqn:E; [|done].
  apply serverOk_setGame; [done|]. apply gameOk_disconnectGame.
  destruct Hs as [Hm _]. exact (Hm _ _ E).
Qed.

Lemma serverOk_timer_tick gid rnd ok s :
  serverOk s → serverOk (timer_tick gid rnd ok s).
Proof.
  intros Hs. unfold timer_tick.
  destruct (activeGameStates s !! gid) as [game|] eqn:E; [|done].
  destruct (negb _); [done|].
  pose proof (g_players_tickGame rnd game) as Hps.
  destruct (tickGame rnd game) as [game' fin]. simpl in Hps.
  assert (serverOk (setGame gid game' s)) as Hs1.
  { apply serverOk_setGame; [done|]. unfold gameOk. rewrite Hps.
    destruct Hs as [Hm _]. exact (Hm _ _ E). }
  destruct fin; [|done].
  apply serverOk_setTable; [done|]. by apply rows_updateGameStatus.
Qed.

Lemma serverOk_market_fluctuation rnd s :
  serverOk s → serverOk (market_fluctuation rnd s).
Proof.
  intros [Hm Hd]. split; [|done]. simpl.
  intros gid g. rewrite map_lookup_imap.
  destruct (activeGameStates s !! gid) as [g0|] eqn:E; [|done]. simpl.
  intros [= <-]. specialize (Hm _ _ E). by case_bool_decide.
Qed.

Lemma rows_filter (P : string * DbGame → Prop)
    `{!∀ kv, Decision (P kv)} (tbl : gmap string DbGame) :
  map_Forall (λ _ row, rowOk row) tbl →
  map_Forall (λ _ row, rowOk row) (filter P tbl).
Proof.
  intros Hall k row Hk. apply map_lookup_filter_Some in Hk as [Hk _]. eauto.
Qed.

Lemma rows_sweep matches okSelect okDelete tbl :
  map_Forall (λ _ row, rowOk row) tbl →
  map_Forall (λ _ row, rowOk row)
             (snd (GameDatabase.sweep matches okSelect okDelete tbl)).
Proof.
  intros H. unfold GameDatabase.sweep.
  destruct okSelect; [|done]. destruct (0 <? _)%nat; [|done].
  destruct okDelete; [|done]. simpl. by apply rows_filter.
Qed.

Lemma rows_cleanupOldGames expired ok tbl :
  map_Forall (λ _ row, rowOk row) tbl →
  map_Forall (λ _ row, rowOk row)
             (GameDatabase.cleanupOldGames expired ok tbl).
Proof.
  intros H. unfold GameDatabase.cleanupOldGames.
  destruct ok; [|done]. by apply rows_filter.
Qed.

Lemma serverOk_hourly_cleanup o s :
  serverOk s → serverOk (hourly_cleanup o s).
Proof.
  intros [Hm Hd]. unfold hourly_cleanup,
    GameDatabase.cleanupStaleOpenGames, GameDatabase.cleanupAbandonedGames.
  pose proof (rows_sweep (GameDatabase.isStaleOpen (staleExpired o))
                (okStaleSelect o) (okStaleDelete o) (games s) Hd) as H1.
  destruct (GameDatabase.sweep _ _ _ (games s)) as [c1 tbl1]. simpl in H1.
  pose proof (rows_sweep (GameDatabase.isAbandoned (abandonedExpired o))
                (okAbandonedSelect o) (okAbandonedDelete o) tbl1 H1) as H2.
  destruct (GameDatabase.sweep _ _ _ tbl1) as [c2 tbl2]. simpl in H2.
  pose proof (rows_cleanupOldGames (finishedExpired o) (okFinishedDelete o)
                tbl2 H2) as H3.
  destruct (removedSome c1 || removedSome c2); split; simpl; try done.
  intros k g Hk. apply map_lookup_filter_Some in Hk as [Hk _]. eauto.
Qed.

Lemma serverOk_restart expired ok s :
  serverOk s → serverOk (restart expired ok s).
Proof.
  intros [Hm Hd]. split; simpl; [apply map_Forall_empty|].
  by apply rows_cleanupOldGames.
Qed.

Lemma serverOk_step s e : serverOk s → serverOk (step s e).
Proof.
  intros Hs. destruct e; simpl.
  - by apply serverOk_create_game.
  - by apply serverOk_join_game.
  - by apply serverOk_get_game_state.
  - by apply serverOk_start_game.
  - by apply serverOk_exit_game.
  - by apply serverOk_update_market_prices.
  - by apply serverOk_player_action.
  - by apply serverOk_disconnect.
  - by apply serverOk_timer_tick.
  - by apply serverOk_market_fluctuation.
  - by apply serverOk_closeGame.
  - by apply serverOk_hourly_cleanup.
  - by apply serverOk_restart.
Qed.

Lemma reachable_run es s : reachable s → reachable (run es s).
Proof.
  revert s. induction es as [|e es IH]; intros s Hs; [done|].
  simpl. apply IH. by constructor.
Qed.

(** ** The persisted count against the session in memory *)

Lemma length_g_players_disconnectGame playerId g :
  length (g_players (disconnectGame playerId g)) = length (g_players g).
Proof.
  rewrite g_players_disconnectGame.
  destruct (findPlayer playerId (g_players g)) as [[i p]|]; [|done].
  apply length_alter.
Qed.

Lemma length_g_players_actionSwitch i player d g :
  length (g_players (fst (actionSwitch i player d g)))
  = length (g_players g).
Proof.
  unfold actionSwitch, caseBuy, caseSell, caseBurn, caseSabotage.
  repeat match goal with
  | |- context [if ?b then _ else _] => destruct b
  | |- context [match ?o with Some _ => _ | None => _ end] => destruct o
  | |- context [let '(_, _) := ?x in _] => destruct x
  end; simpl; rewrite ?length_alter; reflexivity.
Qed.

Lemma length_g_players_playerAction playerId d g :
  length (g_players (playerAction playerId d g)) = length (g_players g).
Proof.
  unfold playerAction.
  destruct (findPlayer playerId (g_players g)) as [[i player]|]; [|done].
  pose proof (length_g_players_actionSwitch i player d g) as H.
  destruct (actionSwitch i player d g) as [g1 text]. simpl in H.
  rewrite g_players_logAction. simpl. by rewrite length_alter.
Qed.

Lemma length_g_players_exitGame playerId g g' :
  exitGame playerId g = Some g' →
  (length (g_players g') ≤ length (g_players g))%nat.
Proof.
  unfold exitGame. destruct (allPlayersExited _); [done|].
  intros [= <-]. simpl. apply length_filter.
Qed.

Lemma current_players_updateGameStatus ok gid st tbl k row' :
  GameDatabase.updateGameStatus ok gid st tbl !! k = Some row' →
  ∃ row, tbl !! k = Some row ∧ current_players row' = current_players row.
Proof.
  unfold GameDatabase.updateGameStatus.
  destruct (ok && GameDatabase.statusAllowed st); [|by eauto].
  rewrite lookup_alter. case_decide as Hk; [|by eauto].
  subst k. destruct (tbl !! gid) as [row|]; [|done].
  intros [= <-]. by eexists.
Qed.

Lemma lookup_sweep matches okSelect okDelete (tbl : gmap string DbGame)
    k row :
  snd (GameDatabase.sweep matches okSelect okDelete tbl) !! k = Some row →
  tbl !! k = Some row.
Proof.
  unfold GameDatabase.sweep.
  destruct okSelect; [|done]. destruct (0 <? _)%nat; [|done].
  destruct okDelete; [|done]. simpl.
  intros H. by apply map_lookup_filter_Some in H as [H _].
Qed.

Lemma lookup_cleanupOldGames expired ok (tbl : gmap string DbGame) k row :
  GameDatabase.cleanupOldGames expired ok tbl !! k = Some row →
  tbl !! k = Some row.
Proof.
  unfold GameDatabase.cleanupOldGames. destruct ok; [|done].
  intros H. by apply map_lookup_filter_Some in H as [H _].
Qed.

Section Counts.

Variable rel : nat → nat → Prop.
(** Whether sessions may lose players, as they do in [exit-game]. *)
Variable lossy : Prop.
Hypothesis rel_refl : ∀ n, rel n n.
Hypothesis rel_S : ∀ a b, rel a b → rel (S a) (S b).
Hypothesis rel_down :
  lossy → ∀ a a' b, (a' ≤ a)%nat → rel a b → rel a' b.

(** Sessions and rows that all come from [s] with their counts. *)
Lemma counts_mono s s' :
  (∀ gid g', activeGameStates s' !! gid = Some g' →
     ∃ g, activeGameStates s !! gid = Some g
          ∧ length (g_players g') = length (g_players g)) →
  (∀ gid row', games s' !! gid = Some row' →
     ∃ row, games s !! gid = Some row
            ∧ current_players row' = current_players row) →
  countsRelated rel s → countsRelated rel s'.
Proof.
  intros Hm Hd Hs gid g' row' Hg' Hrow'.
  destruct (Hm _ _ Hg') as (g & Hg & ->).
  destruct (Hd _ _ Hrow') as (row & Hrow & ->).
  by apply (Hs gid).
Qed.

Lemma counts_setGame gid g s :
  (∀ row, games s !! gid = Some row →
     rel (length (g_players g)) (current_players row)) →
  countsRelated rel s → countsRelated rel (setGame gid g s).
Proof.
  intros Hg Hs k g' row'. simpl.
  destruct (decide (k = gid)) as [->|Hk].
  - rewrite lookup_insert_eq. intros [= <-]. apply Hg.
  - rewrite lookup_insert_ne by done. apply Hs.
Qed.

Lemma counts_same_length gid g g' s :
  activeGameStates s !! gid = Some g →
  length (g_players g') = length (g_players g) →
  countsRelated rel s → countsRelated rel (setGame gid g' s).
Proof.
  intros Hg Hlen Hs. apply counts_setGame; [|done].
  intros row Hrow. rewrite Hlen. by apply (Hs gid).
Qed.

Lemma counts_status ok gid st s :
  countsRelated rel s →
  countsRelated rel
    (setTable (GameDatabase.updateGameStatus ok gid st (games s)) s).
Proof.
  apply counts_mono; simpl; [by eauto|].
  intros k row'. apply current_players_updateGameStatus.
Qed.

Lemma counts_closeGame gid ok s :
  countsRelated rel s → countsRelated rel (closeGame gid ok s).
Proof.
  apply counts_mono; simpl.
  - intros k g' Hk. apply lookup_delete_Some in Hk as [_ Hk]. by eauto.
  - intros k row'. apply current_players_updateGameStatus.
Qed.

Lemma counts_loadGame okLoad gid s game s1 :
  serverOk s → countsRelated rel s →
  loadGame okLoad gid s = Some (game, s1) →
  countsRelated rel s1
  ∧ activeGameStates s1 !! gid = Some game
  ∧ games s1 = games s.
Proof.
  intros [_ Hd] Hs. unfold loadGame, GameDatabase.getGame.
  destruct (activeGameStates s !! gid) as [g0|] eqn:E.
  - intros [= <- <-]. by repeat split.
  - destruct okLoad; [|done].
    destruct (games s !! gid) as [row|] eqn:Er; [|done].
    intros [= <- <-]. split; [|split; [apply lookup_insert_eq|done]].
    apply counts_setGame; [|done].
    intros row' Hrow'. rewrite Er in Hrow'. injection Hrow' as <-.
    destruct (Hd _ _ Er) as [-> _]. apply rel_refl.
Qed.

Lemma counts_create_game socket data genId ok s :
  countsRelated rel s →
  countsRelated rel (fst (create_game socket data genId ok s)).
Proof.
  intros Hs. unfold create_game, GameDatabase.createGame.
  destruct (games s !! c_gameId data) eqn:E; [done|].
  destruct ok; [|done]. simpl.
  intros k g' row'. simpl.
  destruct (decide (k = c_gameId data)) as [->|Hk].
  - rewrite !lookup_insert_eq. intros [= <-] [= <-]. apply rel_refl.
  - rewrite !lookup_insert_ne by done. apply Hs.
Qed.

Lemma counts_join_game socket data genId okLoad s :
  serverOk s → countsRelated rel s →
  countsRelated rel
    (fst (join_game socket data genId okLoad true true s)).
Proof.
  intros Hok Hs. unfold join_game.
  destruct (loadGame okLoad (j_gameId data) s) as [[game s1]|] eqn:E;
    [|done].
  destruct (counts_loadGame _ _ _ _ _ Hok Hs E) as (Hs1 & Hgame & Htbl).
  destruct (4 <=? length (g_players game))%nat; [done|].
  destruct (negb _); [done|].
  unfold GameDatabase.addPlayerToGame, GameDatabase.getGame. simpl.
  rewrite Htbl.
  destruct (games s !! j_gameId data) as [row|] eqn:Er.
  - intros k g' row'. simpl.
    destruct (decide (k = j_gameId data)) as [->|Hk].
    + rewrite !lookup_insert_eq. intros [= <-] [= <-]. simpl.
      rewrite !length_app. simpl. rewrite !Nat.add_1_r. apply rel_S.
      destruct Hok as [_ Hd]. destruct (Hd _ _ Er) as [<- _].
      apply (Hs1 (j_gameId data)); [done|]. by rewrite Htbl.
    + rewrite !lookup_insert_ne by done. rewrite <- Htbl.
      apply (Hs1 k).
  - intros k g' row'. simpl.
    destruct (decide (k = j_gameId data)) as [->|Hk].
    + rewrite Er. by intros _ [=].
    + rewrite lookup_insert_ne by done. rewrite <- Htbl. apply (Hs1 k).
Qed.

Lemma counts_exit_game socket ok s :
  lossy → countsRelated rel s → countsRelated rel (exit_game socket ok s).
Proof.
  intros Hlossy Hs. unfold exit_game.
  destruct (players s !! socket) as [info|]; [|done].
  destruct (activeGameStates s !! gameId info) as [game|] eqn:E; [|done].
  destruct (exitGame (playerId info) game) as [game'|] eqn:Ex.
  - apply (counts_setGame (gameId info) game' s); [|done].
    intros row Hrow.
    apply (rel_down Hlossy (length (g_players game))).
    + by eapply length_g_players_exitGame.
    + by apply (Hs (gameId info)).
  - by apply (counts_closeGame (gameId info) ok s).
Qed.

Lemma counts_hourly_cleanup o s :
  countsRelated rel s → countsRelated rel (hourly_cleanup o s).
Proof.
  unfold hourly_cleanup, GameDatabase.cleanupStaleOpenGames,
    GameDatabase.cleanupAbandonedGames.
  pose proof (lookup_sweep (GameDatabase.isStaleOpen (staleExpired o))
                (okStaleSelect o) (okStaleDelete o) (games s)) as H1.
  destruct (GameDatabase.sweep _ _ _ (games s)) as [c1 tbl1]. simpl in H1.
  pose proof (lookup_sweep (GameDatabase.isAbandoned (abandonedExpired o))
                (okAbandonedSelect o) (okAbandonedDelete o) tbl1) as H2.
  destruct (GameDatabase.sweep _ _ _ tbl1) as [c2 tbl2]. simpl in H2.
  pose proof (lookup_cleanupOldGames (finishedExpired o)
                (okFinishedDelete o) tbl2) as H3.
  assert (Hrows : ∀ k row',
            GameDatabase.cleanupOldGames (finishedExpired o)
              (okFinishedDelete o) tbl2 !! k = Some row' →
            ∃ row, games s !! k = Some row
                   ∧ current_players row' = current_players row)
    by (intros k row' Hk; exists row'; eauto).
  destruct (removedSome c1 || removedSome c2);
    apply counts_mono; simpl; try done; [|by eauto].
  intros k g' Hk. apply map_lookup_filter_Some in Hk as [Hk _]. by eauto.
Qed.

Lemma counts_step s e :
  serverOk s → countsRelated rel s →
  joinStored e = true → isExit e = false ∨ lossy →
  countsRelated rel (step s e).
Proof.
  intros Hok Hs Hjoin Hexit.
  destruct e as [socket data genId ok|socket data genId okLoad okGet okUpdate
                |gid okLoad|socket ok|socket ok|socket mp|socket d|socket
                |gid rnd ok|rnd|gid ok|o|expired ok]; simpl.
  - by apply counts_create_game.
  - simpl in Hjoin. apply andb_true_iff in Hjoin as [-> ->].
    by apply counts_join_game.
  - unfold get_game_state. destruct (negb _); [done|].
    destruct (loadGame _ _ _) as [[game s1]|] eqn:E; [|done].
    by destruct (counts_loadGame _ _ _ _ _ Hok Hs E).
  - unfold start_game.
    destruct (players s !! socket) as [info|]; [|done].
    destruct (activeGameStates s !! gameId info) as [game|] eqn:E; [|done].
    destruct (negb _); [done|]. destruct (_ <? _)%nat; [done|]. simpl.
    apply (counts_status ok (gameId info) playing
             (setGame (gameId info) _ s)).
    by apply (counts_same_length _ game).
  - destruct Hexit as [Hexit|Hlossy]; [done|]. by apply counts_exit_game.
  - unfold update_market_prices.
    destruct (players s !! socket) as [info|]; [|done].
    destruct (activeGameStates s !! gameId info) as [game|] eqn:E; [|done].
    destruct (negb _); [done|]. destruct (negb _); [done|].
    destruct mp; [|done]. by apply (counts_same_length _ game).
  - unfold player_action.
    destruct (players s !! socket) as [info|]; [|done].
    destruct (activeGameStates s !! gameId info) as [game|] eqn:E; [|done].
    destruct (negb _); [done|]. destruct (findPlayer _ _); [|done].
    apply (counts_same_length _ game); [done| |done].
    apply length_g_players_playerAction.
  - unfold disconnect.
    destruct (players s !! socket) as [info|]; [|done].
    destruct (activeGameStates s !! gameId info) as [game|] eqn:E; [|done].
    apply (counts_same_length (gameId info) game
             (disconnectGame (playerId info) game) s); [done| |done].
    apply length_g_players_disconnectGame.
  - unfold timer_tick.
    destruct (activeGameStates s !! gid) as [game|] eqn:E; [|done].
    destruct (negb _); [done|].
    pose proof (g_players_tickGame rnd game) as Hps.
    destruct (tickGame rnd game) as [game' fin]. simpl in Hps.
    assert (countsRelated rel (setGame gid game' s)) as Hs1
      by (apply (counts_same_length _ game); [done|by rewrite Hps|done]).
    destruct fin; [|done].
    by apply (counts_status ok gid finished (setGame gid game' s)).
  - revert Hs. apply counts_mono; simpl; [|by eauto].
    intros k g'. rewrite map_lookup_imap.
    destruct (activeGameStates s !! k) as [g0|]; [|done]. simpl.
    intros [= <-]. exists g0. split; [done|]. by case_bool_decide.
  - by apply counts_closeGame.
  - by apply counts_hourly_cleanup.
  - intros k g' row'. simpl. by rewrite lookup_empty.
Qed.

Lemma counts_run es : ∀ s,
  serverOk s → countsRelated rel s →
  Forall (λ e, joinStored e = true) es →
  Forall (λ e, isExit e = false) es ∨ lossy →
  countsRelated rel (run es s).
Proof.
  induction es as [|e es IH]; intros s Hok Hs Hjoin Hexit; [done|].
  simpl. apply Forall_cons in Hjoin as [He Hes].
  apply IH; [by apply serverOk_step| |done|].
  - apply counts_step; [done|done|done|].
    destruct Hexit as [Hexit|Hlossy]; [|by right].
    left. by apply Forall_cons in Hexit as [? _].
  - destruct Hexit as [Hexit|Hlossy]; [|by right].
    left. by apply Forall_cons in Hexit as [_ ?].
Qed.

End Counts.

Lemma reachable_is_run s : reachable s → ∃ es, s = run es emptyServer.
Proof.
  induction 1 as [|s e _ [es ->]]; [by exists []|].
  exists (es ++ [e]). unfold run. by rewrite foldl_app.
Qed.

Lemma serverOk_run es : serverOk (run es emptyServer).
Proof.
  assert (∀ s, serverOk s → serverOk (run es s)) as H.
  { induction es as [|e es IH]; intros s Hs; [done|].
    simpl. by apply IH, serverOk_step. }
  apply H. split; apply map_Forall_empty.
Qed.


(** ** The example session *)

Lemma reachable_startedServer : reachable startedServer.
Proof. apply reachable_run. constructor. Qed.

Lemma startedServer_game :
  activeGameStates startedServer !! "G1"%string = Some startedGame.
Proof. vm_compute. reflexivity. Qed.

Lemma waitingGame_loaded :
  loadGame true "G1" (run [aliceCreates] emptyServer)
  = Some (waitingGame, run [aliceCreates] emptyServer).
Proof. vm_compute. reflexivity. Qed.

(** Alice and Bob tie; Alice, who joined first, wins. *)
Example tiedGame_winner :
  winner (finishGame tiedGame) = Some (mkScored alice 1000)
  ∧ (map (λ a, (pname (sp_player a), finalScore a))
       <$> finalScores (finishGame tiedGame))
    = Some [("Alice"%string, 1000); ("Bob"%string, 1000);
            ("Carol"%string, 900)].
Proof. vm_compute. done. Qed.

(** ** Where the code departs from the specification *)

(** C1 (the code departs from it).  The claim: an action whose
    precondition is unmet changes nothing and logs nothing, and in
    particular a Sabotage by a player with 100 tokens or more against a
    target holding less than [amount] leaves the tokens of the actor
    unchanged.  In the started game of Alice and Bob, Alice (1000
    tokens) sabotages one unit of the gold of Bob, who has none: nothing
    is logged and Bob is untouched, but Alice is left with 900
    tokens. *)
Theorem sabotage_on_short_target_charges_actor :
  let after := step startedServer (EvPlayerAction "socketA" sabotageBob) in
  reachable startedServer
  ∧ activeGameStates startedServer !! "G1"%string = Some startedGame
  ∧ findPlayer "walletA" (g_players startedGame) = Some (0%nat, alice)
  ∧ findPlayer "walletB" (g_players startedGame) = Some (1%nat, bob)
  ∧ tokens alice = 1000
  ∧ getKey (assets bob) "gold" = Some 0
  ∧ activeGameStates after !! "G1"%string
    = Some (set_players [set_tokens 900 alice; bob] startedGame)
  ∧ set_players [set_tokens 900 alice; bob] startedGame ≠ startedGame.
Proof.
  split; [apply reachable_startedServer|].
  split; [apply startedServer_game|].
  repeat split; try (vm_compute; reflexivity).
  intros H. apply (f_equal g_players) in H. discriminate H.
Qed.

(** C3 (the code departs from it).  The claim: in every reachable state
    [host] is the id of a member of [players] who has not exited, unless
    every player has exited.  Alice creates a game, Bob joins, Alice
    issues [exit-game]: the session stays open with Bob, who has not
    exited, as its only player, and [host] is still the id of Alice,
    who is no longer in [players]. *)
Theorem host_dangles_after_host_exit :
  let s := run [aliceCreates; bobJoins; EvExitGame "socketA" true]
               emptyServer in
  reachable s
  ∧ ∃ g, activeGameStates s !! "G1"%string = Some g
      ∧ g_players g = [bob]
      ∧ hasExited g (pid bob) = false
      ∧ host g = Some "walletA"%string
      ∧ ¬ hostResolves g.
Proof.
  split; [apply reachable_run; constructor|].
  eexists. split; [vm_compute; reflexivity|].
  split; [reflexivity|]. split; [vm_compute; reflexivity|].
  split; [reflexivity|].
  intros (p & Hin & Hhost & _). simpl in Hin, Hhost.
  apply list_elem_of_singleton in Hin. subst p. discriminate Hhost.
Qed.

(** ** Counterexamples to the claims as written *)

(** C2 as written fails: 60 firings after the start of the first round
    the timer shows zero and no round delay is active. *)
Lemma round_delay_not_active_after_60_ticks :
  status startedGame = playing
  ∧ timerActive startedGame = true
  ∧ timeRemaining startedGame = mkTime 0 1 0
  ∧ roundDelay (ticks (replicate 60 halves) startedGame) = None
  ∧ timeRemaining (ticks (replicate 60 halves) startedGame) = mkTime 0 0 0
  ∧ active <$> roundDelay (ticks (replicate 60 halves) startedGame)
    ≠ Some true.
Proof. repeat split; try (vm_compute; reflexivity). vm_compute. discriminate. Qed.


(** A [join-game] whose store write fails leaves the row one player
    behind the session. *)
Lemma persisted_count_behind_after_failed_write :
  let s := run [aliceCreates;
                EvJoinGame "socketB"
                  (mkJoin "G1" "Bob" (Some "walletB"%string))
                  "player_b" true true false]
               emptyServer in
  ∃ row g, games s !! "G1"%string = Some row
      ∧ activeGameStates s !! "G1"%string = Some g
      ∧ current_players row = 1%nat
      ∧ length (g_players g) = 2%nat.
Proof. eexists _, _. repeat split; vm_compute; reflexivity. Qed.

(** C7 as written fails in its account of the credit: at a cost of
    1700000000000001, with every number a safe integer, the Sell
    credits 1360000000000001, one more than [floor(0.8 * cost)]. *)
Lemma sell_credit_is_one_above_the_floor :
  reachable richServer
  ∧ ∃ g player player2,
      activeGameStates richServer !! "G1"%string = Some g
      ∧ findPlayer "walletA" (g_players g) = Some (0%nat, player)
      ∧ getResource (marketPrices g) Gold * amount buyOneGold
        = 1700000000000001
      ∧ tokens player = 3200000000000900
      ∧ tokens player ≤ MAX_SAFE_INTEGER
      ∧ activeGameStates
          (run [EvPlayerAction "socketA" buyOneGold;
                EvPlayerAction "socketA" sellOneGold] richServer)
        !! "G1"%string
        = Some (playerAction "walletA" sellOneGold
                  (playerAction "walletA" buyOneGold g))
      ∧ findPlayer "walletA"
          (g_players (playerAction "walletA" sellOneGold
                        (playerAction "walletA" buyOneGold g)))
        = Some (0%nat, player2)
      ∧ tokens player2
        = tokens player - 1700000000000001 + 1360000000000001
      ∧ (4 * 1700000000000001) / 5 = 1360000000000000
      ∧ tokens player2
        ≠ tokens player - 1700000000000001 + (4 * 1700000000000001) / 5.
Proof.
  split; [apply reachable_run, reachable_startedServer|].
  eexists _, _, _.
  split; [vm_compute; reflexivity|].
  split; [vm_compute; reflexivity|].
  split; [vm_compute; reflexivity|].
  split; [vm_compute; reflexivity|].
  split; [vm_compute; discriminate|].
  split; [vm_compute; reflexivity|].
  split; [vm_compute; reflexivity|].
  split; [vm_compute; reflexivity|].
  split; [vm_compute; reflexivity|].
  vm_compute. discriminate.
Qed.

(** C9 as written fails: no draw makes an indicator change by +20. *)
Lemma change_of_plus_20_is_never_drawn :
  ¬ ∃ rnd, (∀ i, unitDraw (rnd i))
      ∧ ∃ m, m ∈ marketChanges (tick rnd endOfDelay) ∧ change m = 20.
Proof.
  intros (rnd & Hrnd & m & Hin & Hm).
  rewrite (tick_new_round_changes rnd endOfDelay 1) in Hin
    by (try reflexivity; vm_compute; congruence).
  apply list_elem_of_lookup in Hin as [i Hi].
  rewrite lookup_newRoundChanges in Hi.
  destruct (marketChanges endOfDelay !! i); [|done].
  injection Hi as <-. simpl in Hm.
  pose proof (randomChange_range (rnd i) (Hrnd i)). lia.
Qed.

(** ** Instances *)

Lemma buy_then_sell_witness :
  ∃ player2,
    findPlayer "walletA"
      (g_players (playerAction "walletA" sellGold
                    (playerAction "walletA" buyGold startedGame)))
    = Some (0%nat, player2)
    ∧ tokens player2 = 1000 - 200 + 160
    ∧ tokens player2 < 1000
    ∧ assets player2 = assets alice.
Proof.
  destruct (buy_then_sell_loses_tokens startedGame "walletA" 0 alice
              buyGold sellGold Gold)
    as (player2 & Hfind & Htokens & _ & _ & _ & _ & Hlt & Hassets & _);
    [reflexivity | reflexivity | reflexivity | reflexivity | reflexivity
    | reflexivity | vm_compute; discriminate | vm_compute; discriminate
    | vm_compute; discriminate | vm_compute; discriminate
    | vm_compute; discriminate | vm_compute; discriminate | ].
  exists player2. split; [exact Hfind|]. split; [exact Htokens|].
  split; [exact Hlt|exact Hassets].
Defined.

Lemma round_timer_witness :
  roundDelay (ticks (replicate 61 halves) startedGame)
  = Some (mkRoundDelay true 10)
  ∧ currentRound (ticks (replicate 10 halves)
                    (ticks (replicate 61 halves) startedGame)) = 1 + 1.
Proof.
  pose proof (round_timer_schedule startedGame (replicate 61 halves)
                (replicate 10 halves) eq_refl eq_refl eq_refl eq_refl
                eq_refl) as (_ & _ & H61 & _ & _ & Hnext & _).
  split; [exact H61|]. apply Hnext. reflexivity.
Defined.



Lemma host_failover_witness :
  host (disconnectGame "walletA" startedGame) = Some "walletB"%string.
Proof.
  destruct (proj1 disconnect_host_failover startedGame "walletA"%string
              eq_refl) as [H _].
  apply (H [set_connected false alice] bob []);
    [reflexivity | repeat constructor | reflexivity].
Defined.

Lemma join_game_witness :
  snd (join_game "socketB" (mkJoin "G1" "Bob" (Some "walletB"%string))
         "player_b" true true true (run [aliceCreates] emptyServer))
  = [EmitGameJoined "G1" "walletB"].
Proof.
  destruct (join_game_rejects_full_or_started "socketB"
              (mkJoin "G1" "Bob" (Some "walletB"%string)) "player_b"
              true true true (run [aliceCreates] emptyServer)
              waitingGame (run [aliceCreates] emptyServer)
              waitingGame_loaded) as (_ & _ & H & _).
  destruct H as [H _]; [simpl; lia | reflexivity | exact H].
Defined.

Lemma new_round_changes_witness :
  ∃ m, marketChanges (tick halves endOfDelay) !! 0%nat = Some m
       ∧ change m = randomChange (halves 0%nat)
       ∧ -20 ≤ change m ≤ 19.
Proof.
  destruct (new_round_changes_range halves endOfDelay 1) as [H _];
    first [reflexivity | vm_compute; discriminate
          | intros i; unfold unitDraw, halves, Qle, Qlt; simpl; lia
          | idtac].
  exists (mkMarketChange "gold" 0 "0%"). split; [vm_compute; reflexivity|].
  apply (H 0%nat). vm_compute. reflexivity.
Defined.

Lemma update_market_prices_witness :
  ∃ game',
    activeGameStates
      (update_market_prices "socketA"
         (Some (mkPayload (Some 120) (Some 0) None)) startedServer)
    !! "G1"%string = Some game'
    ∧ gold (marketPrices game') = 120
    ∧ water (marketPrices game') = 50
    ∧ oil (marketPrices game') = 150.
Proof.
  destruct (update_market_prices_skips_falsy startedServer "socketA"
              (mkInfo "G1" "walletA" "Alice") startedGame
              (mkPayload (Some 120) (Some 0) None))
    as (game' & Hstored & _ & Hw & Ho & Hg & _);
    try (vm_compute; reflexivity).
  exists game'. split; [exact Hstored|].
  split; [by apply Hg|]. split; [by apply Hw|by apply Ho].
Defined.

(** * Further properties *)

(** ** Invariants in general *)

Lemma create_game_fresh socket data genId s :
  games s !! c_gameId data = None →
  create_game socket data genId true s
  = (bindSocket socket
       (mkInfo (c_gameId data) (choosePlayerId (c_walletAddress data) genId)
               (c_playerName data))
       (setGame (c_gameId data) (createdState socket data genId)
          (setTable (<[c_gameId data := createdRow socket data genId]>
                       (games s)) s)),
     [EmitGameCreated (c_gameId data)
        (choosePlayerId (c_walletAddress data) genId);
      EmitAfter 200 (EmitGameState (createdState socket data genId))]).
Proof.
  intros Hfree. unfold create_game, GameDatabase.createGame.
  by rewrite Hfree.
Qed.

Lemma create_game_refused socket data genId ok s :
  ok = false ∨ is_Some (games s !! c_gameId data) →
  create_game socket data genId ok s
  = (s, [EmitError "Failed to create game"]).
Proof.
  intros H. unfold create_game, GameDatabase.createGame.
  destruct (games s !! c_gameId data) as [row|]; [done|].
  destruct H as [->|[? ?]]; done.
Qed.

Section Invariant.

Variable P : Game → Prop.
Variable R : DbGame → Prop.
Hypothesis HPR : Preserved P R.

Lemma inv_setGame gid g s : serverInv P R s → P g → serverInv P R (setGame gid g s).
Proof. intros [Hm Hd] Hg. split; [|done]. by apply map_Forall_insert_2. Qed.

Lemma inv_rows_status ok gid st tbl :
  map_Forall (λ _ row, R row) tbl →
  map_Forall (λ _ row, R row) (GameDatabase.updateGameStatus ok gid st tbl).
Proof.
  intros Hd. unfold GameDatabase.updateGameStatus.
  destruct (ok && GameDatabase.statusAllowed st); [|done].
  intros k row. rewrite lookup_alter. case_decide; [|apply Hd].
  destruct (tbl !! gid) as [row0|] eqn:E; [|done].
  intros [= <-]. apply (pres_row_status P R HPR row0 st). exact (Hd _ _ E).
Qed.

Lemma inv_rows_player okGet okUpdate gid a b c d tbl :
  map_Forall (λ _ row, R row) tbl →
  map_Forall (λ _ row, R row)
    (GameDatabase.addPlayerToGame okGet okUpdate gid (createPlayer a b c d) tbl).
Proof.
  intros Hd. unfold GameDatabase.addPlayerToGame, GameDatabase.getGame.
  destruct okGet; [|done].
  destruct (tbl !! gid) as [row|] eqn:E; [|done].
  destruct okUpdate; [|done].
  apply map_Forall_insert_2; [|done].
  apply (pres_row_player P R HPR row). exact (Hd _ _ E).
Qed.

Lemma inv_rows_filter (Q : string * DbGame → Prop)
    `{!∀ kv, Decision (Q kv)} (tbl : gmap string DbGame) :
  map_Forall (λ _ row, R row) tbl →
  map_Forall (λ _ row, R row) (filter Q tbl).
Proof.
  intros Hall k row Hk. apply map_lookup_filter_Some in Hk as [Hk _]. eauto.
Qed.

Lemma inv_rows_sweep matches okSelect okDelete tbl :
  map_Forall (λ _ row, R row) tbl →
  map_Forall (λ _ row, R row)
             (snd (GameDatabase.sweep matches okSelect okDelete tbl)).
Proof.
  intros Hd. unfold GameDatabase.sweep.
  destruct okSelect; [|done]. destruct (0 <? _)%nat; [|done].
  destruct okDelete; [|done]. simpl. by apply inv_rows_filter.
Qed.

Lemma inv_rows_old expired ok tbl :
  map_Forall (λ _ row, R row) tbl →
  map_Forall (λ _ row, R row) (GameDatabase.cleanupOldGames expired ok tbl).
Proof.
  intros Hd. unfold GameDatabase.cleanupOldGames.
  destruct ok; [|done]. by apply inv_rows_filter.
Qed.

Lemma inv_closeGame gid ok s : serverInv P R s → serverInv P R (closeGame gid ok s).
Proof.
  intros [Hm Hd]. split; simpl.
  - by apply map_Forall_delete.
  - by apply inv_rows_status.
Qed.

Lemma inv_loadGame okLoad gid s game s1 :
  serverInv P R s →
  loadGame okLoad gid s = Some (game, s1) → P game ∧ serverInv P R s1.
Proof.
  intros Hs. unfold loadGame, GameDatabase.getGame.
  destruct (activeGameStates s !! gid) as [g0|] eqn:E.
  - intros [= <- <-]. split; [|done]. destruct Hs as [Hm _]. exact (Hm _ _ E).
  - destruct okLoad; [|done].
    destruct (games s !! gid) as [row|] eqn:Er; [|done].
    intros [= <- <-].
    assert (P (reconstruct row)) as Hg.
    { apply (pres_rebuilt P R HPR). destruct Hs as [_ Hd]. exact (Hd _ _ Er). }
    split; [done|]. by apply inv_setGame.
Qed.

Lemma inv_step s e : serverInv P R s → serverInv P R (step s e).
Proof.
  intros Hs. pose proof Hs as [Hm Hd].
  destruct e as [socket data genId ok|socket data genId okLoad okGet okUpdate
                |gid okLoad|socket ok|socket ok|socket mp|socket d|socket
                |gid rnd ok|rnd|gid ok|o|expired ok]; simpl.
  - (* create-game *)
    destruct ok; [|by rewrite create_game_refused by (by left)].
    destruct (games s !! c_gameId data) as [row|] eqn:E;
      [by rewrite create_game_refused by (right; by eexists)|].
    rewrite create_game_fresh by done. simpl.
    destruct (pres_created P R HPR socket data genId) as [HP1 HR1].
    split; simpl; by apply map_Forall_insert_2.
  - (* join-game *)
    unfold join_game.
    destruct (loadGame okLoad (j_gameId data) s) as [[game s1]|] eqn:E; [|done].
    destruct (inv_loadGame _ _ _ _ _ Hs E) as [Hg [Hm1 Hd1]].
    destruct (4 <=? length (g_players game))%nat; [done|].
    destruct (negb _); [done|]. simpl. split; simpl.
    + apply map_Forall_insert_2; [|done]. by apply (pres_joined P R HPR).
    + by apply inv_rows_player.
  - (* get-game-state *)
    unfold get_game_state. destruct (negb _); [done|].
    destruct (loadGame _ _ _) as [[game s1]|] eqn:E; [|done].
    by destruct (inv_loadGame _ _ _ _ _ Hs E).
  - (* start-game *)
    unfold start_game.
    destruct (players s !! socket) as [info|]; [|done].
    destruct (activeGameStates s !! gameId info) as [game|] eqn:E; [|done].
    destruct (negb _); [done|]. destruct (_ <? _)%nat; [done|]. simpl.
    split; simpl.
    + apply map_Forall_insert_2; [|done].
      apply (pres_started P R HPR). exact (Hm _ _ E).
    + by apply inv_rows_status.
  - (* exit-game *)
    unfold exit_game.
    destruct (players s !! socket) as [info|]; [|done].
    destruct (activeGameStates s !! gameId info) as [game|] eqn:E; [|done].
    destruct (exitGame (playerId info) game) as [game'|] eqn:Ex.
    + split; simpl; [|done]. apply map_Forall_insert_2; [|done].
      eapply (pres_exited P R HPR); [|exact Ex]. exact (Hm _ _ E).
    + destruct (inv_closeGame (gameId info) ok s Hs) as [Hm1 Hd1].
      by split.
  - (* update-market-prices *)
    unfold update_market_prices.
    destruct (players s !! socket) as [info|]; [|done].
    destruct (activeGameStates s !! gameId info) as [game|] eqn:E; [|done].
    destruct (negb _); [done|]. destruct (negb _); [done|].
    destruct mp as [mp|]; [|done]. apply inv_setGame; [done|].
    apply (pres_priced P R HPR). exact (Hm _ _ E).
  - (* player-action *)
    unfold player_action.
    destruct (players s !! socket) as [info|]; [|done].
    destruct (activeGameStates s !! gameId info) as [game|] eqn:E; [|done].
    destruct (negb _); [done|]. destruct (findPlayer _ _); [|done].
    apply inv_setGame; [done|].
    apply (pres_acted P R HPR). exact (Hm _ _ E).
  - (* disconnect *)
    unfold disconnect.
    destruct (players s !! socket) as [info|]; [|done].
    destruct (activeGameStates s !! gameId info) as [game|] eqn:E; [|done].
    split; simpl; [|done]. apply map_Forall_insert_2; [|done].
    apply (pres_disconnected P R HPR). exact (Hm _ _ E).
  - (* timer *)
    unfold timer_tick.
    destruct (activeGameStates s !! gid) as [game|] eqn:E; [|done].
    destruct (negb _); [done|].
    pose proof (pres_ticked P R HPR game rnd (Hm _ _ E)) as Hg.
    destruct (tickGame rnd game) as [game' fin]. simpl in Hg.
    destruct fin; split; simpl; try done;
      try (by apply map_Forall_insert_2).
    by apply inv_rows_status.
  - (* market fluctuation *)
    split; [|done]. simpl. intros gid g. rewrite map_lookup_imap.
    destruct (activeGameStates s !! gid) as [g0|] eqn:E; [|done]. simpl.
    intros [= <-]. case_bool_decide; [|exact (Hm _ _ E)].
    apply (pres_fluctuated P R HPR). exact (Hm _ _ E).
  - (* inactivity *)
    by apply inv_closeGame.
  - (* hourly cleanup *)
    unfold hourly_cleanup, GameDatabase.cleanupStaleOpenGames,
      GameDatabase.cleanupAbandonedGames.
    pose proof (inv_rows_sweep (GameDatabase.isStaleOpen (staleExpired o))
                  (okStaleSelect o) (okStaleDelete o) (games s) Hd) as H1.
    destruct (GameDatabase.sweep _ _ _ (games s)) as [c1 tbl1]. simpl in H1.
    pose proof (inv_rows_sweep (GameDatabase.isAbandoned (abandonedExpired o))
                  (okAbandonedSelect o) (okAbandonedDelete o) tbl1 H1) as H2.
    destruct (GameDatabase.sweep _ _ _ tbl1) as [c2 tbl2]. simpl in H2.
    pose proof (inv_rows_old (finishedExpired o) (okFinishedDelete o)
                  tbl2 H2) as H3.
    destruct (removedSome c1 || removedSome c2); split; simpl; try done.
    intros k g Hk. apply map_lookup_filter_Some in Hk as [Hk _]. eauto.
  - (* restart *)
    split; simpl; [apply map_Forall_empty|]. by apply inv_rows_old.
Qed.

Lemma inv_reachable s : reachable s → serverInv P R s.
Proof.
  induction 1 as [|s e _ IH]; [|by apply inv_step].
  split; apply map_Forall_empty.
Qed.

End Invariant.

(** ** What the handlers leave alone *)

Lemma fmap_resource_alter (f : MarketChange → MarketChange) j
    (mcs : list MarketChange) :
  (∀ m, resource (f m) = resource m) →
  resource <$> alter f j mcs = resource <$> mcs.
Proof.
  intros Hf. apply list_eq. intros k. rewrite !list_lookup_fmap.
  rewrite list_lookup_alter. destruct (decide (j = k)) as [->|]; [|done].
  destruct (mcs !! k); [|done]. simpl. by rewrite Hf.
Qed.

(** The switch touches the players and the indicators only, and keeps
    the resource of every indicator. *)
Lemma actionSwitch_fields i player d g :
  let g1 := fst (actionSwitch i player d g) in
  currentRound g1 = currentRound g
  ∧ maxRounds g1 = maxRounds g
  ∧ timeRemaining g1 = timeRemaining g
  ∧ marketPrices g1 = marketPrices g
  ∧ recentActions g1 = recentActions g
  ∧ actionHistory g1 = actionHistory g
  ∧ status g1 = status g
  ∧ host g1 = host g
  ∧ timerActive g1 = timerActive g
  ∧ roundDelay g1 = roundDelay g
  ∧ resource <$> marketChanges g1 = resource <$> marketChanges g.
Proof.
  unfold actionSwitch, caseBuy, caseSell, caseBurn, caseSabotage.
  repeat match goal with
  | |- context [if ?b then _ else _] => destruct b
  | |- context [match ?o with Some _ => _ | None => _ end] =>
      destruct o as [[]|] || destruct o
  end; simpl; repeat split; try reflexivity;
  by apply fmap_resource_alter.
Qed.

Lemma playerAction_fields playerId d g :
  let g' := playerAction playerId d g in
  currentRound g' = currentRound g
  ∧ maxRounds g' = maxRounds g
  ∧ timeRemaining g' = timeRemaining g
  ∧ marketPrices g' = marketPrices g
  ∧ actionHistory g' = actionHistory g
  ∧ status g' = status g
  ∧ host g' = host g
  ∧ timerActive g' = timerActive g
  ∧ roundDelay g' = roundDelay g
  ∧ resource <$> marketChanges g' = resource <$> marketChanges g
  ∧ (recentActions g' = recentActions g
     ∨ ∃ text, recentActions g' = take 10 (text :: recentActions g)).
Proof.
  unfold playerAction.
  destruct (findPlayer playerId (g_players g)) as [[i player]|];
    [|simpl; repeat split; try done; by left].
  pose proof (actionSwitch_fields i player d g) as H.
  destruct (actionSwitch i player d g) as [g1 text]. simpl in H.
  destruct H as (H1 & H2 & H3 & H4 & H5 & H6 & H7 & H8 & H9 & H10 & H11).
  unfold logAction. destruct (truthy_string text); simpl;
    repeat split; try done; [right; exists text; by rewrite H5|by left].
Qed.

Lemma tickGame_fields rnd g :
  let g' := fst (tickGame rnd g) in
  maxRounds g' = maxRounds g
  ∧ g_players g' = g_players g
  ∧ marketPrices g' = marketPrices g
  ∧ host g' = host g
  ∧ exitedPlayers g' = exitedPlayers g
  ∧ gameName g' = gameName g
  ∧ isPrivate g' = isPrivate g.
Proof.
  unfold tickGame, startNextRound, countdown, finishGame.
  repeat match goal with
  | |- context [if ?b then _ else _] => destruct b
  | |- context [match ?o with Some _ => _ | None => _ end] => destruct o
  end; simpl; repeat split; reflexivity.
Qed.

Lemma disconnectGame_fields playerId g :
  let g' := disconnectGame playerId g in
  currentRound g' = currentRound g
  ∧ marketPrices g' = marketPrices g
  ∧ marketChanges g' = marketChanges g
  ∧ recentActions g' = recentActions g
  ∧ actionHistory g' = actionHistory g
  ∧ status g' = status g.
Proof.
  unfold disconnectGame.
  destruct (findPlayer playerId (g_players g)) as [[i p]|]; simpl;
    case_bool_decide; try done;
    match goal with |- context [filter ?P ?l] => destruct (filter P l) end;
    done.
Qed.

Lemma exitGame_fields playerId g g' :
  exitGame playerId g = Some g' →
  currentRound g' = currentRound g
  ∧ marketPrices g' = marketPrices g
  ∧ marketChanges g' = marketChanges g
  ∧ recentActions g' = recentActions g
  ∧ actionHistory g' = actionHistory g
  ∧ status g' = status g
  ∧ host g' = host g.
Proof.
  unfold exitGame. destruct (allPlayersExited _); [done|].
  by intros [= <-].
Qed.

(** ** The log and its archive *)

Lemma length_take_cons_10 (text : string) (l : list string) :
  (length (take 10 (text :: l)) ≤ 10)%nat.
Proof. rewrite length_take. lia. Qed.

Lemma logBounded_tick rnd g : logBounded g → logBounded (fst (tickGame rnd g)).
Proof.
  intros [Hlen Hhist]. unfold tickGame.
  destruct (timerActive g); [|done]. simpl.
  assert (logBounded (countdown g)) as Hcount.
  { unfold countdown. destruct (_ <? 0); by split. }
  destruct (roundDelay g) as [rd|]; [|done].
  destruct (active rd); [|done].
  destruct (rd_timeRemaining rd - 1 <=? 0); [|by split].
  unfold startNextRound. simpl.
  set (h := if (0 <? length (recentActions g))%nat
            then <[currentRound g := recentActions g]> (actionHistory g)
            else actionHistory g).
  assert (map_Forall (λ k l, k < currentRound g + 1 ∧ l ≠ []
                              ∧ (length l ≤ 10)%nat) h) as Hh.
  { unfold h. destruct (Nat.ltb_spec 0 (length (recentActions g))) as [Hpos|].
    - apply map_Forall_insert_2.
      + split; [lia|]. split; [|done].
        intros E. rewrite E in Hpos. simpl in Hpos. lia.
      + eapply map_Forall_impl; [exact Hhist|]. simpl. intros k l (? & ? & ?).
        split; [lia|done].
    - eapply map_Forall_impl; [exact Hhist|]. simpl. intros k l (? & ? & ?).
      split; [lia|done]. }
  destruct (0 <? length (recentActions g))%nat; simpl;
    destruct (_ >? _); simpl; split; simpl; try lia; exact Hh.
Qed.

Lemma logBounded_Preserved :
  Preserved logBounded (λ row, logBounded (game_state row)).
Proof.
  split.
  - intros socket data genId. split; (split; [simpl; lia|apply map_Forall_empty]).
  - intros row H. exact H.
  - intros row a b c d H. exact H.
  - intros row st H. exact H.
  - intros g a b c d H. exact H.
  - intros g H. exact H.
  - intros g playerId g' H Hex.
    destruct (exitGame_fields _ _ _ Hex) as (H1 & _ & _ & H4 & H5 & _).
    unfold logBounded. by rewrite H1, H4, H5.
  - intros g mp H. exact H.
  - intros g playerId d [Hlen Hhist].
    destruct (playerAction_fields playerId d g)
      as (H1 & _ & _ & _ & H5 & _ & _ & _ & _ & _ & Hlog).
    unfold logBounded. rewrite H1, H5. split; [|done].
    destruct Hlog as [->|[text ->]]; [done|apply length_take_cons_10].
  - intros g playerId H.
    destruct (disconnectGame_fields playerId g) as (H1 & _ & _ & H4 & H5 & _).
    unfold logBounded. by rewrite H1, H4, H5.
  - intros g rnd H. by apply logBounded_tick.
  - intros g rnd H. exact H.
Qed.

(** X6.  In every reachable state, the log of a session holds at most 10
    entries, and every archived log of its history is non-empty, holds
    at most 10 entries and is filed under a round that is over. *)
Theorem reachable_log_bounded s gid g :
  reachable s →
  activeGameStates s !! gid = Some g →
  (length (recentActions g) ≤ 10)%nat
  ∧ (∀ k l, actionHistory g !! k = Some l →
       k < currentRound g ∧ l ≠ [] ∧ (length l ≤ 10)%nat).
Proof.
  intros Hreach Hg.
  destruct (inv_reachable _ _ logBounded_Preserved s Hreach) as [Hm _].
  destruct (Hm _ _ Hg) as [Hlen Hhist]. split; [done|].
  intros k l Hk. exact (Hhist _ _ Hk).
Qed.

(** ** Market prices and indicators *)

Lemma pricesNonzero_Preserved :
  Preserved pricesNonzero (λ row, pricesNonzero (game_state row)).
Proof.
  split; try (intros; assumption).
  - intros socket data genId. by split.
  - intros g playerId g' H Hex.
    destruct (exitGame_fields _ _ _ Hex) as (_ & H2 & _).
    unfold pricesNonzero. by rewrite H2.
  - intros g mp (Hg & Hw & Ho). unfold pricesNonzero. simpl.
    repeat split; by apply orPrice_nonzero.
  - intros g playerId d H.
    destruct (playerAction_fields playerId d g) as (_ & _ & _ & H4 & _).
    unfold pricesNonzero. by rewrite H4.
  - intros g playerId H.
    destruct (disconnectGame_fields playerId g) as (_ & H2 & _).
    unfold pricesNonzero. by rewrite H2.
  - intros g rnd H.
    destruct (tickGame_fields rnd g) as (_ & _ & H3 & _).
    unfold pricesNonzero. by rewrite H3.
Qed.

(** X7.  In every reachable state, no market price of a session in
    memory is 0. *)
Theorem reachable_prices_nonzero s gid g :
  reachable s →
  activeGameStates s !! gid = Some g →
  gold (marketPrices g) ≠ 0 ∧ water (marketPrices g) ≠ 0
  ∧ oil (marketPrices g) ≠ 0.
Proof.
  intros Hreach Hg.
  destruct (inv_reachable _ _ pricesNonzero_Preserved s Hreach) as [Hm _].
  exact (Hm _ _ Hg).
Qed.

Lemma fmap_resource_imap (f : nat → MarketChange → MarketChange)
    (mcs : list MarketChange) :
  (∀ i m, resource (f i m) = resource m) →
  resource <$> imap f mcs = resource <$> mcs.
Proof.
  intros Hf. apply list_eq. intros k.
  rewrite !list_lookup_fmap, list_lookup_imap.
  destruct (mcs !! k); [|done]. simpl. by rewrite Hf.
Qed.

Lemma indicatorsFixed_tick rnd g :
  indicatorsFixed g → indicatorsFixed (fst (tickGame rnd g)).
Proof.
  intros H. unfold indicatorsFixed in *.
  assert (resource <$> newRoundChanges rnd (marketChanges g)
          = resource <$> marketChanges g) as Hnew
    by (by apply fmap_resource_imap).
  unfold tickGame, startNextRound, countdown, finishGame.
  repeat match goal with
  | |- context [if ?b then _ else _] => destruct b
  | |- context [match ?o with Some _ => _ | None => _ end] => destruct o
  end; simpl; try done; by rewrite Hnew.
Qed.

Lemma indicatorsFixed_Preserved :
  Preserved indicatorsFixed (λ row, indicatorsFixed (game_state row)).
Proof.
  split; try (intros; assumption).
  - intros socket data genId. by split.
  - intros g playerId g' H Hex.
    destruct (exitGame_fields _ _ _ Hex) as (_ & _ & H3 & _).
    unfold indicatorsFixed. by rewrite H3.
  - intros g playerId d H.
    destruct (playerAction_fields playerId d g)
      as (_ & _ & _ & _ & _ & _ & _ & _ & _ & H10 & _).
    unfold indicatorsFixed. by rewrite H10.
  - intros g playerId H.
    destruct (disconnectGame_fields playerId g) as (_ & _ & H3 & _).
    unfold indicatorsFixed. by rewrite H3.
  - intros g rnd H. by apply indicatorsFixed_tick.
  - intros g rnd H. unfold indicatorsFixed in *. simpl.
    unfold fluctuate. by rewrite fmap_resource_imap.
Qed.

(** X9.  In every reachable state, the change indicators of a session
    are those of gold, water and oil, in that order. *)
Theorem reachable_indicators_fixed s gid g :
  reachable s →
  activeGameStates s !! gid = Some g →
  resource <$> marketChanges g = ["gold"; "water"; "oil"]%string.
Proof.
  intros Hreach Hg.
  destruct (inv_reachable _ _ indicatorsFixed_Preserved s Hreach) as [Hm _].
  exact (Hm _ _ Hg).
Qed.

(** ** What the store keeps of a session *)

Lemma creationSnapshot_Preserved : Preserved (λ _, True) creationSnapshot.
Proof.
  split; try done.
  - intros socket data genId. split; [done|].
    exists (createdPlayer socket data genId), []. simpl.
    split; [done|]. split; [done|].
    unfold createdState, freshState. simpl. by destruct (c_isPrivate data).
  - intros row a b c d (host & rest & Hps & Hh & Hst).
    exists host, (rest ++ [createPlayer a b c d]). simpl.
    by rewrite Hps.
Qed.

(** X8.  In every reachable state, a session rebuilt from its row takes
    the players and the status from the row, has the first persisted
    player as host, and is otherwise as at creation: round 1 of 20, a
    full minute, default prices and indicators, empty log and history,
    timer stopped, no delay, nobody exited, no winner. *)
Theorem reachable_rows_rebuild_fresh s gid row :
  reachable s →
  games s !! gid = Some row →
  let g := reconstruct row in
  g_players g = db_players row
  ∧ status g = db_status row
  ∧ (∃ first, head (db_players row) = Some first ∧ host g = Some (pid first))
  ∧ currentRound g = 1
  ∧ maxRounds g = 20
  ∧ timeRemaining g = mkTime 0 1 0
  ∧ marketPrices g = mkResources 100 50 150
  ∧ marketChanges g = marketChanges createInitialGameState
  ∧ recentActions g = []
  ∧ actionHistory g = ∅
  ∧ timerActive g = false
  ∧ roundDelay g = None
  ∧ exitedPlayers g = None
  ∧ winner g = None
  ∧ finalScores g = None.
Proof.
  intros Hreach Hrow.
  destruct (inv_reachable _ _ creationSnapshot_Preserved s Hreach) as [_ Hd].
  destruct (Hd _ _ Hrow) as (host & rest & Hps & Hh & Hst).
  unfold reconstruct. rewrite Hst, Hps, Hh. simpl.
  repeat split; try reflexivity. by exists host.
Qed.

(** ** Burn and Sabotage that go through *)

Lemma resourceOfKey_Some key r :
  resourceOfKey key = Some r →
  key = match r with
        | Gold => "gold" | Water => "water" | Oil => "oil"
        end%string.
Proof.
  unfold resourceOfKey.
  destruct (String.eqb_spec key "gold"); [by intros [= <-]|].
  destruct (String.eqb_spec key "water"); [by intros [= <-]|].
  destruct (String.eqb_spec key "oil"); [by intros [= <-]|done].
Qed.

(** With the three indicators in place, the indicator of a known
    resource is found. *)
Lemma indicator_found g key r :
  indicatorsFixed g →
  resourceOfKey key = Some r →
  ∃ j m, list_find (λ m, resource m = key) (marketChanges g) = Some (j, m).
Proof.
  unfold indicatorsFixed. intros Hfix Hr.
  apply resourceOfKey_Some in Hr. subst key.
  destruct (marketChanges g) as [|m0 [|m1 [|m2 [|]]]]; try done.
  simpl in Hfix. injection Hfix as H0 H1 H2.
  destruct r; simpl; rewrite ?H0, ?H1, ?H2; simpl; eauto.
Qed.

Lemma getResource_setResource o r v r' :
  getResource (setResource o r v) r' = if decide (r' = r) then v else getResource o r'.
Proof. by destruct r, r'. Qed.

Lemma sumResources_setResource o r v :
  sumResources (setResource o r v) = sumResources o - getResource o r + v.
Proof. destruct r; unfold sumResources; simpl; lia. Qed.



(** ** Signs of balances *)

Lemma Forall_alter_at {A} (Q : A → Prop) (f : A → A) i (l : list A) x :
  Forall Q l → l !! i = Some x → Q (f x) → Forall Q (alter f i l).
Proof.
  intros Hl Hi Hx. apply Forall_lookup. intros k y Hk.
  rewrite Forall_lookup in Hl.
  rewrite list_lookup_alter in Hk. destruct (decide (i = k)) as [<-|]; [|eauto].
  rewrite Hi in Hk. simpl in Hk. by injection Hk as <-.
Qed.

Lemma Forall_alter_all {A} (Q : A → Prop) (f : A → A) i (l : list A) :
  Forall Q l → (∀ x, Q x → Q (f x)) → Forall Q (alter f i l).
Proof.
  intros Hl Hf. apply Forall_lookup. intros k y Hk.
  rewrite Forall_lookup in Hl.
  rewrite list_lookup_alter in Hk. destruct (decide (i = k)) as [<-|]; [|eauto].
  destruct (l !! i) as [x|] eqn:E; [|done].
  simpl in Hk. injection Hk as <-. eauto.
Qed.

Lemma sellPriceOf_nonneg price : 0 ≤ price → 0 ≤ sellPriceOf price.
Proof.
  intros H. unfold sellPriceOf.
  destruct (Z.eq_dec price 0) as [->|Hne]; [done|].
  apply Z.div_pos; [|done].
  unfold times_0_8. rewrite Z.sgn_pos, Z.mul_1_l by lia.
  set (n := Z.abs price * literal_0_8).
  assert (Hn : 0 ≤ n) by (unfold n, literal_0_8; lia).
  destruct (roundTo53_spec n Hn) as (_ & Hlow & _).
  etransitivity; [|exact Hlow].
  apply Z.mul_nonneg_nonneg.
  - apply Z.div_pos; [done|]. apply Z.pow_pos_nonneg; lia.
  - apply Z.pow_nonneg. lia.
Qed.

(** X4.  When the amount and the three market prices are not negative,
    a player action keeps every token balance and every asset quantity
    of the session from going negative. *)
Theorem playerAction_keeps_balances_nonnegative g playerId d :
  0 ≤ amount d →
  0 ≤ gold (marketPrices g) → 0 ≤ water (marketPrices g) →
  0 ≤ oil (marketPrices g) →
  Forall nonNegative (g_players g) →
  Forall nonNegative (g_players (playerAction playerId d g)).
Proof.
  intros Hamt Hpg Hpw Hpo Hall. unfold playerAction.
  destruct (findPlayer playerId (g_players g)) as [[i player]|] eqn:Hfind;
    [|done].
  pose proof Hfind as [Hi _]%findPlayer_Some.
  assert (Hplayer : nonNegative player).
  { rewrite Forall_lookup in Hall. eauto. }
  assert (Hprice : ∀ r, 0 ≤ getResource (marketPrices g) r * amount d).
  { intros r. apply Z.mul_nonneg_nonneg; [by destruct r|done]. }
  assert (Hsw : Forall nonNegative
                  (g_players (fst (actionSwitch i player d g)))).
  { unfold actionSwitch.
    destruct (String.eqb (action d) "Buy").
    { unfold caseBuy.
      destruct (resourceOfKey _) as [r|]; [|done].
      destruct (Z.geb_spec (tokens player)
                  (getResource (marketPrices g) r * amount d)); [|done].
      simpl. eapply Forall_alter_at; [done..|].
      pose proof (Hprice r). destruct Hplayer as (? & ? & ? & ?).
      destruct r; repeat split; simpl in *; lia. }
    destruct (String.eqb (action d) "Sell").
    { unfold caseSell.
      destruct (resourceOfKey _) as [r|]; [|done].
      destruct (Z.geb_spec (getResource (assets player) r) (amount d)); [|done].
      simpl. eapply Forall_alter_at; [done..|].
      pose proof (sellPriceOf_nonneg _ (Hprice r)).
      destruct Hplayer as (? & ? & ? & ?).
      destruct r; repeat split; simpl in *; lia. }
    destruct (String.eqb (action d) "Burn").
    { unfold caseBurn.
      destruct (resourceOfKey _) as [r|]; [|done].
      destruct (Z.geb_spec (getResource (assets player) r) (amount d)); [|done].
      assert (Forall nonNegative (alter (addAsset r (- amount d)) i (g_players g))).
      { eapply Forall_alter_at; [done..|].
        destruct Hplayer as (? & ? & ? & ?).
        destruct r; repeat split; simpl in *; lia. }
      simpl. by destruct (list_find _ _) as [[j m]|]. }
    destruct (String.eqb (action d) "Sabotage"); [|done].
    unfold caseSabotage.
    destruct (Z.geb_spec (tokens player) 100); [|done].
    destruct (truthy_ostring (targetPlayer d)); [|done]. simpl.
    assert (Hg1 : Forall nonNegative
              (alter (λ p, set_tokens (tokens p - 100) p) i (g_players g))).
    { eapply Forall_alter_at; [done..|].
      destruct Hplayer as (? & ? & ? & ?). repeat split; simpl; first [lia|done]. }
    destruct (findPlayer (default _ _) _) as [[j target]|]; [|exact Hg1].
    destruct (resourceOfKey _) as [r|]; [|exact Hg1].
    destruct (_ >=? _); [|exact Hg1]. simpl.
    apply Forall_alter_all; [done|].
    intros x (? & ? & ? & ?). destruct r; repeat split; simpl; lia. }
  destruct (actionSwitch i player d g) as [g1 text]. simpl in Hsw.
  rewrite g_players_logAction. simpl.
  apply Forall_alter_all; [done|]. by intros x (? & ? & ? & ?).
Qed.


(** ** Spelling of the resource *)

Lemma toLowerAscii_idemp c : toLowerAscii (toLowerAscii c) = toLowerAscii c.
Proof. by destruct c as [[] [] [] [] [] [] [] []]. Qed.

Lemma toLowerCase_idemp s : toLowerCase (toLowerCase s) = toLowerCase s.
Proof.
  induction s as [|c s IH]; [done|]. simpl. by rewrite toLowerAscii_idemp, IH.
Qed.

Lemma truthy_string_app_l (s t : string) :
  truthy_string s = true → truthy_string (s ++ t) = true.
Proof. by destruct s. Qed.

(** X18.  The effect of a player action on the players, the indicators
    and the prices does not depend on the case in which the resource is
    spelled, and neither does the number of log entries. *)
Theorem playerAction_ignores_case_of_resource g playerId d :
  let g1 := playerAction playerId d g in
  let g2 := playerAction playerId (lowerResource d) g in
  g_players g1 = g_players g2
  ∧ marketChanges g1 = marketChanges g2
  ∧ marketPrices g1 = marketPrices g2
  ∧ length (recentActions g1) = length (recentActions g2).
Proof.
  unfold playerAction.
  destruct (findPlayer playerId (g_players g)) as [[i player]|]; [|done].
  assert (Hsw : fst (actionSwitch i player d g)
                = fst (actionSwitch i player (lowerResource d) g)
              ∧ truthy_string (snd (actionSwitch i player d g))
                = truthy_string
                    (snd (actionSwitch i player (lowerResource d) g))).
  { unfold actionSwitch, caseBuy, caseSell, caseBurn, caseSabotage,
      lowerResource. simpl. rewrite toLowerCase_idemp.
    repeat match goal with
    | |- context [if ?b then _ else _] => destruct b
    | |- context [match ?o with Some _ => _ | None => _ end] =>
        destruct o as [[]|] || destruct o
    end; simpl; split; try reflexivity;
    rewrite ?truthy_buyText, ?truthy_sellText, ?truthy_burnText,
      ?truthy_sabotageText; reflexivity. }
  destruct (actionSwitch i player d g) as [ga ta].
  destruct (actionSwitch i player (lowerResource d) g) as [gb tb].
  simpl in Hsw. destruct Hsw as [-> Ht].
  unfold logAction. rewrite Ht. by destruct (truthy_string tb).
Qed.

(** ** Archived rounds *)

(** X10.  In a session whose history is filed under rounds that are over,
    an archived log is never changed: not by a firing of the timer, not
    by a player action.  The firing that ends the delay files the
    non-empty log of the round under the round number and empties the
    log. *)
Theorem archived_rounds_are_kept g k l :
  logBounded g →
  actionHistory g !! k = Some l →
  (∀ rnd, actionHistory (tick rnd g) !! k = Some l)
  ∧ (∀ playerId d, actionHistory (playerAction playerId d g) !! k = Some l)
  ∧ (∀ rnd, timerActive g = true →
       (∃ rd, roundDelay g = Some rd ∧ active rd = true
              ∧ rd_timeRemaining rd ≤ 1) →
       recentActions g ≠ [] →
       actionHistory (tick rnd g) !! currentRound g = Some (recentActions g)
       ∧ recentActions (tick rnd g) = []).
Proof.
  intros [_ Hhist] Hk.
  destruct (Hhist _ _ Hk) as (Hlt & _ & _).
  split; [|split].
  - intros rnd. unfold tick, tickGame, startNextRound, countdown, finishGame.
    repeat match goal with
    | |- context [if ?b then _ else _] => destruct b
    | |- context [match ?o with Some _ => _ | None => _ end] => destruct o
    end; simpl; try done; rewrite lookup_insert_ne; try done; lia.
  - intros playerId d.
    destruct (playerAction_fields playerId d g) as (_ & _ & _ & _ & H5 & _).
    by rewrite H5.
  - intros rnd Ha (rd & Hd & Hact & Ht) Hne.
    unfold tick, tickGame, startNextRound, finishGame. rewrite Ha, Hd, Hact.
    simpl. destruct (Z.leb_spec (rd_timeRemaining rd - 1) 0); [|lia].
    destruct (recentActions g) as [|a acts] eqn:E; [done|]. simpl.
    destruct (_ >? _); simpl; by rewrite lookup_insert_eq.
Qed.

(** ** The ambient fluctuation *)

Lemma fluctuation_range (r : Q) :
  unitDraw r → -5 ≤ Qfloor (r * 10) - 5 ≤ 4.
Proof.
  intros [Hlo Hhi].
  assert (inject_Z 0 <= r * 10)%Q as H0
    by (apply Qmult_le_0_compat; [done|discriminate]).
  assert (r * 10 < inject_Z 10)%Q as H10.
  { change (inject_Z 10) with (1 * 10)%Q.
    apply Qmult_lt_compat_r; [reflexivity|done]. }
  pose proof (Qfloor_le (r * 10)) as Hfl.
  pose proof (Qlt_floor (r * 10)) as Hfu.
  assert (inject_Z (Qfloor (r * 10)) < inject_Z 10)%Q as H1
    by (eapply Qle_lt_trans; eassumption).
  assert (inject_Z 0 < inject_Z (Qfloor (r * 10) + 1))%Q as H2
    by (eapply Qle_lt_trans; eassumption).
  rewrite <- Zlt_Qlt in H1, H2. lia.
Qed.

Lemma clamp_band (x : Z) : -50 ≤ Z.max (-50) (Z.min 50 x) ≤ 50.
Proof. lia. Qed.

Lemma clamp_step (c f : Z) :
  -50 ≤ c ≤ 50 → -5 ≤ f ≤ 4 →
  c - 5 ≤ Z.max (-50) (Z.min 50 (c + f)) ≤ c + 4.
Proof. lia. Qed.

(** X1.  The ambient fluctuation leaves a session that is not playing as
    it is.  In a playing session it changes the indicators only: each
    keeps its resource, ends between -50 and +50 with its percentage
    text rewritten from the new change, and, for draws in the unit
    interval, an indicator that was within that band has moved by at
    most 5 down and 4 up. *)
Theorem market_fluctuation_stays_in_band rnd s gid g :
  activeGameStates s !! gid = Some g →
  ∃ g',
    activeGameStates (market_fluctuation rnd s) !! gid = Some g'
    ∧ (status g ≠ playing → g' = g)
    ∧ (status g = playing →
         g' = set_marketChanges (marketChanges g') g
         ∧ resource <$> marketChanges g' = resource <$> marketChanges g
         ∧ Forall (λ m, -50 ≤ change m ≤ 50
                        ∧ percentage m = percentText (change m))
                  (marketChanges g')
         ∧ ((∀ i, unitDraw (rnd gid i)) →
            ∀ i m m', marketChanges g !! i = Some m →
              marketChanges g' !! i = Some m' →
              -50 ≤ change m ≤ 50 →
              change m - 5 ≤ change m' ≤ change m + 4)).
Proof.
  intros Hg. unfold market_fluctuation. simpl.
  rewrite map_lookup_imap, Hg. simpl. eexists. split; [reflexivity|].
  split.
  - intros Hs. by rewrite bool_decide_eq_false_2.
  - intros Hs. rewrite bool_decide_eq_true_2 by done. simpl.
    split; [done|].
    split; [unfold fluctuate; by apply fmap_resource_imap|].
    split.
    + apply Forall_lookup. intros i m. unfold fluctuate.
      rewrite list_lookup_imap.
      destruct (marketChanges g !! i); [|done]. intros [= <-].
      split; [apply clamp_band|done].
    + intros Hrnd i m m' Hm. unfold fluctuate.
      rewrite list_lookup_imap, Hm. intros [= <-] Hband.
      apply clamp_step; [done|]. apply fluctuation_range, Hrnd.
Qed.

(** ** The length of a game *)

Lemma ticks_stopped rnds g : timerActive g = false → ticks rnds g = g.
Proof.
  intros Ha. induction rnds as [|rnd rnds IH]; [done|].
  rewrite ticks_cons. unfold tick, tickGame. by rewrite Ha.
Qed.

(** The 71 firings of one round: 60 to reach zero, one to start the
    delay, 10 to sit it out. *)
Lemma ticks_one_round rnds g :
  atRoundStart g → length rnds = 71%nat →
  ∃ rnd, ticks rnds g
         = fst (startNextRound rnd
                  (set_roundDelay (Some (mkRoundDelay true 1))
                     (set_timeRemaining (mkTime 0 0 0) g))).
Proof.
  intros (Ha & Hd & Ht) Hlen.
  rewrite <- (take_drop 61 rnds), ticks_app.
  assert (Hlen61 : length (take 61 rnds) = 61%nat)
    by (rewrite length_take; lia).
  assert (Hlen10 : length (drop 61 rnds) = 10%nat)
    by (rewrite length_drop; lia).
  destruct (ticks_last _ 60 g Hlen61) as [rnd61 ->].
  rewrite (ticks_from_minute _ g Ha Hd Ht)
    by (rewrite length_take, length_take; lia).
  replace (60 - Z.of_nat (length (take 60 (take 61 rnds)))) with 0
    by (rewrite !length_take; lia).
  rewrite tick_counting, countdown_expired by done.
  set (g61 := set_roundDelay _ _).
  destruct (ticks_last _ 9 g61 Hlen10) as [rnd ->].
  exists rnd.
  rewrite (ticks_delay _ g61 10) by (try done; rewrite length_take; lia).
  replace (10 - Z.of_nat (length (take 9 (drop 61 rnds)))) with 1
    by (rewrite length_take; lia).
  unfold tick at 1. rewrite tick_delay_over by done.
  unfold g61. by destruct g.
Qed.

Lemma startNextRound_continues rnd g :
  timerActive g = true →
  currentRound g < maxRounds g →
  let g' := fst (startNextRound rnd
                   (set_roundDelay (Some (mkRoundDelay true 1))
                      (set_timeRemaining (mkTime 0 0 0) g))) in
  atRoundStart g'
  ∧ currentRound g' = currentRound g + 1
  ∧ maxRounds g' = maxRounds g
  ∧ g_players g' = g_players g
  ∧ marketPrices g' = marketPrices g
  ∧ status g' = status g.
Proof.
  intros Ha Hlt. unfold startNextRound, atRoundStart.
  destruct g as [cur mx ? ? ? ? acts ? ? ? ? ? ? ? ? ? ? ?]; simpl in *.
  destruct (0 <? length acts)%nat; simpl;
    (destruct (Z.gtb_spec (cur + 1) mx); [lia|done]).
Qed.

Lemma startNextRound_finishes rnd g :
  maxRounds g ≤ currentRound g →
  let g' := fst (startNextRound rnd
                   (set_roundDelay (Some (mkRoundDelay true 1))
                      (set_timeRemaining (mkTime 0 0 0) g))) in
  status g' = finished
  ∧ timerActive g' = false
  ∧ currentRound g' = currentRound g + 1
  ∧ g_players g' = g_players g
  ∧ winner g'
    = head (sortByScore (map (scorePlayer (marketPrices g)) (g_players g))).
Proof.
  intros Hle. unfold startNextRound.
  destruct g as [cur mx ? ? ? ? acts ? ? ? ? ? ? ? ? ? ? ?]; simpl in *.
  destruct (0 <? length acts)%nat; simpl;
    (destruct (Z.gtb_spec (cur + 1) mx); [done|lia]).
Qed.

(** X11.  Left to its timer, a session at the start of a round with [n]
    rounds to go (the current one included) finishes after exactly
    [71 * n] firings: after [71 * k] firings, for [k < n], it is at the
    start of round [current + k] and not finished; after [71 * n] it is
    finished with the timer stopped, the round counter at
    [maxRounds + 1], the players unchanged and the winner the head of
    the sorted scores; further firings change nothing. *)
Theorem game_takes_71_ticks_a_round (n : nat) : ∀ rnds g,
  atRoundStart g →
  (1 ≤ n)%nat →
  Z.of_nat n = maxRounds g - currentRound g + 1 →
  length rnds = (71 * n)%nat →
  let g' := ticks rnds g in
  status g' = finished
  ∧ timerActive g' = false
  ∧ currentRound g' = maxRounds g + 1
  ∧ g_players g' = g_players g
  ∧ winner g'
    = head (sortByScore (map (scorePlayer (marketPrices g)) (g_players g)))
  ∧ (∀ more, ticks more g' = g')
  ∧ (∀ k, (k < n)%nat →
       atRoundStart (ticks (take (71 * k) rnds) g)
       ∧ currentRound (ticks (take (71 * k) rnds) g)
         = currentRound g + Z.of_nat k
       ∧ status (ticks (take (71 * k) rnds) g) = status g).
Proof.
  induction n as [|n IH]; intros rnds g Hstart Hn Hrounds Hlen; [lia|].
  pose proof Hstart as (Ha & Hd & Ht).
  assert (Hsplit : rnds = take 71 rnds ++ drop 71 rnds)
    by (by rewrite take_drop).
  assert (Hlen71 : length (take 71 rnds) = 71%nat)
    by (rewrite length_take; lia).
  destruct (ticks_one_round (take 71 rnds) g Hstart Hlen71) as [rnd Hround].
  destruct n as [|m].
  - (* the last round *)
    assert (rnds = take 71 rnds) as Hall.
    { rewrite take_ge; [done|lia]. }
    rewrite Hall. cbv zeta. rewrite Hround.
    destruct (startNextRound_finishes rnd g ltac:(lia))
      as (H1 & H2 & H3 & H4 & H5).
    split; [done|]. split; [done|]. split; [lia|]. split; [done|].
    split; [done|]. split; [intros more; by apply ticks_stopped|].
    intros k Hk. assert (k = 0%nat) as -> by lia. simpl.
    split; [done|]. split; [lia|done].
  - (* a round that is not the last *)
    destruct (startNextRound_continues rnd g Ha ltac:(lia))
      as (Hs1 & Hc1 & Hm1 & Hp1 & Hpr1 & Hst1).
    rewrite <- Hround in Hs1, Hc1, Hm1, Hp1, Hpr1, Hst1.
    set (g1 := ticks (take 71 rnds) g) in *.
    assert (Hlen' : length (drop 71 rnds) = (71 * S m)%nat)
      by (rewrite length_drop; lia).
    destruct (IH (drop 71 rnds) g1 Hs1 ltac:(lia) ltac:(lia) Hlen')
      as (H1 & H2 & H3 & H4 & H5 & H6 & H7).
    assert (Hg' : ticks rnds g = ticks (drop 71 rnds) g1).
    { rewrite Hsplit at 1. by rewrite ticks_app. }
    cbv zeta. rewrite Hg'.
    split; [done|]. split; [done|]. split; [lia|].
    split; [by rewrite H4|]. split; [by rewrite H5, Hpr1, Hp1|].
    split; [done|].
    intros k Hk. destruct k as [|k].
    + simpl. split; [done|]. split; [lia|done].
    + assert (take (71 * S k) rnds
              = take 71 rnds ++ take (71 * k) (drop 71 rnds)) as ->.
      { rewrite Hsplit at 1. rewrite take_app, Hlen71.
        rewrite take_ge by (rewrite Hlen71; lia).
        do 2 f_equal. lia. }
      rewrite ticks_app. fold g1.
      destruct (H7 k ltac:(lia)) as (K1 & K2 & K3).
      split; [done|]. split; [lia|]. by rewrite K3.
Qed.

(** ** Who counts as host *)

(** X12.  A caller whose wallet address equals that of the recorded host
    counts as host, also when both addresses are absent: in a session
    of two players or more, [start-game] from such a caller is accepted
    and sets the session playing with its timer active. *)
Theorem start_game_accepts_equal_wallet
    s socket info game i caller h j hostPlayer ok :
  players s !! socket = Some info →
  activeGameStates s !! gameId info = Some game →
  findPlayer (playerId info) (g_players game) = Some (i, caller) →
  host game = Some h →
  findPlayer h (g_players game) = Some (j, hostPlayer) →
  walletAddress caller = walletAddress hostPlayer →
  (2 ≤ length (g_players game))%nat →
  isHost (playerId info) game = true
  ∧ snd (start_game socket ok s) = []
  ∧ activeGameStates (fst (start_game socket ok s)) !! gameId info
    = Some (set_timerActive true (set_status playing game)).
Proof.
  intros Hsock Hgame Hcaller Hhost Hfind Hwallet Hlen.
  assert (isHost (playerId info) game = true) as His.
  { unfold isHost, walletOf. rewrite Hhost, Hcaller, Hfind. simpl.
    rewrite Hwallet.
    rewrite (bool_decide_eq_true_2
               (Some (walletAddress hostPlayer)
                = Some (walletAddress hostPlayer))) by done.
    by rewrite orb_true_r. }
  split; [done|].
  unfold start_game. rewrite Hsock, Hgame, His. simpl.
  destruct (Nat.ltb_spec (length (g_players game)) 2); [lia|]. simpl.
  split; [done|]. apply lookup_insert_eq.
Qed.

(** ** The public listing *)

(** X13.  Every entry of the public games list is labelled "Open": it
    comes from a public, waiting row with fewer players than its
    maximum, so the label "Full" is never sent. *)
Theorem public_games_are_all_open ok s entry :
  entry ∈ get_public_games ok s →
  pg_status entry = "Open"%string
  ∧ (pg_currentPlayers entry < pg_maxPlayers entry)%nat
  ∧ ∃ row, games s !! pg_id entry = Some row
      ∧ visibility row = public
      ∧ db_status row = waiting
      ∧ pg_name entry = game_name row
      ∧ pg_currentPlayers entry = current_players row
      ∧ pg_maxPlayers entry = max_players row.
Proof.
  unfold get_public_games, GameDatabase.getPublicGames. intros Hin.
  apply list_elem_of_fmap in Hin as ([gid row] & -> & Hin).
  destruct ok; [|by rewrite map_to_list_empty in Hin; apply not_elem_of_nil in Hin].
  apply elem_of_map_to_list in Hin.
  apply map_lookup_filter_Some in Hin as [Hrow Hlisted].
  unfold GameDatabase.isListed in Hlisted. simpl in Hlisted.
  apply andb_true_iff in Hlisted as [Hlisted Hroom].
  apply andb_true_iff in Hlisted as [Hpub Hwait].
  apply bool_decide_eq_true in Hpub, Hwait.
  apply Nat.ltb_lt in Hroom. simpl.
  split.
  - destruct (Nat.leb_spec (max_players row) (current_players row)); [lia|done].
  - split; [done|]. by exists row.
Qed.

(** ** Creating, reloading and joining *)

Lemma reconstruct_createdRow socket data genId :
  reconstruct (createdRow socket data genId) = createdState socket data genId.
Proof.
  unfold reconstruct, createdRow, createdState. simpl.
  by destruct (c_isPrivate data).
Qed.

Lemma truthy_ostring_Some gid :
  gid ≠ EmptyString → truthy_ostring (Some gid) = true.
Proof.
  intros H. unfold truthy_ostring, truthy_string.
  by destruct (String.eqb_spec gid "").
Qed.

(** X14.  A game created under a free, non-empty id is answered on
    the creator's socket with [game-created] and, from a timer 200 ms
    later, with [game-state] carrying the session that was created,
    which is the session then stored under the id; [get-game-state]
    returns that same state and leaves the server as it is; and after a
    restart, which empties the memory, [get-game-state] rebuilds from
    the row that same state and installs it. *)
Theorem created_game_is_reloaded_as_created
    socket data genId expired okStart s :
  games s !! c_gameId data = None →
  c_gameId data ≠ EmptyString →
  let created := createdState socket data genId in
  let s1 := fst (create_game socket data genId true s) in
  let s2 := restart expired okStart s1 in
  snd (create_game socket data genId true s)
  = [EmitGameCreated (c_gameId data)
       (choosePlayerId (c_walletAddress data) genId);
     EmitAfter 200 (EmitGameState created)]
  ∧ activeGameStates s1 !! c_gameId data = Some created
  ∧ get_game_state (Some (c_gameId data)) true s1
    = (s1, [EmitGameState created])
  ∧ activeGameStates s2 = ∅
  ∧ get_game_state (Some (c_gameId data)) true s2
    = (setGame (c_gameId data) created s2, [EmitGameState created]).
Proof.
  intros Hfree Hid created s1 s2.
  unfold s2, s1. rewrite create_game_fresh by done. simpl.
  split; [done|].
  split; [apply lookup_insert_eq|].
  unfold get_game_state. rewrite truthy_ostring_Some by done. simpl.
  split.
  - unfold loadGame. simpl. by rewrite lookup_insert_eq.
  - split; [done|].
    unfold loadGame, restart. simpl. rewrite lookup_empty.
    assert (GameDatabase.cleanupOldGames expired okStart
              (<[c_gameId data := createdRow socket data genId]> (games s))
            !! c_gameId data = Some (createdRow socket data genId)) as ->.
    { unfold GameDatabase.cleanupOldGames. destruct okStart;
        [|apply lookup_insert_eq].
      apply map_lookup_filter_Some. split; [apply lookup_insert_eq|done]. }
    by rewrite reconstruct_createdRow.
Qed.

(** X21.  On a waiting session with room whose players are those of its
    row, an accepted [join-game] adds one player in memory; when both
    store calls succeed the row holds the same players again, with
    [current_players] equal to their number and its status unchanged,
    and when one of them fails the table is left as it was. *)
Theorem join_writes_the_same_player_to_the_store
    socket data genId okLoad okGet okUpdate s game row :
  activeGameStates s !! j_gameId data = Some game →
  games s !! j_gameId data = Some row →
  g_players game = db_players row →
  (length (g_players game) < 4)%nat →
  status game = waiting →
  let s' := fst (join_game socket data genId okLoad okGet okUpdate s) in
  ∃ game',
    activeGameStates s' !! j_gameId data = Some game'
    ∧ length (g_players game') = S (length (g_players game))
    ∧ (okGet = true → okUpdate = true →
       ∃ row', games s' !! j_gameId data = Some row'
         ∧ db_players row' = g_players game'
         ∧ current_players row' = length (g_players game')
         ∧ db_status row' = db_status row)
    ∧ (okGet = false ∨ okUpdate = false → games s' = games s).
Proof.
  intros Hgame Hrow Hsync Hroom Hwait s'.
  unfold s', join_game, loadGame. rewrite Hgame.
  destruct (Nat.leb_spec 4 (length (g_players game))); [lia|].
  rewrite bool_decide_eq_true_2 by done. simpl.
  eexists. split; [apply lookup_insert_eq|].
  split; [simpl; rewrite length_app; simpl; lia|].
  unfold GameDatabase.addPlayerToGame, GameDatabase.getGame.
  split.
  - intros -> ->. rewrite Hrow. eexists. split; [apply lookup_insert_eq|].
    simpl. by rewrite Hsync.
  - intros [->| ->]; [done|]. destruct okGet; [|done]. by rewrite Hrow.
Qed.

(** ** Leaving *)

(** X15.  Issuing [exit-game] twice from a socket has the effect of
    issuing it once. *)
Theorem exit_game_twice_is_once socket ok1 ok2 s :
  exit_game socket ok2 (exit_game socket ok1 s) = exit_game socket ok1 s.
Proof.
  assert (Hnothing : ∀ ok s0,
            players s0 !! socket = None
            ∨ (∃ info, players s0 !! socket = Some info
                 ∧ activeGameStates s0 !! gameId info = None) →
            exit_game socket ok s0 = s0).
  { intros ok s0 [H|(info & H1 & H2)]; unfold exit_game;
      [by rewrite H|by rewrite H1, H2]. }
  destruct (players s !! socket) as [info|] eqn:Hsock.
  - destruct (activeGameStates s !! gameId info) as [game|] eqn:Hgame.
    + apply Hnothing. left. unfold exit_game. rewrite Hsock, Hgame. simpl.
      apply lookup_delete_eq.
    + rewrite (Hnothing ok1 s) by (right; eauto).
      apply Hnothing. right. eauto.
  - rewrite (Hnothing ok1 s) by (by left). apply Hnothing. by left.
Qed.

(** X16.  A second [disconnect] of a socket changes nothing. *)
Theorem disconnect_twice_is_once socket s :
  disconnect socket (disconnect socket s) = disconnect socket s.
Proof.
  assert (Hnothing : ∀ s0, players s0 !! socket = None →
            disconnect socket s0 = s0).
  { intros s0 H. unfold disconnect. by rewrite H. }
  apply Hnothing. unfold disconnect.
  destruct (players s !! socket) as [info|] eqn:Hsock; [|done].
  simpl. apply lookup_delete_eq.
Qed.

Lemma hasExited_recordExit playerId g x :
  hasExited (recordExit playerId g) x
  = bool_decide (x = playerId) || hasExited g x.
Proof.
  unfold hasExited, recordExit. simpl.
  apply eq_true_iff_eq. rewrite orb_true_iff, !bool_decide_eq_true.
  rewrite elem_of_union, elem_of_singleton. tauto.
Qed.

(** X17.  When every player of the session other than the leaver has
    exited or is disconnected, [exit-game] closes the session: it is
    gone from memory, no socket is bound to it any more, the sockets
    bound to other sessions stay bound and the other sessions stay in
    memory. *)
Theorem exit_of_the_last_player_closes_the_game s socket info game ok :
  players s !! socket = Some info →
  activeGameStates s !! gameId info = Some game →
  Forall (λ p, pid p = playerId info ∨ hasExited game (pid p) = true
               ∨ connected p = false) (g_players game) →
  let s' := exit_game socket ok s in
  activeGameStates s' !! gameId info = None
  ∧ (∀ sock info', players s' !! sock = Some info' →
       gameId info' ≠ gameId info)
  ∧ (∀ sock info', players s !! sock = Some info' →
       gameId info' ≠ gameId info → players s' !! sock = Some info')
  ∧ (∀ gid, gid ≠ gameId info →
       activeGameStates s' !! gid = activeGameStates s !! gid).
Proof.
  intros Hsock Hgame Hall s'.
  assert (exitGame (playerId info) game = None) as Hexit.
  { unfold exitGame.
    assert (allPlayersExited (recordExit (playerId info) game) = true) as ->;
      [|done].
    unfold allPlayersExited. apply forallb_forall. intros p Hin.
    rewrite Forall_forall in Hall. apply list_elem_of_In in Hin.
    rewrite hasExited_recordExit.
    destruct (Hall p Hin) as [Hp|[Hp|Hp]].
    - by rewrite (bool_decide_eq_true_2 _ Hp).
    - rewrite Hp. by rewrite orb_true_r.
    - rewrite Hp. by rewrite orb_true_r. }
  unfold s', exit_game. rewrite Hsock, Hgame, Hexit. simpl.
  split; [apply lookup_delete_eq|]. split; [|split].
  - intros sock info' Hl.
    apply lookup_delete_Some in Hl as [_ Hl].
    by apply map_lookup_filter_Some in Hl as [_ Hl].
  - intros sock info' Hl Hne.
    apply lookup_delete_Some. split.
    + intros <-. rewrite Hsock in Hl. by injection Hl as <-.
    + by apply map_lookup_filter_Some.
  - intros gid Hne. by apply lookup_delete_ne.
Qed.

(** ** The sort of the final scores *)

Lemma StronglySorted_head_max (x : ScoredPlayer) l y :
  StronglySorted byScoreDesc (x :: l) → y ∈ x :: l →
  finalScore y ≤ finalScore x.
Proof.
  intros Hs Hy. apply StronglySorted_inv in Hs as [_ Hx].
  apply elem_of_cons in Hy as [->|Hy]; [lia|].
  rewrite Forall_forall in Hx. by apply Hx.
Qed.

(** Two lists in descending order of score that agree on the order of
    the elements of every one score are equal. *)
Lemma stable_descending_sort_is_unique : ∀ l1 l2 : list ScoredPlayer,
  StronglySorted byScoreDesc l1 →
  StronglySorted byScoreDesc l2 →
  (∀ s, filter (λ a, finalScore a = s) l1
        = filter (λ a, finalScore a = s) l2) →
  l1 = l2.
Proof.
  induction l1 as [|x l1 IH]; intros l2 Hs1 Hs2 Hf.
  - destruct l2 as [|y l2]; [done|].
    specialize (Hf (finalScore y)). rewrite filter_cons, decide_True in Hf by done.
    done.
  - destruct l2 as [|y l2].
    { specialize (Hf (finalScore x)).
      rewrite filter_cons, decide_True in Hf by done. done. }
    assert (Hxy : finalScore x = finalScore y).
    { assert (finalScore y ≤ finalScore x).
      { apply (StronglySorted_head_max x l1 y Hs1).
        assert (y ∈ filter (λ a, finalScore a = finalScore y) (x :: l1))
          as Hy.
        { rewrite Hf, filter_cons, decide_True by done.
          apply list_elem_of_here. }
        by apply list_elem_of_filter in Hy as [_ Hy]. }
      assert (finalScore x ≤ finalScore y).
      { apply (StronglySorted_head_max y l2 x Hs2).
        assert (x ∈ filter (λ a, finalScore a = finalScore x) (y :: l2))
          as Hx.
        { rewrite <- Hf, filter_cons, decide_True by done.
          apply list_elem_of_here. }
        by apply list_elem_of_filter in Hx as [_ Hx]. }
      lia. }
    pose proof (Hf (finalScore x)) as Hhead.
    rewrite !filter_cons, decide_True, decide_True in Hhead by done.
    injection Hhead as <- Htail.
    f_equal. apply IH.
    + by apply StronglySorted_inv in Hs1 as [? _].
    + by apply StronglySorted_inv in Hs2 as [? _].
    + intros s. specialize (Hf s). rewrite !filter_cons in Hf.
      destruct (decide (finalScore x = s)); [by injection Hf|done].
Qed.

(** ** The hourly sweep *)

Lemma sweep_removes matches okDelete (tbl : gmap string DbGame) k row :
  tbl !! k = Some row → matches (k, row) = true →
  GameDatabase.sweep matches true okDelete tbl
  = if okDelete
    then (Some (size (filter (λ kv, matches kv = true) tbl)),
          filter (λ kv, matches kv = false) tbl)
    else (None, tbl).
Proof.
  intros Hk Hm. unfold GameDatabase.sweep.
  assert (filter (λ kv, matches kv = true) tbl !! k = Some row) as Hin
    by (by apply map_lookup_filter_Some).
  destruct (Nat.ltb_spec 0 (size (filter (λ kv, matches kv = true) tbl)))
    as [|Hz]; [done|].
  assert (size (filter (λ kv, matches kv = true) tbl) = 0%nat) as Hsize by lia.
  apply map_size_empty_iff in Hsize. rewrite Hsize in Hin.
  by rewrite lookup_empty in Hin.
Qed.

Lemma sweep_positive matches (tbl : gmap string DbGame) k row :
  tbl !! k = Some row → matches (k, row) = true →
  removedSome (fst (GameDatabase.sweep matches true true tbl)) = true.
Proof.
  intros Hk Hm. rewrite (sweep_removes _ _ _ k row) by done. simpl.
  apply Nat.ltb_lt.
  assert (filter (λ kv, matches kv = true) tbl !! k = Some row) as Hin
    by (by apply map_lookup_filter_Some).
  destruct (size (filter (λ kv, matches kv = true) tbl)) eqn:Hsize; [|lia].
  apply map_size_empty_iff in Hsize. rewrite Hsize in Hin.
  by rewrite lookup_empty in Hin.
Qed.

(** X20.  When the hourly sweep removes a stale open row, that row is gone
    from the store, no row is added, and the memory is reconciled with
    the public listing: a session stays in memory only if the listing
    could be read and its row is still there, public, waiting and below
    capacity; a session whose row is not waiting, or is private, is
    dropped from memory. *)
Theorem hourly_cleanup_keeps_only_listed_sessions o s k stale :
  games s !! k = Some stale →
  GameDatabase.isStaleOpen (staleExpired o) (k, stale) = true →
  okStaleSelect o = true →
  okStaleDelete o = true →
  let s' := hourly_cleanup o s in
  games s' !! k = None
  ∧ (∀ gid row, games s' !! gid = Some row → games s !! gid = Some row)
  ∧ (∀ gid g, activeGameStates s' !! gid = Some g →
       activeGameStates s !! gid = Some g
       ∧ okListing o = true
       ∧ ∃ row, games s' !! gid = Some row
           ∧ visibility row = public
           ∧ db_status row = waiting
           ∧ (current_players row < max_players row)%nat)
  ∧ (∀ gid g row, activeGameStates s !! gid = Some g →
       games s' !! gid = Some row →
       db_status row ≠ waiting ∨ visibility row = private →
       activeGameStates s' !! gid = None).
Proof.
  intros Hk Hstale Hsel Hdel s'.
  assert (Hkeep : ∀ gid g, activeGameStates s' !! gid = Some g →
       activeGameStates s !! gid = Some g
       ∧ okListing o = true
       ∧ ∃ row, games s' !! gid = Some row
           ∧ GameDatabase.isListed row = true).
  { intros gid g. unfold s', hourly_cleanup,
      GameDatabase.cleanupStaleOpenGames. rewrite Hsel, Hdel.
    pose proof (sweep_positive _ _ _ _ Hk Hstale) as Hpos.
    destruct (GameDatabase.sweep _ true true (games s)) as [c1 tbl1].
    simpl in Hpos. rewrite Hpos.
    destruct (GameDatabase.cleanupAbandonedGames _ _ _ tbl1) as [c2 tbl2].
    simpl. intros Hg.
    apply map_lookup_filter_Some in Hg as [Hg Hlisted]. simpl in Hlisted.
    split; [done|]. unfold GameDatabase.getPublicGames in Hlisted.
    destruct (okListing o); [|by destruct Hlisted as [? ?]].
    split; [done|]. destruct Hlisted as [row Hrow].
    apply map_lookup_filter_Some in Hrow as [Hrow Hl]. by exists row. }
  assert (Hrows : ∀ gid row, games s' !! gid = Some row →
            games s !! gid = Some row
            ∧ GameDatabase.isStaleOpen (staleExpired o) (gid, row) = false).
  { intros gid row. unfold s', hourly_cleanup,
      GameDatabase.cleanupStaleOpenGames, GameDatabase.cleanupAbandonedGames.
    rewrite Hsel, Hdel, (sweep_removes _ _ _ k stale) by done.
    assert (Hsub : ∀ m oks okd (tbl : gmap string DbGame) x r,
              snd (GameDatabase.sweep m oks okd tbl) !! x = Some r →
              tbl !! x = Some r).
    { intros m oks okd tbl x r. unfold GameDatabase.sweep.
      destruct oks; [|done]. destruct (0 <? _)%nat; [|done].
      destruct okd; [|done]. simpl. intros H.
      by apply map_lookup_filter_Some in H as [H _]. }
    specialize (Hsub (GameDatabase.isAbandoned (abandonedExpired o))
                  (okAbandonedSelect o) (okAbandonedDelete o)
                  (filter (λ kv, GameDatabase.isStaleOpen (staleExpired o) kv
                                 = false) (games s)) gid row).
    destruct (GameDatabase.sweep _ _ _ (filter _ (games s))) as [c2 tbl2].
    simpl in Hsub.
    assert (games (if removedSome
                        (Some (size (filter
                           (λ kv, GameDatabase.isStaleOpen (staleExpired o) kv
                                  = true) (games s))))
                      || removedSome c2
                   then mkServer
                          (filter (λ kv, is_Some
                             (GameDatabase.getPublicGames (okListing o)
                                (GameDatabase.cleanupOldGames
                                   (finishedExpired o) (okFinishedDelete o)
                                   tbl2) !! fst kv)) (activeGameStates s))
                          (players s)
                          (GameDatabase.cleanupOldGames (finishedExpired o)
                             (okFinishedDelete o) tbl2)
                   else mkServer (activeGameStates s) (players s)
                          (GameDatabase.cleanupOldGames (finishedExpired o)
                             (okFinishedDelete o) tbl2))
            = GameDatabase.cleanupOldGames (finishedExpired o)
                (okFinishedDelete o) tbl2) as ->
      by (by destruct (_ || _)).
    intros Hrow.
    assert (tbl2 !! gid = Some row) as H2.
    { unfold GameDatabase.cleanupOldGames in Hrow.
      destruct (okFinishedDelete o); [|done].
      by apply map_lookup_filter_Some in Hrow as [Hrow _]. }
    apply Hsub in H2. by apply map_lookup_filter_Some in H2 as [H2 H3]. }
  split.
  { destruct (games s' !! k) as [row|] eqn:E; [|done].
    destruct (Hrows _ _ E) as [Hrow Hns]. rewrite Hk in Hrow.
    injection Hrow as <-. by rewrite Hstale in Hns. }
  split; [intros gid row Hrow; by destruct (Hrows _ _ Hrow)|].
  split.
  - intros gid g Hg. destruct (Hkeep _ _ Hg) as (H1 & H2 & row & Hrow & Hl).
    split; [done|]. split; [done|]. exists row. split; [done|].
    unfold GameDatabase.isListed in Hl.
    apply andb_true_iff in Hl as [Hl Hroom].
    apply andb_true_iff in Hl as [Hpub Hwait].
    apply bool_decide_eq_true in Hpub, Hwait. by apply Nat.ltb_lt in Hroom.
  - intros gid g row Hg Hrow Hnot.
    destruct (activeGameStates s' !! gid) as [g'|] eqn:E; [|done].
    destruct (Hkeep _ _ E) as (_ & _ & row' & Hrow' & Hl).
    rewrite Hrow in Hrow'. injection Hrow' as <-.
    unfold GameDatabase.isListed in Hl.
    apply andb_true_iff in Hl as [Hl _].
    apply andb_true_iff in Hl as [Hpub Hwait].
    apply bool_decide_eq_true in Hpub, Hwait.
    destruct Hnot as [Hnot|Hnot]; [done|]. by rewrite Hpub in Hnot.
Qed.

(** X22.  A player action never changes the market prices, the round,
    the clock, the delay, the history, the status, the host or the
    timer flag, keeps the players and their ids in place, and leaves the
    log as it is or puts one non-empty entry at its head, keeping the
    10 most recent. *)
Theorem playerAction_touches_players_indicators_and_log playerId d g :
  let g' := playerAction playerId d g in
  marketPrices g' = marketPrices g
  ∧ currentRound g' = currentRound g
  ∧ timeRemaining g' = timeRemaining g
  ∧ roundDelay g' = roundDelay g
  ∧ actionHistory g' = actionHistory g
  ∧ status g' = status g
  ∧ host g' = host g
  ∧ timerActive g' = timerActive g
  ∧ length (g_players g') = length (g_players g)
  ∧ pid <$> g_players g' = pid <$> g_players g
  ∧ (recentActions g' = recentActions g
     ∨ ∃ text, text ≠ EmptyString
         ∧ recentActions g' = take 10 (text :: recentActions g)).
Proof.
  unfold playerAction.
  destruct (findPlayer playerId (g_players g)) as [[i player]|];
    [|simpl; repeat split; try done; by left].
  assert (Hsw : let g1 := fst (actionSwitch i player d g) in
            marketPrices g1 = marketPrices g
            ∧ currentRound g1 = currentRound g
            ∧ timeRemaining g1 = timeRemaining g
            ∧ roundDelay g1 = roundDelay g
            ∧ actionHistory g1 = actionHistory g
            ∧ status g1 = status g
            ∧ host g1 = host g
            ∧ timerActive g1 = timerActive g
            ∧ recentActions g1 = recentActions g
            ∧ pid <$> g_players g1 = pid <$> g_players g).
  { destruct (actionSwitch_fields i player d g)
      as (H1 & H2 & H3 & H4 & H5 & H6 & H7 & H8 & H9 & H10 & H11).
    repeat split; try done.
    assert (Hpid : ∀ (f : Player → Player) (k : nat) (ps : list Player),
              (∀ p, pid (f p) = pid p) →
              pid <$> alter f k ps = pid <$> ps).
    { intros f k ps Hf. apply list_eq. intros n.
      rewrite !list_lookup_fmap, list_lookup_alter.
      destruct (decide (k = n)) as [->|]; [|done].
      destruct (ps !! n); [|done]. simpl. by rewrite Hf. }
    unfold actionSwitch, caseBuy, caseSell, caseBurn, caseSabotage.
    repeat match goal with
    | |- context [if ?b then _ else _] => destruct b
    | |- context [match ?o with Some _ => _ | None => _ end] =>
        destruct o as [[]|] || destruct o
    end; simpl; try reflexivity;
    rewrite ?Hpid; try reflexivity; by intros []. }
  destruct (actionSwitch i player d g) as [g1 text]. simpl in Hsw.
  destruct Hsw as (H1 & H2 & H3 & H4 & H5 & H6 & H7 & H8 & H9 & H10).
  assert (Hps : pid <$> alter (λ p, set_totalAssets (sumResources (assets p)) p)
                          i (g_players g1) = pid <$> g_players g).
  { rewrite <- H10. apply list_eq. intros n.
    rewrite !list_lookup_fmap, list_lookup_alter.
    destruct (decide (i = n)) as [->|]; [|done].
    by destruct (g_players g1 !! n). }
  unfold logAction. destruct (truthy_string text) eqn:Ht; simpl;
    repeat split; try done;
    try (apply (f_equal length) in Hps; by rewrite !length_fmap in Hps).
  - right. exists text. split; [by intros ->|by rewrite H9].
  - by left.
Qed.

(** X19.  [finalScores] is the only arrangement of the scored players
    that is in descending order of score and keeps the players of equal
    score in join order: any list with these two properties is the one
    [finishGame] stores, and the winner is its head. *)
Theorem finalScores_is_the_stable_descending_order g fs :
  StronglySorted byScoreDesc fs →
  (∀ s, filter (λ a, finalScore a = s) fs
        = filter (λ a, finalScore a = s)
            (map (scorePlayer (marketPrices g)) (g_players g))) →
  finalScores (finishGame g) = Some fs
  ∧ winner (finishGame g) = head fs.
Proof.
  intros Hsorted Hstable.
  assert (fs = sortByScore (map (scorePlayer (marketPrices g)) (g_players g)))
    as ->; [|done].
  apply stable_descending_sort_is_unique;
    [done|apply sortByScore_sorted|].
  intros s. by rewrite sortByScore_stable.
Qed.

(** ** Instances of the further properties *)

Lemma startedServer_row :
  games startedServer !! "G1"%string = Some startedRow.
Proof. vm_compute. reflexivity. Qed.

Lemma walletlessServer_game :
  activeGameStates walletlessServer !! "G2"%string = Some walletlessGame.
Proof. vm_compute. reflexivity. Qed.

Lemma fluctuation_witness :
  ∃ g', activeGameStates (market_fluctuation (λ _, halves) startedServer)
          !! "G1"%string = Some g'
        ∧ Forall (λ m, -50 ≤ change m ≤ 50
                       ∧ percentage m = percentText (change m))
                 (marketChanges g').
Proof.
  destruct (market_fluctuation_stays_in_band (λ _, halves) startedServer
              "G1" startedGame startedServer_game)
    as (g' & Hg' & _ & Hplaying).
  exists g'. split; [exact Hg'|].
  destruct (Hplaying eq_refl) as (_ & _ & Hband & _). exact Hband.
Defined.



Lemma nonnegative_witness :
  Forall nonNegative (g_players (playerAction "walletA" buyGold startedGame)).
Proof.
  apply playerAction_keeps_balances_nonnegative;
    first [ vm_compute; discriminate
          | repeat constructor; vm_compute; discriminate ].
Defined.


Lemma log_bounded_witness :
  (length (recentActions startedGame) ≤ 10)%nat
  ∧ (∀ k l, actionHistory startedGame !! k = Some l →
       k < currentRound startedGame ∧ l ≠ [] ∧ (length l ≤ 10)%nat).
Proof.
  apply (reachable_log_bounded startedServer "G1" startedGame).
  - unfold startedServer. apply reachable_run. constructor.
  - vm_compute. reflexivity.
Defined.

Lemma prices_nonzero_witness :
  gold (marketPrices startedGame) ≠ 0 ∧ water (marketPrices startedGame) ≠ 0
  ∧ oil (marketPrices startedGame) ≠ 0.
Proof.
  apply (reachable_prices_nonzero startedServer "G1" startedGame).
  - unfold startedServer. apply reachable_run. constructor.
  - vm_compute. reflexivity.
Defined.

Lemma indicators_fixed_witness :
  resource <$> marketChanges startedGame = ["gold"; "water"; "oil"]%string.
Proof.
  apply (reachable_indicators_fixed startedServer "G1" startedGame).
  - unfold startedServer. apply reachable_run. constructor.
  - vm_compute. reflexivity.
Defined.

Lemma rebuild_witness :
  status (reconstruct startedRow) = playing
  ∧ timerActive (reconstruct startedRow) = false
  ∧ currentRound (reconstruct startedRow) = 1
  ∧ g_players (reconstruct startedRow) = [alice; bob].
Proof.
  destruct (reachable_rows_rebuild_fresh startedServer "G1" startedRow)
    as (H1 & H2 & _ & H4 & _ & _ & _ & _ & _ & _ & H11 & _).
  - unfold startedServer. apply reachable_run. constructor.
  - vm_compute. reflexivity.
  - repeat split; assumption.
Defined.

Lemma archive_witness :
  actionHistory (tick halves archivedGame) !! 1
  = Some ["Alice bought 2 Gold for 200 tokens"%string].
Proof.
  destruct (archived_rounds_are_kept archivedGame 1
              ["Alice bought 2 Gold for 200 tokens"%string]) as [H _].
  - split; [simpl; lia|]. apply map_Forall_singleton.
    split; [reflexivity|]. split; [discriminate|simpl; lia].
  - vm_compute. reflexivity.
  - apply H.
Defined.

Lemma game_length_witness :
  status (ticks (replicate (71 * 20) halves) startedGame) = finished
  ∧ currentRound (ticks (replicate (71 * 20) halves) startedGame) = 20 + 1.
Proof.
  destruct (game_takes_71_ticks_a_round 20 (replicate (71 * 20) halves)
              startedGame) as (H1 & _ & H3 & _).
  - repeat split.
  - lia.
  - reflexivity.
  - apply length_replicate.
  - split; assumption.
Defined.

Lemma equal_wallet_witness :
  isHost "player_ben" walletlessGame = true
  ∧ activeGameStates (fst (start_game "socketBen" true walletlessServer))
      !! "G2"%string
    = Some (set_timerActive true (set_status playing walletlessGame)).
Proof.
  destruct (start_game_accepts_equal_wallet walletlessServer "socketBen"
              (mkInfo "G2" "player_ben" "Ben") walletlessGame
              1 ben "player_ann" 0 ann true)
    as (H1 & _ & H3);
    [ vm_compute; reflexivity | exact walletlessServer_game | reflexivity
    | reflexivity | reflexivity | reflexivity | simpl; lia | ].
  split; assumption.
Defined.

Lemma public_games_witness :
  pg_status (formatGame ("G1"%string,
               createdRow "socketA"
                 (mkCreate "Trading floor" "G1" "Alice" false
                           (Some "walletA"%string)) "player_a"))
  = "Open"%string.
Proof.
  destruct (public_games_are_all_open true (run [aliceCreates] emptyServer)
              (formatGame ("G1"%string,
                 createdRow "socketA"
                   (mkCreate "Trading floor" "G1" "Alice" false
                             (Some "walletA"%string)) "player_a")))
    as [H _]; [|exact H].
  assert (get_public_games true (run [aliceCreates] emptyServer)
          = [formatGame ("G1"%string,
               createdRow "socketA"
                 (mkCreate "Trading floor" "G1" "Alice" false
                           (Some "walletA"%string)) "player_a")]) as ->
    by (vm_compute; reflexivity).
  apply list_elem_of_here.
Defined.

Lemma reload_witness :
  get_game_state (Some "G1"%string) true
    (restart (λ _, true) true (run [aliceCreates] emptyServer))
  = (setGame "G1" waitingGame
       (restart (λ _, true) true (run [aliceCreates] emptyServer)),
     [EmitGameState waitingGame]).
Proof.
  destruct (created_game_is_reloaded_as_created "socketA"
              (mkCreate "Trading floor" "G1" "Alice" false
                        (Some "walletA"%string)) "player_a"
              (λ _, true) true emptyServer) as (_ & _ & _ & _ & H);
    [vm_compute; reflexivity | discriminate | ].
  exact H.
Defined.

Lemma join_store_witness :
  ∃ game',
    activeGameStates
      (fst (join_game "socketB" (mkJoin "G1" "Bob" (Some "walletB"%string))
              "player_b" true true true (run [aliceCreates] emptyServer)))
      !! "G1"%string = Some game'
    ∧ length (g_players game') = 2%nat.
Proof.
  destruct (join_writes_the_same_player_to_the_store "socketB"
              (mkJoin "G1" "Bob" (Some "walletB"%string)) "player_b"
              true true true (run [aliceCreates] emptyServer) waitingGame
              (createdRow "socketA"
                 (mkCreate "Trading floor" "G1" "Alice" false
                           (Some "walletA"%string)) "player_a"))
    as (game' & H1 & H2 & _);
    [ vm_compute; reflexivity | vm_compute; reflexivity | reflexivity
    | simpl; lia | reflexivity | ].
  exists game'. split; assumption.
Defined.

Lemma last_exit_witness :
  activeGameStates (exit_game "socketA" true (run [aliceCreates] emptyServer))
    !! "G1"%string = None.
Proof.
  destruct (exit_of_the_last_player_closes_the_game
              (run [aliceCreates] emptyServer) "socketA"
              (mkInfo "G1" "walletA" "Alice") waitingGame true)
    as [H _];
    [vm_compute; reflexivity | vm_compute; reflexivity | repeat constructor | ].
  exact H.
Defined.

Lemma stable_order_witness :
  finalScores (finishGame tiedGame) = Some tiedRanking
  ∧ winner (finishGame tiedGame) = head tiedRanking.
Proof.
  apply finalScores_is_the_stable_descending_order.
  - repeat constructor; vm_compute; discriminate.
  - intros s. simpl. rewrite !filter_cons, filter_nil. reflexivity.
Defined.

Lemma cleanup_witness :
  games (hourly_cleanup sweepAll twoGamesServer) !! "G2"%string = None
  ∧ activeGameStates (hourly_cleanup sweepAll twoGamesServer) !! "G1"%string
    = None.
Proof.
  destruct (hourly_cleanup_keeps_only_listed_sessions sweepAll twoGamesServer
              "G2" (createdRow "socketAnn"
                      (mkCreate "Back room" "G2" "Ann" false None)
                      "player_ann"))
    as (H1 & _ & _ & H4);
    [ vm_compute; reflexivity | reflexivity | reflexivity | reflexivity | ].
  split; [exact H1|].
  apply (H4 "G1"%string startedGame startedRow);
    [vm_compute; reflexivity | vm_compute; reflexivity | left; discriminate].
Defined.

(** ** Players under one id *)

Lemma shadowed_not_found k ps x j q :
  shadowed k ps → findPlayer x ps = Some (j, q) → j ≠ k.
Proof.
  intros (k' & p' & p & Hlt & Hk' & Hk & Hid) Hfind ->.
  unfold findPlayer in Hfind.
  apply list_find_Some in Hfind as (Hq & Hx & Hbefore).
  rewrite Hk in Hq. injection Hq as <-.
  apply (Hbefore k' p' Hk' Hlt). by rewrite Hid.
Qed.

Lemma shadowed_alter (f : Player → Player) i k ps :
  (∀ p, pid (f p) = pid p) → shadowed k ps → shadowed k (alter f i ps).
Proof.
  intros Hf (k' & p' & p & Hlt & Hk' & Hk & Hid).
  exists k',
    (if decide (i = k') then f p' else p'),
    (if decide (i = k) then f p else p).
  assert (Hat : ∀ n q, ps !! n = Some q →
            alter f i ps !! n = Some (if decide (i = n) then f q else q)).
  { intros n q Hn. destruct (decide (i = n)) as [->|].
    - by rewrite list_lookup_alter_eq, Hn.
    - by rewrite list_lookup_alter_ne. }
  split; [done|]. split; [by apply Hat|]. split; [by apply Hat|].
  destruct (decide (i = k')), (decide (i = k)); by rewrite ?Hf.
Qed.

(** X23.  Players are looked up by id and the first match is taken, so a
    player who stands in [players] behind an earlier player with the
    same id is out of reach: no player action, whoever issues it and
    whatever its target, changes that player. *)
Theorem playerAction_never_reaches_a_shadowed_player playerId d g k :
  shadowed k (g_players g) →
  g_players (playerAction playerId d g) !! k = g_players g !! k.
Proof.
  intros Hsh. unfold playerAction.
  destruct (findPlayer playerId (g_players g)) as [[i player]|] eqn:Hfind;
    [|done].
  pose proof (shadowed_not_found _ _ _ _ _ Hsh Hfind) as Hik.
  assert (Hsw : g_players (fst (actionSwitch i player d g)) !! k
                = g_players g !! k).
  { unfold actionSwitch.
    destruct (String.eqb (action d) "Buy").
    { unfold caseBuy. destruct (resourceOfKey _); [|done].
      destruct (_ >=? _); [|done]. simpl. by rewrite list_lookup_alter_ne. }
    destruct (String.eqb (action d) "Sell").
    { unfold caseSell. destruct (resourceOfKey _); [|done].
      destruct (_ >=? _); [|done]. simpl. by rewrite list_lookup_alter_ne. }
    destruct (String.eqb (action d) "Burn").
    { unfold caseBurn. destruct (resourceOfKey _); [|done].
      destruct (_ >=? _); [|done].
      destruct (list_find _ _) as [[j m]|]; simpl;
        by rewrite list_lookup_alter_ne. }
    destruct (String.eqb (action d) "Sabotage"); [|done].
    unfold caseSabotage. destruct (_ && _); [|done].
    set (ps1 := g_players (alterPlayer i (λ p, set_tokens (tokens p - 100) p) g)).
    assert (Hps1 : ps1 !! k = g_players g !! k)
      by (unfold ps1; simpl; by rewrite list_lookup_alter_ne).
    destruct (findPlayer (default _ _) ps1) as [[j target]|] eqn:Ht;
      [|done].
    assert (j ≠ k) as Hjk.
    { eapply shadowed_not_found; [|exact Ht].
      unfold ps1. simpl. apply shadowed_alter; [by intros []|done]. }
    destruct (resourceOfKey _); [|done].
    destruct (_ >=? _); [|done]. simpl.
    rewrite list_lookup_alter_ne by done. exact Hps1. }
  destruct (actionSwitch i player d g) as [g1 text]. simpl in Hsw.
  rewrite g_players_logAction. simpl.
  by rewrite list_lookup_alter_ne.
Qed.

Lemma doubledGame_reached :
  activeGameStates
    (run [aliceCreates; bobJoins; bobJoinsAgain; hostStarts] emptyServer)
    !! "G1"%string = Some doubledGame.
Proof. vm_compute. reflexivity. Qed.

Lemma shadowed_witness :
  g_players (playerAction "walletB" buyGold doubledGame) !! 2%nat
  = g_players doubledGame !! 2%nat.
Proof.
  apply playerAction_never_reaches_a_shadowed_player.
  exists 1%nat, bob,
    (createPlayer "walletB" "Bob" "socketB2" (Some "walletB"%string)).
  repeat split. lia.
Defined.
